(** * felt-dataset: the cleanup script and the Action-Unit video job

    A shallow embedding of the two scripts of the repository

      - [remove_video_only_file.py]  (module [RemoveVideoOnlyFile]),
      - [draw_AU(song).py]           (section [Job]),

    over a small model of the Python runtime they run on: exceptions,
    [range], f-string number formatting, [os.path], a file store, [glob].

    Effects are explicit.  A computation is a function from a world to a
    result and a world; an uncaught Python exception is the result
    [Raise e], which skips the rest of the computation.  The external
    libraries (py-feat, matplotlib, imageio, multiprocessing) are parameters
    of the video job. *)

From Stdlib Require Import Ascii DecimalString DecimalFacts DecimalNat.
From stdpp Require Import gmap strings list fin_maps sorting.

Set Default Proof Using "Type".

(** ** Exceptions and results *)

(** The exception classes the scripts can meet.  [ValueError] stands for the
    class and its subclasses, which is what [except ValueError] catches;
    [Exception] is any class outside that subtree and outside the named
    ones. *)
Inductive exn : Type :=
  | ValueError (msg : string)
  | IndexError (msg : string)
  | FileNotFoundError (path : string)
  | NotADirectoryError (path : string)
  | IsADirectoryError (path : string)
  | Exception (cls msg : string).

Definition is_ValueError (e : exn) : bool :=
  match e with ValueError _ => true | _ => false end.

Inductive result (A : Type) : Type :=
  | Ok (a : A)
  | Raise (e : exn).
Arguments Ok {A} a.
Arguments Raise {A} e.

Definition is_Ok {A} (r : result A) : bool :=
  match r with Ok _ => true | Raise _ => false end.

(** ** Computations over a world [W] *)

Definition M (W A : Type) : Type := W → result A * W.

Definition ret {W A} (a : A) : M W A := λ w, (Ok a, w).

Definition raise {W A} (e : exn) : M W A := λ w, (Raise e, w).

Definition bind {W A B} (m : M W A) (k : A → M W B) : M W B :=
  λ w, match m w with
       | (Ok a, w') => k a w'
       | (Raise e, w') => (Raise e, w')
       end.

(** An external call whose outcome is already known. *)
Definition lift {W A} (r : result A) : M W A := λ w, (r, w).

(** [try: body except ValueError as e: handler e]. *)
Definition try_except_ValueError {W A} (body : M W A) (handler : exn → M W A)
  : M W A :=
  λ w, match body w with
       | (Ok a, w') => (Ok a, w')
       | (Raise e, w') => if is_ValueError e then handler e w' else (Raise e, w')
       end.

Notation "'let*' x ':=' m 'in' k" := (bind m (λ x, k))
  (at level 10, x pattern, m at level 100, k at level 200, only parsing).
Notation "m ';;' k" := (bind m (λ _, k))
  (at level 100, k at level 200, right associativity, only parsing).

(** [for x in xs: acc = body x acc], the loop variables threaded as [acc]. *)
Fixpoint for_each {W A S} (xs : list A) (body : A → S → M W S) (acc : S)
  : M W S :=
  match xs with
  | [] => ret acc
  | x :: xs' => let* acc' := body x acc in for_each xs' body acc'
  end.

(** [range(start, stop)] on the naturals. *)
Definition range (start stop : nat) : list nat := seq start (stop - start).

(** [f"{i:02}"]: decimal, padded with zeros to two characters. *)
Definition str (i : nat) : string := NilZero.string_of_uint (Nat.to_uint i).

Definition format_02 (i : nat) : string :=
  let s := str i in
  if String.length s <? 2 then "0" +:+ s else s.

(** ** Strings and [os.path]

    [os.path] is modelled as [posixpath]: the separator is ["/"], which is
    the one the configured roots are written with. *)

(** [s.rpartition(c)] when [c] occurs in [s]: the text before the last
    occurrence and the text after it. *)
Fixpoint rpartition (c : ascii) (s : string) : option (string * string) :=
  match s with
  | EmptyString => None
  | String a s' =>
      match rpartition c s' with
      | Some (h, t) => Some (String a h, t)
      | None => if Ascii.eqb a c then Some (EmptyString, s') else None
      end
  end.

Fixpoint startswith (pre s : string) : bool :=
  match pre, s with
  | EmptyString, _ => true
  | String a pre', String b s' => Ascii.eqb a b && startswith pre' s'
  | String _ _, EmptyString => false
  end.

(** [s[len(pre):]] when [s.startswith(pre)]. *)
Fixpoint strip_prefix (pre s : string) : option string :=
  match pre, s with
  | EmptyString, _ => Some s
  | String a pre', String b s' =>
      if Ascii.eqb a b then strip_prefix pre' s' else None
  | String _ _, EmptyString => None
  end.

Fixpoint endswith_char (c : ascii) (s : string) : bool :=
  match s with
  | EmptyString => false
  | String a EmptyString => Ascii.eqb a c
  | String _ s' => endswith_char c s'
  end.

Fixpoint all_char (c : ascii) (s : string) : bool :=
  match s with
  | EmptyString => true
  | String a s' => Ascii.eqb a c && all_char c s'
  end.

Fixpoint contains_char (c : ascii) (s : string) : bool :=
  match s with
  | EmptyString => false
  | String a s' => Ascii.eqb a c || contains_char c s'
  end.

(** [s.rstrip(c)]. *)
Fixpoint rstrip (c : ascii) (s : string) : string :=
  match s with
  | EmptyString => EmptyString
  | String a s' =>
      match rstrip c s' with
      | EmptyString => if Ascii.eqb a c then EmptyString else String a EmptyString
      | r => String a r
      end
  end.

Definition sep : ascii := "/"%char.

(** What [os.path.join(a, b)] puts in front of a relative [b]. *)
Definition dir_prefix (a : string) : string :=
  if String.eqb a "" || endswith_char sep a then a else a +:+ "/".

Definition os_path_join (a b : string) : string :=
  if startswith "/" b then b else dir_prefix a +:+ b.

Definition os_path_split (p : string) : string * string :=
  match rpartition sep p with
  | None => ("", p)
  | Some (h, tail) =>
      let head := h +:+ "/" in
      (if all_char sep head then head else rstrip sep head, tail)
  end.

Definition os_path_basename (p : string) : string :=
  match rpartition sep p with
  | None => p
  | Some (_, tail) => tail
  end.

(** [os.path.splitext]: the extension starts at the last dot of the last
    component, unless only dots come before it in that component. *)
Definition os_path_splitext (p : string) : string * string :=
  let '(head, name) :=
    match rpartition sep p with
    | None => ("", p)
    | Some (h, tail) => (h +:+ "/", tail)
    end in
  match rpartition "."%char name with
  | None => (p, "")
  | Some (stem, ext) =>
      if all_char "."%char stem then (p, "")
      else (head +:+ stem, "." +:+ ext)
  end.

(** ** The file store

    What [os.path.exists], [os.listdir], [glob.glob], [os.makedirs] and
    [os.remove] see and change: a finite map from path strings to nodes.
    Paths are compared as strings, as the scripts build them. *)
Inductive node : Type :=
  | Dir
  | File (data : list Byte.byte).

Definition fs_exists (fs : gmap string node) (p : string) : bool :=
  bool_decide (is_Some (fs !! p)).

Definition fs_isdir (fs : gmap string node) (p : string) : bool :=
  match fs !! p with Some Dir => true | _ => false end.

(** The name under which [p] is listed in directory [d], if it is: [p] is
    [os.path.join(d, name)] for a non-empty [name] without separator. *)
Definition child_name (d p : string) : option string :=
  match strip_prefix (dir_prefix d) p with
  | Some name =>
      if String.eqb name "" || contains_char sep name then None else Some name
  | None => None
  end.

(** The entries of [d], in the order the map lists its keys (the order of
    [os.listdir] is arbitrary). *)
Definition children (fs : gmap string node) (d : string) : list string :=
  omap (child_name d) (map_to_list fs).*1.

Definition fs_listdir (fs : gmap string node) (d : string)
  : result (list string) :=
  match fs !! d with
  | Some Dir => Ok (children fs d)
  | Some (File _) => Raise (NotADirectoryError d)
  | None => Raise (FileNotFoundError d)
  end.

(** [p] is a proper ancestor of [name] as [os.path.split] finds them: a
    proper prefix of [name] that ends at a separator. *)
Definition is_ancestor (p name : string) : Prop :=
  ∃ rest, name = p +:+ rest ∧ rest ≠ "" ∧
          (endswith_char sep p = true ∨ startswith "/" rest = true).

(** [os.mkdir]: the parent must be a directory (a path without parent part
    is relative to the working directory, which is one). *)
Definition fs_mkdir (name : string) (fs : gmap string node)
  : result (gmap string node) :=
  if fs_exists fs name then Raise (Exception "FileExistsError" name)
  else
    let head := (os_path_split name).1 in
    if String.eqb head "" || fs_isdir fs head then Ok (<[name := Dir]> fs)
    else if fs_exists fs head then Raise (NotADirectoryError name)
    else Raise (FileNotFoundError name).

(** [os.makedirs(name)]: the missing ancestors first, then [name].  The
    recursion is on the head of the path, which gets shorter; [fuel] bounds
    it by the length of the path. *)
Fixpoint makedirs_fuel (fuel : nat) (name : string) (fs : gmap string node)
  : result (gmap string node) :=
  let '(head, tail) := os_path_split name in
  let '(head, tail) :=
    if String.eqb tail "" then os_path_split head else (head, tail) in
  let ancestors :=
    if negb (String.eqb head "") && negb (String.eqb tail "")
       && negb (fs_exists fs head)
    then match fuel with
         | 0 => Raise (Exception "RecursionError" name)
         | S fuel' => makedirs_fuel fuel' head fs
         end
    else Ok fs in
  match ancestors with
  | Ok fs' => fs_mkdir name fs'
  | Raise e => Raise e
  end.

Definition fs_makedirs (name : string) (fs : gmap string node)
  : result (gmap string node) :=
  makedirs_fuel (String.length name) name fs.

(** [os.remove] on a path that the process may remove: a file goes, a
    directory or a missing path raises.  Failures that depend on
    permissions or on a file being in use are outside the store, and so
    outside this model. *)
Definition fs_remove (p : string) (fs : gmap string node)
  : result (gmap string node) :=
  match fs !! p with
  | Some (File _) => Ok (delete p fs)
  | Some Dir => Raise (IsADirectoryError p)
  | None => Raise (FileNotFoundError p)
  end.

(** ** [fnmatch] and [glob] *)

(** [fnmatch.fnmatchcase(name, pat)] for patterns made of literal
    characters, [*] and [?] (no bracket class). *)
Fixpoint fnmatchcase (pat : string) : string → bool :=
  match pat with
  | EmptyString => λ name, String.eqb name ""
  | String c pat' =>
      if Ascii.eqb c "*" then
        fix star (name : string) : bool :=
          fnmatchcase pat' name
          || match name with
             | EmptyString => false
             | String _ name' => star name'
             end
      else if Ascii.eqb c "?" then
        λ name, match name with
                | EmptyString => false
                | String _ name' => fnmatchcase pat' name'
                end
      else
        λ name, match name with
                | EmptyString => false
                | String d name' => Ascii.eqb c d && fnmatchcase pat' name'
                end
  end.

Definition has_magic (s : string) : bool :=
  contains_char "*" s || contains_char "?" s || contains_char "[" s.

(** [glob._glob1]: the entries of [dirname] that match [pattern]; entries
    starting with a dot are left out unless the pattern starts with one; a
    directory that cannot be listed has no entries. *)
Definition glob1 (fs : gmap string node) (dirname pattern : string)
  : list string :=
  let names :=
    match fs_listdir fs dirname with
    | Ok names => names
    | Raise _ => []
    end in
  let names :=
    if startswith "." pattern then names
    else filter (λ x, negb (startswith "." x)) names in
  filter (λ x, fnmatchcase pattern x) names.

(** [glob.glob(pathname)] for a pathname without wildcard, or with
    wildcards in the last component only, under a non-empty directory part:
    the forms the script can build.  For other pathnames the model has no
    match. *)
Definition glob_glob (fs : gmap string node) (pathname : string)
  : list string :=
  let '(dirname, basename) := os_path_split pathname in
  if negb (has_magic pathname) then
    if String.eqb basename "" then
      if fs_isdir fs dirname then [pathname] else []
    else if fs_exists fs pathname then [pathname] else []
  else if String.eqb dirname "" || has_magic dirname then []
  else os_path_join dirname <$> glob1 fs dirname basename.

(** ** The cleanup script, [remove_video_only_file.py] *)
Module RemoveVideoOnlyFile.

Definition RAVDESS_path : string := "F:/RAVDESS/".

(** What the script prints. *)
Inductive line : Type :=
  | Deleted (file : string)
  | FilesDeleted (delete_counter : nat).

Inductive event : Type :=
  | Glob (file_pattern : string)
  | Remove (file : string)
  | Print (l : line).

Record world : Type := {
  fs : gmap string node;
  trace : list event }.

Definition emit (e : event) : M world unit :=
  λ w, (Ok tt, {| fs := fs w; trace := trace w ++ [e] |}).

Definition glob (file_pattern : string) : M world (list string) :=
  emit (Glob file_pattern);; λ w, (Ok (glob_glob (fs w) file_pattern), w).

Definition os_remove (file : string) : M world unit :=
  emit (Remove file);;
  λ w, match fs_remove file (fs w) with
       | Ok fs' => (Ok tt, {| fs := fs'; trace := trace w |})
       | Raise e => (Raise e, w)
       end.

Definition print (l : line) : M world unit := emit (Print l).

(** The whole script; the value is the final [delete_counter]. *)
Definition script : M world nat :=
  let delete_counter := 0 in
  let* delete_counter :=
    for_each (range 1 25)
      (λ i delete_counter,
         let folder_name := "Actor_" +:+ format_02 i in
         let full_path := os_path_join RAVDESS_path folder_name in
         let file_pattern := os_path_join full_path "02-*.mp4" in
         let* files_to_delete := glob file_pattern in
         for_each files_to_delete
           (λ file delete_counter,
              os_remove file;;
              print (Deleted file);;
              ret (delete_counter + 1))
           delete_counter)
      delete_counter in
  print (FilesDeleted delete_counter);;
  ret delete_counter.

(** *** Vocabulary of the statements *)

(** The directory and the pattern of actor [i], and the inner loop. *)
Definition full_path (i : nat) : string :=
  os_path_join RAVDESS_path ("Actor_" +:+ format_02 i).

Definition file_pattern (i : nat) : string :=
  os_path_join (full_path i) "02-*.mp4".

Definition delete_files (files_to_delete : list string) (delete_counter : nat)
  : M world nat :=
  for_each files_to_delete
    (λ file delete_counter,
       os_remove file;;
       print (Deleted file);;
       ret (delete_counter + 1))
    delete_counter.

(** [p] is an entry of the directory of actor [i] that the pattern
    ["02-*.mp4"] selects, in the file store [fs0]. *)
Definition selected (fs0 : gmap string node) (i : nat) (p : string) : bool :=
  fs_isdir fs0 (full_path i) &&
  match child_name (full_path i) p with
  | Some name => negb (startswith "." name) && fnmatchcase "02-*.mp4" name
  | None => false
  end.

(** [p] is selected in the directory of one of the actors [acts]. *)
Definition targeted (fs0 : gmap string node) (acts : list nat) (p : string)
  : bool :=
  existsb (λ i, selected fs0 i p) acts.

(** What [glob] relies on in the pattern of actor [i]: a literal,
    non-empty directory part and the wildcard in the last component. *)
Definition path_ok (i : nat) : Prop :=
  os_path_split (file_pattern i) = (full_path i, "02-*.mp4") ∧
  has_magic (file_pattern i) = true ∧
  String.eqb (full_path i) "" = false ∧
  has_magic (full_path i) = false.

(** An actor directory holding the three files of the worked example. *)
Definition three_files (i : nat) : gmap string node :=
  {[ full_path i := Dir;
     os_path_join (full_path i) "02-a.mp4" := File [];
     os_path_join (full_path i) "01-b.mp4" := File [];
     os_path_join (full_path i) "02-c.mp4" := File [] ]}.

(** The files given to [os.remove] and the patterns given to [glob], in
    order. *)
Definition removed (es : list event) : list string :=
  omap (λ e, match e with Remove file => Some file | _ => None end) es.

Definition globbed (es : list event) : list string :=
  omap (λ e, match e with Glob pat => Some pat | _ => None end) es.

(** The files reported as deleted and the totals printed, in order. *)
Definition deleted_lines (es : list event) : list string :=
  omap (λ e, match e with Print (Deleted file) => Some file | _ => None end) es.

Definition totals (es : list event) : list nat :=
  omap (λ e, match e with Print (FilesDeleted n) => Some n | _ => None end) es.

(** What a run leaves of a store [m]: an entry is as it was, or it was a
    file that the pattern selects for one of the actors [acts] and is
    gone. *)
Definition only_targets_gone (acts : list nat) (m m' : gmap string node) : Prop :=
  ∀ p, m' !! p = m !! p
       ∨ (m' !! p = None ∧ (∃ data, m !! p = Some (File data))
          ∧ targeted m acts p = true).

End RemoveVideoOnlyFile.

(** ** The video job, [draw_AU(song).py] *)
(** The module-level configuration constants. *)
Record config : Type := {
  csv_path : string;
  video_path : string;
  start_actor_num : nat;
  end_actor_num : nat;
  isSong : bool;
  num_processes : nat;
  DPI : nat }.

Definition the_config : config := {|
  csv_path := "F:/smoothed/";
  video_path := "F:/video/ActionUnit/";
  start_actor_num := 1;
  end_actor_num := 25;
  isSong := false;
  num_processes := 10;
  DPI := 100 |}.

Inductive level : Type := INFO | WARNING.

(** The log records, one constructor per f-string of the script. *)
Inductive message : Type :=
  | ValueErrorAtFrame (frame : nat) (e : exn)
  | ErrorSummary (count : nat) (error_frames : list nat)
  | AlreadyProcessed (au_video_path : string)
  | LoadedFile (smoothed_csv_path : string)
  | GeneratingVideo
  | VideoSaved (au_video_path : string)
  | CreatedFolder (au_video_folder_path : string).

(** A small stand-in for the libraries, to run the job on: an AU vector is
    a number, plotting fails with a value error on [0] and the figure of
    any other vector is the vector itself; nothing else fails. *)
Module Sample.

Definition table : list nat := [4; 0; 6; 0; 8].

Definition read_feat (_ : gmap string node) (p : string) : result (list nat) :=
  if String.eqb p "in.csv" then Ok table
  else if String.eqb p "empty.csv" then Ok []
  else Raise (FileNotFoundError p).

Definition plot_face (aus frame : nat) : result nat :=
  match aus with
  | 0 => Raise (ValueError "AU vector out of range")
  | _ => Ok aus
  end.

(** A plotting routine that fails with an exception of another class. *)
Definition plot_face_type_error (aus frame : nat) : result nat :=
  Raise (Exception "TypeError" "unsupported operand").

Definition get_figure (ax : nat) : nat := ax.
Definition savefig (fig dpi : nat) : result nat := Ok fig.
Definition imread (buf : nat) : result nat := Ok buf.
Definition get_writer (_ : gmap string node) (_ : string) : result unit := Ok tt.
Definition append_data (_ : string) (_ : list nat) (_ : nat) : result unit :=
  Ok tt.
Definition close (_ : string) (_ : list nat) : result unit := Ok tt.

(** The configuration in song mode, on a short range around actor 18, and
    a store with one file for each of the three actors; the output folder
    of actor 19 is there already. *)
Definition song_config : config := {|
  csv_path := "F:/smoothed/";
  video_path := "F:/video/ActionUnit/";
  start_actor_num := 17;
  end_actor_num := 20;
  isSong := true;
  num_processes := 10;
  DPI := 100 |}.

Definition csv_store : gmap string node :=
  {[ "F:/smoothed/Actor_17" := Dir;
     "F:/smoothed/Actor_17/03-01-01.csv" := File [];
     "F:/smoothed/Actor_18" := Dir;
     "F:/smoothed/Actor_18/03-01-02.csv" := File [];
     "F:/smoothed/Actor_19" := Dir;
     "F:/smoothed/Actor_19/03-01-03.smooth.csv" := File [];
     "F:/video/ActionUnit/Actor_19" := Dir ]}.

(** A plotting routine with both kinds of failure: a value error on [0],
    an exception of another class on [7]. *)
Definition plot_face_mixed (aus frame : nat) : result nat :=
  match aus with
  | 0 => Raise (ValueError "AU vector out of range")
  | 7 => Raise (Exception "TypeError" "unsupported operand")
  | _ => Ok aus
  end.

Definition mixed_table : list nat := [4; 0; 7; 0; 8].

(** A writer that takes two frames and fails on the third. *)
Definition append_data_full (_ : string) (frames : list nat) (_ : nat)
  : result unit :=
  if length frames <? 2 then Ok tt
  else Raise (Exception "OSError" "No space left on device").

(** The same store once the output folder of actor 17 is there too. *)
Definition rerun_store : gmap string node :=
  <["F:/video/ActionUnit/Actor_17" := Dir]> csv_store.

(** The store of a first run: the output root is there, the output folder
    of actor 17 is not. *)
Definition fresh_store : gmap string node :=
  <["F:/video/ActionUnit" := Dir]> csv_store.

End Sample.

Section Job.

(** The values that only the libraries look into. *)
Context {au_vector axes figure png image : Type}.

(** The calls that leave the process, in the order they are made. *)
Inductive event : Type :=
  | Logged (lvl : level) (msg : message)
  | ReadFeat (path : string)
  | PlotFace (aus : au_vector) (frame : nat)
  | GetWriter (path : string)
  | AppendData (path : string) (im : image)
  | WriterClose (path : string)
  | PltClose (fig : figure)
  | Makedirs (path : string)
  | Listdir (path : string).

Record world : Type := {
  fs : gmap string node;
  trace : list event }.

(** *** The libraries

    Each is a function of its arguments (and of the file store where it
    reads files); nothing else is assumed of them. *)

(** [feat.utils.io.read_feat]: the rows of the [.aus] table of the loaded
    frame, one per video frame. *)
Variable read_feat : gmap string node → string → result (list au_vector).
(** [feat.plotting.plot_face(au=aus, muscles={'all': 'heatmap'},
    title=f'Frame {frame}')], and [ax.get_figure()]. *)
Variable plot_face : au_vector → nat → result axes.
Variable get_figure : axes → figure.
(** [fig.savefig(buf, format='png', dpi=DPI)] and [imageio.imread(buf)]. *)
Variable savefig : figure → nat → result png.
Variable imread : png → result image.
(** [imageio.get_writer], [writer.append_data], [writer.close]: whether the
    call raises, given the path and the frames the writer already holds. *)
Variable get_writer : gmap string node → string → result unit.
Variable append_data : string → list image → image → result unit.
Variable close : string → list image → result unit.
(** What a writer call leaves in the file store is the encoder's business. *)
Variable encoder : event → result unit → gmap string node → gmap string node.
(** [multiprocessing.Pool(processes=n).map(f, tasks)]. *)
Variable pool_map :
  nat → (string * string → M world unit) → list (string * string) → M world unit.

Variable cfg : config.

Definition emit (e : event) : M world unit :=
  λ w, (Ok tt, {| fs := fs w; trace := trace w ++ [e] |}).

Definition logging_info (msg : message) : M world unit := emit (Logged INFO msg).
Definition logging_warning (msg : message) : M world unit :=
  emit (Logged WARNING msg).

Definition call_plot_face (aus : au_vector) (frame : nat) : M world axes :=
  emit (PlotFace aus frame);; lift (plot_face aus frame).

(** [input_prediction.aus.iloc[frame]]. *)
Definition iloc (aus_table : list au_vector) (frame : nat) : M world au_vector :=
  match aus_table !! frame with
  | Some aus => ret aus
  | None => raise (IndexError "single positional indexer is out-of-bounds")
  end.

(** One turn of the loop of [generate_au_plot_figures]. *)
Definition plot_frame (input_prediction : list au_vector) (frame : nat)
    (acc : list figure * list nat) : M world (list figure * list nat) :=
  let '(figs, error_frames) := acc in
  try_except_ValueError
    (let* aus := iloc input_prediction frame in
     let* ax := call_plot_face aus frame in
     let fig := get_figure ax in
     ret (figs ++ [fig], error_frames))
    (λ e,
       logging_warning (ValueErrorAtFrame frame e);;
       ret (figs, error_frames ++ [frame])).

Definition generate_au_plot_figures (input_prediction : list au_vector)
  : M world (list figure * list nat) :=
  let figs := [] in
  let total_frames := length input_prediction in
  let error_frames := [] in
  let* (figs, error_frames) :=
    for_each (range 0 total_frames) (plot_frame input_prediction)
      (figs, error_frames) in
  logging_warning (ErrorSummary (length error_frames) error_frames);;
  ret (figs, error_frames).

Definition os_path_exists (p : string) : M world bool :=
  λ w, (Ok (fs_exists (fs w) p), w).

Definition call_read_feat (p : string) : M world (list au_vector) :=
  emit (ReadFeat p);; λ w, (read_feat (fs w) p, w).

(** The writer object: where it writes and the frames it has taken. *)
Record video_writer : Type := {
  w_path : string;
  w_frames : list image }.

Definition writer_call {A} (e : event) (r : result unit) (a : A) : M world A :=
  λ w, let w' := {| fs := encoder e r (fs w); trace := trace w ++ [e] |} in
       match r with
       | Ok _ => (Ok a, w')
       | Raise x => (Raise x, w')
       end.

(** [imageio.get_writer(au_video_path, fps=30, codec='libx264',
    format='FFMPEG', macro_block_size=None)]. *)
Definition imageio_get_writer (p : string) : M world video_writer :=
  λ w, writer_call (GetWriter p) (get_writer (fs w) p)
         {| w_path := p; w_frames := [] |} w.

Definition writer_append_data (wr : video_writer) (im : image) : M world video_writer :=
  writer_call (AppendData (w_path wr) im)
    (append_data (w_path wr) (w_frames wr) im)
    {| w_path := w_path wr; w_frames := w_frames wr ++ [im] |}.

Definition writer_close (wr : video_writer) : M world unit :=
  writer_call (WriterClose (w_path wr)) (close (w_path wr) (w_frames wr)) tt.

Definition plt_close (fig : figure) : M world unit := emit (PltClose fig).

(** One turn of the loop over [figs]: rasterise, append, release. *)
Definition write_frame (fig : figure) (writer : video_writer) : M world video_writer :=
  let* buf := lift (savefig fig (DPI cfg)) in
  let* image := lift (imread buf) in
  let* writer := writer_append_data writer image in
  plt_close fig;;
  ret writer.

Definition generate_au_video_from_csv (args : string * string) : M world unit :=
  let '(smoothed_csv_path, au_video_path) := args in
  let* already := os_path_exists au_video_path in
  if already : bool then
    logging_info (AlreadyProcessed au_video_path);;
    ret tt
  else
    let* video_prediction := call_read_feat smoothed_csv_path in
    logging_info (LoadedFile smoothed_csv_path);;
    let* (figs, _) := generate_au_plot_figures video_prediction in
    let* writer := imageio_get_writer au_video_path in
    logging_info GeneratingVideo;;
    let* writer := for_each figs write_frame writer in
    writer_close writer;;
    logging_info (VideoSaved au_video_path).

Definition os_makedirs (p : string) : M world unit :=
  λ w, match fs_makedirs p (fs w) with
       | Ok fs' => (Ok tt, {| fs := fs'; trace := trace w ++ [Makedirs p] |})
       | Raise e => (Raise e, {| fs := fs w; trace := trace w ++ [Makedirs p] |})
       end.

Definition os_listdir (p : string) : M world (list string) :=
  emit (Listdir p);; λ w, (fs_listdir (fs w) p, w).

(** The body of the loop of [main] for one actor index that is not
    skipped. *)
Definition actor_tasks (i : nat) (tasks : list (string * string))
  : M world (list (string * string)) :=
  let folder_name := "Actor_" +:+ format_02 i in
  let smoothed_csv_folder_path := os_path_join (csv_path cfg) folder_name in
  let au_video_folder_path := os_path_join (video_path cfg) folder_name in
  let* present := os_path_exists au_video_folder_path in
  (if negb present then
     os_makedirs au_video_folder_path;;
     logging_info (CreatedFolder au_video_folder_path)
   else ret tt);;
  let* names := os_listdir smoothed_csv_folder_path in
  for_each names
    (λ file_name tasks,
       let smoothed_csv_path :=
         os_path_join smoothed_csv_folder_path file_name in
       let video_basename :=
         (os_path_splitext (os_path_basename smoothed_csv_path)).1 in
       let au_video_path :=
         os_path_join au_video_folder_path (video_basename +:+ ".mp4") in
       ret (tasks ++ [(smoothed_csv_path, au_video_path)]))
    tasks.

(** The task enumeration of [main]: everything before the pool. *)
Definition main_tasks : M world (list (string * string)) :=
  let tasks := [] in
  for_each (range (start_actor_num cfg) (end_actor_num cfg))
    (λ i tasks,
       if (i =? 18) && isSong cfg then ret tasks
       else actor_tasks i tasks)
    tasks.

Definition main : M world unit :=
  let* tasks := main_tasks in
  pool_map (num_processes cfg) generate_au_video_from_csv tasks.

(** *** Vocabulary of the statements *)

(** The world after the calls [es]. *)
Definition after (w : world) (es : list event) : world :=
  {| fs := fs w; trace := trace w ++ es |}.

(** What plotting does at frame [k] of the table [input]. *)
Definition renders_at (input : list au_vector) (k : nat) : Prop :=
  ∃ aus ax, input !! k = Some aus ∧ plot_face aus k = Ok ax.

Definition value_error_at (input : list au_vector) (k : nat) : Prop :=
  ∃ aus msg, input !! k = Some aus ∧ plot_face aus k = Raise (ValueError msg).

(** The figure of frame [k], when plotting succeeds there. *)
Definition rendered (input : list au_vector) (k : nat) : option figure :=
  match input !! k with
  | Some aus =>
      match plot_face aus k with
      | Ok ax => Some (get_figure ax)
      | Raise _ => None
      end
  | None => None
  end.

(** Frame [k] raises an exception that [except ValueError] catches. *)
Definition is_error_frame (input : list au_vector) (k : nat) : bool :=
  match input !! k with
  | Some aus =>
      match plot_face aus k with
      | Ok _ => false
      | Raise e => is_ValueError e
      end
  | None => false
  end.

(** The exception that leaves the loop at frame [k], if one does. *)
Definition fatal_at (input : list au_vector) (k : nat) : option exn :=
  match input !! k with
  | Some aus =>
      match plot_face aus k with
      | Ok _ => None
      | Raise e => if is_ValueError e then None else Some e
      end
  | None => Some (IndexError "single positional indexer is out-of-bounds")
  end.

(** The calls made for frame [k]. *)
Definition frame_events (input : list au_vector) (k : nat) : list event :=
  match input !! k with
  | Some aus =>
      PlotFace aus k ::
      match plot_face aus k with
      | Ok _ => []
      | Raise e =>
          if is_ValueError e then [Logged WARNING (ValueErrorAtFrame k e)]
          else []
      end
  | None => []
  end.

(** [fig.savefig] then [imageio.imread]: the picture of a figure. *)
Definition raster (fig : figure) : result image :=
  match savefig fig (DPI cfg) with
  | Ok buf => imread buf
  | Raise e => Raise e
  end.

(** The frames handed to [append_data] among the calls [es], in order. *)
Definition appended (es : list event) : list (string * image) :=
  omap (λ e, match e with AppendData p im => Some (p, im) | _ => None end) es.

(** The frames for which a value-error warning is logged among [es]. *)
Definition warned_frames (es : list event) : list nat :=
  omap (λ e, match e with
             | Logged WARNING (ValueErrorAtFrame k _) => Some k
             | _ => None
             end) es.

(** The writer [wr] holding [frames]. *)
Definition with_frames (wr : video_writer) (frames : list image) : video_writer :=
  {| w_path := w_path wr; w_frames := frames |}.

(** The frames a writer at [p] holds after the loop over [figs], or the
    exception of the first call of the loop that raises. *)
Fixpoint written_frames (p : string) (frames : list image)
    (figs : list figure) : result (list image) :=
  match figs with
  | [] => Ok frames
  | fig :: figs' =>
      match raster fig with
      | Raise e => Raise e
      | Ok im =>
          match append_data p frames im with
          | Raise e => Raise e
          | Ok _ => written_frames p (frames ++ [im]) figs'
          end
      end
  end.

(** The outcome of the calls of the write stage: open, the loop, close. *)
Definition write_stage (fs0 : gmap string node) (p : string)
    (figs : list figure) : result unit :=
  match get_writer fs0 p with
  | Raise e => Raise e
  | Ok _ =>
      match written_frames p [] figs with
      | Raise e => Raise e
      | Ok frames => close p frames
      end
  end.

(** Which stage of a task an exception [e] comes from.  A stage runs only
    if the output is missing and the stages before it went through. *)
Definition load_raises (args : string * string) (w : world) (e : exn) : Prop :=
  fs_exists (fs w) args.2 = false ∧ read_feat (fs w) args.1 = Raise e.

Definition plot_raises (args : string * string) (w : world) (e : exn) : Prop :=
  fs_exists (fs w) args.2 = false ∧
  ∃ rows k aus,
    read_feat (fs w) args.1 = Ok rows ∧
    rows !! k = Some aus ∧ plot_face aus k = Raise e ∧
    is_ValueError e = false ∧
    ∀ j, j < k → fatal_at rows j = None.

Definition writer_raises (args : string * string) (w : world) (e : exn) : Prop :=
  fs_exists (fs w) args.2 = false ∧
  ∃ rows,
    read_feat (fs w) args.1 = Ok rows ∧
    (∀ k, k < length rows → fatal_at rows k = None) ∧
    write_stage (fs w) args.2
      (omap (rendered rows) (seq 0 (length rows))) = Raise e.

(** The folders of actor [i], and the task of one listed file. *)
Definition smoothed_csv_folder_path (i : nat) : string :=
  os_path_join (csv_path cfg) ("Actor_" +:+ format_02 i).

Definition au_video_folder_path (i : nat) : string :=
  os_path_join (video_path cfg) ("Actor_" +:+ format_02 i).

Definition task_of (i : nat) (file_name : string) : string * string :=
  let smoothed_csv_path := os_path_join (smoothed_csv_folder_path i) file_name in
  (smoothed_csv_path,
   os_path_join (au_video_folder_path i)
     ((os_path_splitext (os_path_basename smoothed_csv_path)).1 +:+ ".mp4")).

(** The actor indices whose turn of the loop of [main] is not skipped. *)
Definition processed_actors : list nat :=
  filter (λ i, ¬ (i = 18 ∧ isSong cfg = true))
    (range (start_actor_num cfg) (end_actor_num cfg)).

(** The reading under which a task raises exactly when its load stage or
    its writer stage does. *)
Definition raises_iff_load_or_writer (args : string * string) (w : world)
  : Prop :=
  ∀ e, (generate_au_video_from_csv args w).1 = Raise e ↔
       load_raises args w e ∨ writer_raises args w e.

(** The same task submitted [n] times in a row. *)
Fixpoint rerun (n : nat) (args : string * string) : M world unit :=
  match n with
  | 0 => ret tt
  | S n' => generate_au_video_from_csv args;; rerun n' args
  end.

(** The directories given to [os.listdir] among the calls [es], in
    order. *)
Definition listed (es : list event) : list string :=
  omap (λ e, match e with Listdir p => Some p | _ => None end) es.

(** The rows handed to [plot_face] among the calls [es], each with the
    frame number of its title, in order. *)
Definition plotted (es : list event) : list (au_vector * nat) :=
  omap (λ e, match e with PlotFace aus k => Some (aus, k) | _ => None end) es.

(** The error summaries logged among [es]: the count and the list. *)
Definition summaries (es : list event) : list (nat * list nat) :=
  omap (λ e, match e with
             | Logged WARNING (ErrorSummary n l) => Some (n, l)
             | _ => None
             end) es.

(** The writers opened and closed and the figures released among [es]. *)
Definition opened (es : list event) : list string :=
  omap (λ e, match e with GetWriter p => Some p | _ => None end) es.

Definition closed (es : list event) : list string :=
  omap (λ e, match e with WriterClose p => Some p | _ => None end) es.

Definition released (es : list event) : list figure :=
  omap (λ e, match e with PltClose fig => Some fig | _ => None end) es.

(** The calls of the loop over [figs] on a writer at [p] holding
    [frames], up to the first one that raises. *)
Fixpoint write_events (p : string) (frames : list image)
    (figs : list figure) : list event :=
  match figs with
  | [] => []
  | fig :: figs' =>
      match raster fig with
      | Raise _ => []
      | Ok im =>
          AppendData p im ::
          match append_data p frames im with
          | Raise _ => []
          | Ok _ => PltClose fig :: write_events p (frames ++ [im]) figs'
          end
      end
  end.

(** The FFMPEG writer of [imageio] starts the encoder with the first
    frame: the output file appears at the first [append_data] that goes
    through, and opening or closing a writer writes nothing by itself.
    The bytes of the file are the encoder's; the model keeps none. *)
Definition lazy_encoder (e : event) (r : result unit) (m : gmap string node)
  : gmap string node :=
  match e, r with
  | AppendData p _, Ok _ => <[p := File []]> m
  | _, _ => m
  end.

(** The reading under which a task on a table without rows leaves a video:
    the task returns and its output path exists afterwards. *)
Definition empty_table_leaves_video (args : string * string) (w : world)
  : Prop :=
  is_Ok (generate_au_video_from_csv args w).1 = true ∧
  fs_exists (fs (generate_au_video_from_csv args w).2) args.2 = true.

(** Lists of calls up to the bracketing of [++]. *)
Ltac app_norm :=
  rewrite ?app_nil_r; repeat (rewrite <- !app_assoc; cbn [app]).

(** *** The loop of [generate_au_plot_figures] *)

Lemma after_after w es1 es2 : after (after w es1) es2 = after w (es1 ++ es2).
Proof. unfold after; simpl. by rewrite app_assoc. Qed.

Lemma after_nil w : after w [] = w.
Proof. destruct w; unfold after; simpl. by rewrite app_nil_r. Qed.

Lemma plot_frame_step input k figs errs w :
  plot_frame input k (figs, errs) w =
    match fatal_at input k with
    | Some e => (Raise e, after w (frame_events input k))
    | None =>
        (Ok (figs ++ option_list (rendered input k),
             errs ++ (if is_error_frame input k then [k] else [])),
         after w (frame_events input k))
    end.
Proof.
  unfold plot_frame, fatal_at, rendered, is_error_frame, frame_events,
    try_except_ValueError, iloc, call_plot_face, bind, emit, lift, after.
  destruct (input !! k) as [aus|]; simpl.
  - destruct (plot_face aus k) as [ax|e]; simpl.
    { by rewrite app_nil_r. }
    destruct (is_ValueError e); simpl; [|done].
    by rewrite <- app_assoc, app_nil_r.
  - unfold raise. destruct w; simpl. by rewrite app_nil_r.
Qed.

Lemma plot_frames_run input ks figs errs w :
  Forall (λ k, fatal_at input k = None) ks →
  for_each ks (plot_frame input) (figs, errs) w =
    (Ok (figs ++ omap (rendered input) ks,
         errs ++ filter (λ k, is_error_frame input k) ks),
     after w (ks ≫= frame_events input)).
Proof.
  intros Hks. revert figs errs w.
  induction Hks as [|k ks Hk _ IH]; intros figs errs w; cbn [for_each].
  - unfold ret. by rewrite !app_nil_r, after_nil.
  - unfold bind at 1. rewrite plot_frame_step, Hk, IH, after_after.
    rewrite <- !app_assoc, filter_cons. cbn [omap list_omap mbind list_bind].
    by destruct (rendered input k), (is_error_frame input k).
Qed.

Lemma plot_frames_fatal input pre k post e figs errs w :
  Forall (λ k, fatal_at input k = None) pre →
  fatal_at input k = Some e →
  for_each (pre ++ k :: post) (plot_frame input) (figs, errs) w =
    (Raise e, after w ((pre ++ [k]) ≫= frame_events input)).
Proof.
  intros Hpre Hk. revert figs errs w.
  induction Hpre as [|j pre Hj _ IH]; intros figs errs w;
    cbn [for_each app].
  - unfold bind at 1. rewrite plot_frame_step, Hk. cbn. by rewrite app_nil_r.
  - unfold bind at 1. by rewrite plot_frame_step, Hj, IH, after_after.
Qed.

Lemma range_0 n : range 0 n = seq 0 n.
Proof. unfold range. by rewrite Nat.sub_0_r. Qed.

Lemma StronglySorted_lt_seq a n : StronglySorted lt (seq a n).
Proof.
  revert a. induction n as [|n IH]; intros a; simpl; constructor; [done|].
  apply Forall_seq. lia.
Qed.

Lemma StronglySorted_filter {A} (R : relation A) (P : A → Prop)
    `{!∀ x, Decision (P x)} (l : list A) :
  StronglySorted R l → StronglySorted R (filter P l).
Proof.
  induction 1 as [|x l _ IH Hx]; [constructor|].
  rewrite filter_cons. destruct (decide (P x)); [|done].
  constructor; [done|].
  apply Forall_forall. intros y [_ Hy]%list_elem_of_filter.
  by eapply Forall_forall in Hx.
Qed.

(** Away from fatal frames a frame is rendered or is an error frame, never
    both. *)
Lemma rendered_or_error input k :
  fatal_at input k = None →
  (is_Some (rendered input k) ∧ is_error_frame input k = false)
  ∨ (rendered input k = None ∧ is_error_frame input k = true).
Proof.
  unfold fatal_at, rendered, is_error_frame.
  destruct (input !! k) as [aus|]; [|done].
  destruct (plot_face aus k) as [ax|e]; [by left; eauto|].
  destruct (is_ValueError e); [by right|done].
Qed.

Lemma rendered_error_length input ks :
  Forall (λ k, fatal_at input k = None) ks →
  length (omap (rendered input) ks)
  + length (filter (λ k, is_error_frame input k) ks) = length ks.
Proof.
  induction 1 as [|k ks Hk _ IH]; [done|].
  rewrite filter_cons. cbn [omap list_omap].
  destruct (rendered_or_error _ _ Hk) as [[[fig ->] ->]|[-> ->]]; simpl; lia.
Qed.

Lemma generate_au_plot_figures_run input w :
  Forall (λ k, fatal_at input k = None) (seq 0 (length input)) →
  generate_au_plot_figures input w =
    (Ok (omap (rendered input) (seq 0 (length input)),
         filter (λ k, is_error_frame input k) (seq 0 (length input))),
     after w ((seq 0 (length input) ≫= frame_events input)
              ++ [Logged WARNING
                    (ErrorSummary
                       (length (filter (λ k, is_error_frame input k)
                                  (seq 0 (length input))))
                       (filter (λ k, is_error_frame input k)
                          (seq 0 (length input))))])).
Proof.
  intros Hok. unfold generate_au_plot_figures.
  unfold bind at 1. rewrite range_0, (plot_frames_run _ _ _ _ _ Hok).
  cbn. unfold bind, logging_warning, emit, ret, after. cbn.
  by rewrite <- app_assoc.
Qed.

Lemma only_value_errors_no_fatal input :
  (∀ k aus e,
     input !! k = Some aus → plot_face aus k = Raise e →
     is_ValueError e = true) →
  Forall (λ k, fatal_at input k = None) (seq 0 (length input)).
Proof.
  intros Hve. apply Forall_seq. intros k [_ Hk]. unfold fatal_at.
  destruct (lookup_lt_is_Some_2 input k Hk) as [aus Haus]. rewrite Haus.
  destruct (plot_face aus k) as [ax|e] eqn:Hp; [done|].
  by rewrite (Hve _ _ _ Haus Hp).
Qed.

(** C9.  Whenever plotting raises nothing but value errors, the call of
    [generate_au_plot_figures] returns, and every frame index of the input
    is accounted for exactly once: the number of figures plus the number of
    error frames is the number of rows, each index below it either has its
    figure in [figs] or is listed in [error_frames], and [error_frames] is
    strictly increasing without duplicates. *)
Theorem generate_au_plot_figures_partition input w :
  (∀ k aus e,
     input !! k = Some aus → plot_face aus k = Raise e →
     is_ValueError e = true) →
  ∃ figs error_frames w',
    generate_au_plot_figures input w = (Ok (figs, error_frames), w') ∧
    length figs + length error_frames = length input ∧
    StronglySorted lt error_frames ∧
    NoDup error_frames ∧
    figs = omap (rendered input) (seq 0 (length input)) ∧
    ∀ k, k < length input →
      (is_Some (rendered input k) ∧ k ∉ error_frames)
      ∨ (rendered input k = None ∧ k ∈ error_frames).
Proof.
  intros Hve. pose proof (only_value_errors_no_fatal _ Hve) as Hok.
  eexists _, _, _. split; [by apply generate_au_plot_figures_run|].
  split; [|split; [|split; [|split; [done|]]]].
  - by rewrite rendered_error_length, length_seq.
  - apply StronglySorted_filter, StronglySorted_lt_seq.
  - apply NoDup_filter, NoDup_seq.
  - intros k Hk. rewrite list_elem_of_filter, elem_of_seq.
    rewrite Forall_seq in Hok.
    destruct (rendered_or_error input k) as [[? He]|[? He]];
      [apply Hok; lia| |]; rewrite He; [left|right]; split; try done.
    + intros [[] _].
    + split; [done|lia].
Qed.

Lemma value_error_at_error_frame input k :
  value_error_at input k → is_error_frame input k = true.
Proof.
  intros (aus & msg & Haus & Hp). unfold is_error_frame. by rewrite Haus, Hp.
Qed.

Lemma renders_at_error_frame input k :
  renders_at input k → is_error_frame input k = false.
Proof.
  intros (aus & ax & Haus & Hp). unfold is_error_frame. by rewrite Haus, Hp.
Qed.

Lemma value_error_at_lt input k : value_error_at input k → k < length input.
Proof. intros (aus & msg & Haus & _). by eapply lookup_lt_Some. Qed.

Lemma warned_frames_events input ks :
  warned_frames (ks ≫= frame_events input)
  = filter (λ k, is_error_frame input k) ks.
Proof.
  unfold warned_frames.
  induction ks as [|k ks IH]; [done|].
  rewrite filter_cons. cbn [mbind list_bind]. rewrite omap_app, IH.
  unfold frame_events, is_error_frame.
  destruct (input !! k) as [aus|]; [|done].
  destruct (plot_face aus k) as [ax|e]; [done|].
  by destruct (is_ValueError e).
Qed.

Lemma sorted_pair_unique (l : list nat) i j :
  i ≠ j → StronglySorted lt l → NoDup l → (∀ k, k ∈ l ↔ k = i ∨ k = j) →
  l = [i `min` j; i `max` j].
Proof.
  intros Hij Hs Hnd Hl.
  apply (StronglySorted_unique_strong lt); [lia|done| |].
  - apply StronglySorted_cons. split; [|by repeat constructor].
    repeat constructor. lia.
  - apply NoDup_Permutation; [done| |].
    + apply NoDup_cons. split; [|apply NoDup_singleton].
      rewrite list_elem_of_singleton. lia.
    + intros k. rewrite Hl, !elem_of_cons, elem_of_nil. lia.
Qed.

(** Value errors at two frames and success elsewhere: nothing leaves the
    loop, and the two frames are the error frames. *)
Lemma two_errors_frames input i j :
  i ≠ j →
  value_error_at input i →
  value_error_at input j →
  (∀ k, k < length input → k ≠ i → k ≠ j → renders_at input k) →
  Forall (λ k, fatal_at input k = None) (seq 0 (length input)) ∧
  filter (λ k, is_error_frame input k) (seq 0 (length input))
    = [i `min` j; i `max` j].
Proof.
  intros Hij Hi Hj Hrest.
  assert (∀ k, k < length input →
            is_error_frame input k = true ↔ k = i ∨ k = j) as Herr.
  { intros k Hk. split.
    - intros He. destruct (decide (k = i)) as [|Hki]; [by left|].
      destruct (decide (k = j)) as [|Hkj]; [by right|].
      by rewrite (renders_at_error_frame _ _ (Hrest k Hk Hki Hkj)) in He.
    - intros [->| ->]; by apply value_error_at_error_frame. }
  split.
  - apply only_value_errors_no_fatal. intros k aus e Haus Hp.
    pose proof (lookup_lt_Some _ _ _ Haus) as Hk.
    destruct (decide (k = i ∨ k = j)) as [Hk'|Hk'].
    + apply Herr in Hk'; [|done]. unfold is_error_frame in Hk'.
      by rewrite Haus, Hp in Hk'.
    + destruct (Hrest k) as (aus' & ax & Haus' & Hp');
        [done|intros ->; apply Hk'; by left|intros ->; apply Hk'; by right|].
      congruence.
  - apply sorted_pair_unique; [done|..].
    + apply StronglySorted_filter, StronglySorted_lt_seq.
    + apply NoDup_filter, NoDup_seq.
    + intros k. rewrite list_elem_of_filter, elem_of_seq. split.
      * intros [He ?]. apply Herr; [lia|]. by destruct (is_error_frame input k).
      * intros Hk.
        assert (k < length input)
          by (destruct Hk as [-> | ->]; by apply value_error_at_lt).
        split; [|lia]. apply Herr in Hk; [|done]. by rewrite Hk.
Qed.

(** *** The write loop *)

Lemma write_frame_step fig wr w :
  write_frame fig wr w =
    match raster fig with
    | Raise e => (Raise e, w)
    | Ok im =>
        let call := AppendData (w_path wr) im in
        let r := append_data (w_path wr) (w_frames wr) im in
        match r with
        | Ok _ =>
            (Ok (with_frames wr (w_frames wr ++ [im])),
             {| fs := encoder call r (fs w);
                trace := trace w ++ [call; PltClose fig] |})
        | Raise e =>
            (Raise e,
             {| fs := encoder call r (fs w); trace := trace w ++ [call] |})
        end
    end.
Proof.
  unfold write_frame, raster, bind, lift, writer_append_data, writer_call,
    plt_close, emit, ret, with_frames.
  destruct (savefig fig (DPI cfg)) as [buf|e]; [|done].
  destruct (imread buf) as [im|e]; [|done]. cbn.
  destruct (append_data (w_path wr) (w_frames wr) im) as [[]|e]; cbn; [|done].
  by rewrite <- app_assoc.
Qed.

Lemma write_frames_inv figs wr w r w' :
  for_each figs write_frame wr w = (r, w') →
  ∃ ims es,
    trace w' = trace w ++ es ∧
    appended es = (w_path wr ,.) <$> ims ∧
    Forall2 (λ fig im, raster fig = Ok im) (take (length ims) figs) ims ∧
    match r with
    | Ok wr' =>
        length ims = length figs ∧
        wr' = with_frames wr (w_frames wr ++ ims) ∧
        written_frames (w_path wr) (w_frames wr) figs
          = Ok (w_frames wr ++ ims)
    | Raise e => written_frames (w_path wr) (w_frames wr) figs = Raise e
    end.
Proof.
  revert wr w. induction figs as [|fig figs IH]; intros wr w; cbn [for_each].
  - intros [= <- <-]. exists [], []. rewrite !app_nil_r.
    repeat split; try done. by destruct wr.
  - unfold bind at 1. rewrite write_frame_step. cbn [written_frames].
    destruct (raster fig) as [im|e] eqn:Hr.
    2:{ intros [= <- <-]. exists [], []. by rewrite app_nil_r. }
    cbn zeta.
    destruct (append_data (w_path wr) (w_frames wr) im) as [[]|e] eqn:Ha.
    2:{ intros [= <- <-]. exists [im], [AppendData (w_path wr) im].
        repeat split; try done. cbn. by constructor. }
    intros Hrun. apply IH in Hrun as (ims & es & Htr & Hap & Hims & Hres).
    cbn in Htr, Hap, Hres.
    exists (im :: ims), (AppendData (w_path wr) im :: PltClose fig :: es).
    split; [by rewrite Htr, <- app_assoc|].
    split; [unfold appended in Hap |- *; cbn; by rewrite Hap|].
    split; [cbn; by constructor|].
    destruct r as [wr'|e].
    + destruct Hres as (Hlen & -> & Hw). rewrite <- !app_assoc in *.
      repeat split; [cbn; by rewrite Hlen|done..].
    + done.
Qed.

(** *** The task, stage by stage *)

Lemma bind_emit {A} e (k : unit → M world A) w :
  bind (emit e) k w = k tt (after w [e]).
Proof. done. Qed.

Lemma appended_frame_events input ks :
  appended (ks ≫= frame_events input) = [].
Proof.
  unfold appended. induction ks as [|k ks IH]; [done|].
  cbn [mbind list_bind]. rewrite omap_app, IH, app_nil_r.
  unfold frame_events. destruct (input !! k) as [aus|]; [|done].
  destruct (plot_face aus k) as [ax|e]; [done|].
  by destruct (is_ValueError e).
Qed.

Lemma task_skip csv out w :
  fs_exists (fs w) out = true →
  generate_au_video_from_csv (csv, out) w
    = (Ok tt, after w [Logged INFO (AlreadyProcessed out)]).
Proof.
  intros Hex. unfold generate_au_video_from_csv, os_path_exists.
  unfold bind at 1. by rewrite Hex.
Qed.

Lemma task_load_fails csv out e w :
  fs_exists (fs w) out = false →
  read_feat (fs w) csv = Raise e →
  generate_au_video_from_csv (csv, out) w = (Raise e, after w [ReadFeat csv]).
Proof.
  intros Hex Hrd. unfold generate_au_video_from_csv, os_path_exists.
  unfold bind at 1. rewrite Hex. unfold call_read_feat.
  unfold bind at 1. rewrite bind_emit. cbn [fs after]. by rewrite Hrd.
Qed.

Lemma task_plot_fails csv out rows k e w :
  fs_exists (fs w) out = false →
  read_feat (fs w) csv = Ok rows →
  k < length rows →
  fatal_at rows k = Some e →
  (∀ j, j < k → fatal_at rows j = None) →
  generate_au_video_from_csv (csv, out) w
    = (Raise e,
       after w (ReadFeat csv :: Logged INFO (LoadedFile csv)
                :: (seq 0 k ++ [k]) ≫= frame_events rows)).
Proof.
  intros Hex Hrd Hk He Hbefore.
  unfold generate_au_video_from_csv, os_path_exists.
  unfold bind at 1. rewrite Hex. unfold call_read_feat.
  unfold bind at 1. rewrite bind_emit. cbn [fs after]. rewrite Hrd.
  unfold logging_info. rewrite bind_emit.
  unfold bind at 1. unfold generate_au_plot_figures. unfold bind at 1.
  rewrite range_0.
  assert (seq 0 (length rows)
          = seq 0 k ++ k :: seq (S k) (length rows - S k)) as ->.
  { replace (length rows) with (k + S (length rows - S k)) at 1 by lia.
    by rewrite seq_app. }
  rewrite (plot_frames_fatal _ _ _ _ e); [|apply Forall_seq; auto with lia|done].
  by rewrite !after_after.
Qed.

Lemma first_fatal rows n :
  (∀ k, k < n → fatal_at rows k = None)
  ∨ ∃ k e, k < n ∧ fatal_at rows k = Some e ∧
           ∀ j, j < k → fatal_at rows j = None.
Proof.
  induction n as [|n [IH|(k & e & Hk & He & Hb)]].
  - left. lia.
  - destruct (fatal_at rows n) as [e|] eqn:He.
    + right. exists n, e. auto.
    + left. intros k Hk. destruct (decide (k = n)) as [->|]; [done|].
      apply IH. lia.
  - right. exists k, e. auto.
Qed.

Lemma task_write_inv csv out rows w r w' :
  fs_exists (fs w) out = false →
  read_feat (fs w) csv = Ok rows →
  Forall (λ k, fatal_at rows k = None) (seq 0 (length rows)) →
  generate_au_video_from_csv (csv, out) w = (r, w') →
  let figs := omap (rendered rows) (seq 0 (length rows)) in
  ∃ ims es,
    trace w' = trace w ++ es ∧
    appended es = (out ,.) <$> ims ∧
    Forall2 (λ fig im, raster fig = Ok im) (take (length ims) figs) ims ∧
    (r = Ok tt → length ims = length figs) ∧
    r = write_stage (fs w) out figs.
Proof.
  intros Hex Hrd Hok.
  unfold generate_au_video_from_csv, os_path_exists.
  unfold bind at 1. rewrite Hex. unfold call_read_feat.
  unfold bind at 1. rewrite bind_emit. cbn [fs after]. rewrite Hrd.
  unfold logging_info. rewrite bind_emit.
  unfold bind at 1. rewrite (generate_au_plot_figures_run _ _ Hok).
  rewrite !after_after.
  set (es0 := _ ++ _ ++ _). set (figs := omap _ _).
  assert (appended es0 = []) as Hes0.
  { unfold es0, appended. rewrite !omap_app.
    fold (appended (seq 0 (length rows) ≫= frame_events rows)).
    by rewrite appended_frame_events. }
  unfold bind at 1. unfold imageio_get_writer, writer_call, write_stage.
  cbn [fs after trace].
  destruct (get_writer (fs w) out) as [[]|e] eqn:Hgw.
  2:{ intros [= <- <-]. exists [], (es0 ++ [GetWriter out]).
      cbn [trace length take fmap list_fmap].
      split; [by rewrite <- !app_assoc|].
      split; [|done].
      unfold appended in *. by rewrite omap_app, Hes0. }
  rewrite bind_emit. unfold bind at 1.
  destruct (for_each figs write_frame _ _) as [r1 w1] eqn:Hloop.
  apply write_frames_inv in Hloop as (ims & es & Htr & Hap & Hims & Hres).
  cbn [w_path w_frames trace after app] in Htr, Hap, Hres.
  destruct r1 as [wr'|e].
  2:{ intros [= <- <-]. rewrite Hres. exists ims, (es0 ++ GetWriter out ::
        Logged INFO GeneratingVideo :: es).
      split; [rewrite Htr; by rewrite <- !app_assoc|].
      split; [|done].
      unfold appended in *. by rewrite omap_app, Hes0. }
  destruct Hres as (Hlen & -> & ->).
  unfold bind at 1. unfold writer_close, writer_call, with_frames.
  cbn [w_path w_frames app].
  destruct (close out ims) as [[]|e] eqn:Hcl.
  - unfold emit. intros [= <- <-].
    exists ims, (es0 ++ GetWriter out :: Logged INFO GeneratingVideo :: es
                 ++ [WriterClose out; Logged INFO (VideoSaved out)]).
    cbn [trace after]. rewrite Htr.
    split; [by rewrite <- !app_assoc|].
    split; [|done].
    unfold appended in *. rewrite !omap_app, Hes0. cbn. rewrite omap_app, Hap.
    by rewrite app_nil_r.
  - intros [= <- <-].
    exists ims, (es0 ++ GetWriter out :: Logged INFO GeneratingVideo :: es
                 ++ [WriterClose out]).
    cbn [trace]. rewrite Htr.
    split; [by rewrite <- !app_assoc|].
    split; [|done].
    unfold appended in *. rewrite !omap_app, Hes0. cbn. rewrite omap_app, Hap.
    by rewrite app_nil_r.
Qed.

(** *** The claims on [generate_au_video_from_csv] *)

(** C2.  When plotting raises a value error at the two frames [i] and [j]
    and succeeds at every other frame, [generate_au_plot_figures] returns
    (no exception leaves it): there are [N - 2] figures, the error list is
    exactly [i] and [j] in ascending order, the value-error warnings logged
    are those of the two frames, and the summary warning that ends the call
    reports the two of them.  A task on such a table, with a load and a
    write stage that go through, returns and hands the writer exactly
    [N - 2] frames. *)
Theorem generate_au_plot_figures_two_errors input i j w :
  i ≠ j →
  value_error_at input i →
  value_error_at input j →
  (∀ k, k < length input → k ≠ i → k ≠ j → renders_at input k) →
  (∃ figs es,
     generate_au_plot_figures input w
       = (Ok (figs, [i `min` j; i `max` j]), after w es) ∧
     length figs = length input - 2 ∧
     warned_frames es = [i `min` j; i `max` j] ∧
     last es = Some (Logged WARNING (ErrorSummary 2 [i `min` j; i `max` j]))) ∧
  ∀ csv out,
    fs_exists (fs w) out = false →
    read_feat (fs w) csv = Ok input →
    write_stage (fs w) out (omap (rendered input) (seq 0 (length input)))
      = Ok tt →
    ∃ ims es w',
      generate_au_video_from_csv (csv, out) w = (Ok tt, w') ∧
      trace w' = trace w ++ es ∧
      appended es = (out ,.) <$> ims ∧
      length ims = length input - 2.
Proof.
  intros Hij Hi Hj Hrest.
  destruct (two_errors_frames _ _ _ Hij Hi Hj Hrest) as [Hok Hfilter].
  pose proof (rendered_error_length _ _ Hok) as Hlen.
  rewrite Hfilter, length_seq in Hlen. cbn [length] in Hlen.
  split.
  - eexists _, _. split; [|split; [|split]].
    + rewrite (generate_au_plot_figures_run _ _ Hok). by rewrite Hfilter.
    + lia.
    + unfold warned_frames. rewrite omap_app. fold (warned_frames
        (seq 0 (length input) ≫= frame_events input)).
      rewrite warned_frames_events, Hfilter. by rewrite app_nil_r.
    + by rewrite last_snoc.
  - intros csv out Hex Hrd Hws.
    destruct (generate_au_video_from_csv (csv, out) w) as [r w'] eqn:Hrun.
    destruct (task_write_inv _ _ _ _ _ _ Hex Hrd Hok Hrun)
      as (ims & es & Htr & Hap & _ & Hall & Hr).
    rewrite Hws in Hr. subst r. exists ims, es, w'.
    split; [done|]. split; [done|]. split; [done|].
    rewrite (Hall eq_refl). lia.
Qed.


(** C1.  A task whose output path exists returns at once: the only call it
    makes is the log record of the skip, so the table is not loaded, no
    frame is plotted and the writer is never opened; the file store, the
    bytes of the output file with it, is as before.  Submitting the task
    any number of times keeps it so. *)
Theorem skip_existing_output csv out w n :
  fs_exists (fs w) out = true →
  generate_au_video_from_csv (csv, out) w
    = (Ok tt, after w [Logged INFO (AlreadyProcessed out)]) ∧
  ∃ w',
    rerun n (csv, out) w = (Ok tt, w') ∧
    fs w' = fs w ∧
    fs w' !! out = fs w !! out ∧
    trace w' = trace w ++ replicate n (Logged INFO (AlreadyProcessed out)).
Proof.
  intros Hex. split; [by apply task_skip|].
  revert w Hex. induction n as [|n IH]; intros w Hex.
  - exists w. by rewrite app_nil_r.
  - cbn [rerun]. unfold bind at 1. rewrite task_skip by done.
    destruct (IH (after w [Logged INFO (AlreadyProcessed out)]) Hex)
      as (w' & -> & Hfs & Hout & Htr).
    exists w'. cbn [fs trace after] in *. rewrite Htr, <- app_assoc. done.
Qed.

(** The run of a task on the empty table, call by call. *)
Lemma empty_table_run csv out w :
  fs_exists (fs w) out = false →
  read_feat (fs w) csv = Ok [] →
  get_writer (fs w) out = Ok tt →
  close out [] = Ok tt →
  generate_au_video_from_csv (csv, out) w
  = (Ok tt,
     {| fs := encoder (WriterClose out) (Ok tt)
                (encoder (GetWriter out) (Ok tt) (fs w));
        trace := trace w ++
          [ReadFeat csv; Logged INFO (LoadedFile csv);
           Logged WARNING (ErrorSummary 0 []);
           GetWriter out; Logged INFO GeneratingVideo; WriterClose out;
           Logged INFO (VideoSaved out)] |}).
Proof.
  intros Hex Hrd Hgw Hcl.
  unfold generate_au_video_from_csv, os_path_exists.
  unfold bind at 1. rewrite Hex. unfold call_read_feat.
  unfold bind at 1. rewrite bind_emit. cbn [fs after]. rewrite Hrd.
  unfold logging_info. rewrite bind_emit.
  unfold bind at 1. cbn [generate_au_plot_figures].
  unfold generate_au_plot_figures at 1. cbn.
  unfold bind at 1. unfold imageio_get_writer, writer_call. cbn.
  rewrite Hgw. cbn.
  unfold bind at 1. unfold writer_close, writer_call. cbn. rewrite Hcl.
  unfold emit. cbn [fs trace]. by rewrite <- !app_assoc.
Qed.

Lemma rendered_filter_omap rows ks :
  Forall2 (λ k fig, rendered rows k = Some fig)
    (filter (λ k, is_Some (rendered rows k)) ks) (omap (rendered rows) ks).
Proof.
  induction ks as [|k ks IH]; [constructor|].
  rewrite filter_cons. cbn [omap list_omap].
  destruct (rendered rows k) as [fig|] eqn:Hk.
  - rewrite decide_True by eauto. by constructor.
  - rewrite decide_False by (by intros []). done.
Qed.

(** C3.  The frames handed to the writer by a task are the pictures of the
    frames that were rendered, in ascending frame order: they are the
    pictures of a prefix [ks] of the ascending list of rendered frame
    indices, one for one and in that order, and of the whole list when the
    task returns. *)
Theorem frames_written_in_row_order csv out rows w r w' :
  fs_exists (fs w) out = false →
  read_feat (fs w) csv = Ok rows →
  generate_au_video_from_csv (csv, out) w = (r, w') →
  ∃ ks ims es,
    trace w' = trace w ++ es ∧
    appended es = (out ,.) <$> ims ∧
    ks `prefix_of`
      filter (λ k, is_Some (rendered rows k)) (seq 0 (length rows)) ∧
    StronglySorted lt ks ∧
    Forall2 (λ k im, ∃ fig, rendered rows k = Some fig ∧ raster fig = Ok im)
      ks ims ∧
    (r = Ok tt →
     ks = filter (λ k, is_Some (rendered rows k)) (seq 0 (length rows))).
Proof.
  intros Hex Hrd Hrun.
  set (good := filter (λ k, is_Some (rendered rows k)) (seq 0 (length rows))).
  destruct (first_fatal rows (length rows)) as [Hok|(k & e & Hk & He & Hb)].
  - assert (Forall (λ k, fatal_at rows k = None) (seq 0 (length rows))) as Hall.
    { apply Forall_seq. intros j ?. apply Hok. lia. }
    destruct (task_write_inv _ _ _ _ _ _ Hex Hrd Hall Hrun)
      as (ims & es & Htr & Hap & Hims & Hlen & _).
    pose proof (rendered_filter_omap rows (seq 0 (length rows))) as Hgood.
    fold good in Hgood.
    exists (take (length ims) good), ims, es.
    split; [done|]. split; [done|]. split; [apply prefix_take|].
    split.
    { assert (StronglySorted lt good) as Hs
        by apply StronglySorted_filter, StronglySorted_lt_seq.
      rewrite <- (take_drop (length ims) good) in Hs.
      by apply StronglySorted_app_1_l in Hs. }
    split.
    { apply (Forall2_take _ _ _ (length ims)) in Hgood.
      eapply Forall2_trans; [|exact Hgood|exact Hims].
      intros k' fig im Hk' Hf. by exists fig. }
    intros Hr. apply take_ge.
    rewrite (Forall2_length _ _ _ Hgood), (Hlen Hr). done.
  - rewrite (task_plot_fails _ _ _ _ _ _ Hex Hrd Hk He Hb) in Hrun.
    injection Hrun as <- <-.
    exists [], [], (ReadFeat csv :: Logged INFO (LoadedFile csv)
                    :: (seq 0 k ++ [k]) ≫= frame_events rows).
    split; [done|]. split.
    { unfold appended. cbn [omap list_omap].
      apply (appended_frame_events rows). }
    split; [apply prefix_nil|]. split; [constructor|].
    split; [constructor|]. done.
Qed.

Lemma fatal_at_plot_face rows k e :
  k < length rows →
  fatal_at rows k = Some e ↔
  ∃ aus, rows !! k = Some aus ∧ plot_face aus k = Raise e ∧
         is_ValueError e = false.
Proof.
  intros Hk. unfold fatal_at.
  destruct (lookup_lt_is_Some_2 rows k Hk) as [aus Haus]. rewrite Haus.
  split.
  - destruct (plot_face aus k) as [ax|e'] eqn:Hp; [done|].
    destruct (is_ValueError e') eqn:Hv; [done|].
    intros [= ->]. by exists aus.
  - intros (aus' & [= <-] & -> & ->). done.
Qed.

(** C5, as the code has it.  A task raises [e] exactly when [e] comes out
    of the load, out of plotting a frame with an exception that is not a
    value error, or out of the write stage (opening the writer, rasterising
    a figure, appending, closing).  Value errors of the plotting never leave
    the task. *)
Theorem task_raises_iff args w e :
  (generate_au_video_from_csv args w).1 = Raise e ↔
  load_raises args w e ∨ plot_raises args w e ∨ writer_raises args w e.
Proof.
  destruct args as [csv out].
  unfold load_raises, plot_raises, writer_raises. cbn [fst snd].
  destruct (fs_exists (fs w) out) eqn:Hex.
  { rewrite task_skip by done. cbn. split; [done|]. by intros [[? _]|[[? _]|[? _]]]. }
  destruct (read_feat (fs w) csv) as [rows|e'] eqn:Hrd.
  2:{ rewrite (task_load_fails _ _ e') by done. cbn. split.
      - intros [= ->]. by left.
      - intros [[_ [= ->]]|[[_ (? & ? & ? & ? & _)]|[_ (? & ? & _)]]];
          done. }
  destruct (first_fatal rows (length rows)) as [Hok|(k & e' & Hk & He & Hb)].
  - assert (Forall (λ k, fatal_at rows k = None) (seq 0 (length rows))) as Hall.
    { apply Forall_seq. intros j ?. apply Hok. lia. }
    destruct (generate_au_video_from_csv (csv, out) w) as [r w'] eqn:Hrun.
    destruct (task_write_inv _ _ _ _ _ _ Hex Hrd Hall Hrun)
      as (_ & _ & _ & _ & _ & _ & Hr).
    cbn [fst]. rewrite Hr. split.
    + intros Hws. right; right. split; [done|]. by exists rows.
    + intros [[_ ?]|[[_ (rows' & k & aus & [= <-] & Haus & Hp & Hv & _)]
                    |[_ (rows' & [= <-] & _ & Hws)]]]; [done| |done].
      pose proof (lookup_lt_Some _ _ _ Haus) as Hk.
      assert (fatal_at rows k = Some e) as Hf
        by (apply fatal_at_plot_face; [done|by exists aus]).
      rewrite (Hok k Hk) in Hf. done.
  - rewrite (task_plot_fails _ _ _ _ _ _ Hex Hrd Hk He Hb). cbn [fst].
    apply fatal_at_plot_face in He as (aus & Haus & Hp & Hv); [|done].
    split.
    + intros [= ->]. right; left. split; [done|]. by exists rows, k, aus.
    + intros [[_ ?]|[[_ (rows' & k' & aus' & [= <-] & Haus' & Hp' & Hv' & Hb')]
                    |[_ (rows' & [= <-] & Hok & _)]]]; [done| |].
      * pose proof (lookup_lt_Some _ _ _ Haus') as Hk'.
        assert (fatal_at rows k' = Some e) as Hf'
          by (apply fatal_at_plot_face; [done|by exists aus']).
        assert (fatal_at rows k = Some e') as Hf
          by (apply fatal_at_plot_face; [done|by exists aus]).
        destruct (Nat.lt_trichotomy k k') as [Hlt|[->|Hlt]].
        -- rewrite (Hb' _ Hlt) in Hf. done.
        -- congruence.
        -- rewrite (Hb _ Hlt) in Hf'. done.
      * assert (fatal_at rows k = Some e') as Hf
          by (apply fatal_at_plot_face; [done|by exists aus]).
        rewrite (Hok k Hk) in Hf. done.
Qed.

(** *** More on [generate_au_plot_figures] *)

Lemma generate_au_plot_figures_fatal input k e w :
  k < length input →
  fatal_at input k = Some e →
  (∀ j, j < k → fatal_at input j = None) →
  generate_au_plot_figures input w
    = (Raise e, after w (seq 0 (S k) ≫= frame_events input)).
Proof.
  intros Hk He Hbefore. unfold generate_au_plot_figures. unfold bind at 1.
  rewrite range_0.
  assert (seq 0 (length input)
          = seq 0 k ++ k :: seq (S k) (length input - S k)) as ->.
  { replace (length input) with (k + S (length input - S k)) at 1 by lia.
    by rewrite seq_app. }
  rewrite (plot_frames_fatal _ _ _ _ e); [|apply Forall_seq; auto with lia|done].
  by rewrite seq_S.
Qed.

Lemma fatal_at_None input k :
  k < length input →
  fatal_at input k = None ↔
  ∀ aus e, input !! k = Some aus → plot_face aus k = Raise e →
           is_ValueError e = true.
Proof.
  intros Hk. unfold fatal_at.
  destruct (lookup_lt_is_Some_2 input k Hk) as [aus ->].
  destruct (plot_face aus k) as [ax|e] eqn:Hp.
  - split; [|done]. intros _ ? ? [= <-]. by rewrite Hp.
  - destruct (is_ValueError e) eqn:Hv.
    + split; [|done]. intros _ ? ? [= <-]. rewrite Hp. by intros [= <-].
    + split; [done|]. intros H. by rewrite (H aus e eq_refl Hp) in Hv.
Qed.

Lemma omap_frame_events {B} (f : event → option B) input ks :
  (∀ k e, f (Logged WARNING (ValueErrorAtFrame k e)) = None) →
  omap f (ks ≫= frame_events input)
  = omap (λ k, aus ← input !! k; f (PlotFace aus k)) ks.
Proof.
  intros Hw. induction ks as [|k ks IH]; [done|].
  cbn [mbind list_bind omap list_omap]. rewrite omap_app, IH.
  unfold frame_events. destruct (input !! k) as [aus|]; [|done].
  cbn [omap list_omap mbind option_bind].
  destruct (f (PlotFace aus k)) as [b|];
    (destruct (plot_face aus k) as [ax|e]; [done|]);
    (destruct (is_ValueError e); [|done]); cbn [omap list_omap app];
    by rewrite Hw.
Qed.

Lemma omap_frame_events_nil {B} (f : event → option B) input ks :
  (∀ aus k, f (PlotFace aus k) = None) →
  (∀ k e, f (Logged WARNING (ValueErrorAtFrame k e)) = None) →
  omap f (ks ≫= frame_events input) = [].
Proof.
  intros Hp Hw. rewrite omap_frame_events by done.
  induction ks as [|k ks IH]; [done|]. cbn [omap list_omap].
  destruct (input !! k) as [aus|]; [|done]. cbn [mbind option_bind].
  by rewrite Hp.
Qed.

Lemma plotted_frame_events input n :
  n ≤ length input →
  plotted (seq 0 n ≫= frame_events input) = zip (take n input) (seq 0 n).
Proof.
  intros Hn. unfold plotted. rewrite omap_frame_events by done.
  induction n as [|n IH]; [done|].
  destruct (lookup_lt_is_Some_2 input n) as [aus Haus]; [lia|].
  rewrite seq_S, omap_app, IH by lia. cbn [omap list_omap plus].
  rewrite Haus. cbn [mbind option_bind].
  rewrite (take_S_r _ _ _ Haus).
  rewrite zip_with_app; [done|].
  rewrite length_take, length_seq. lia.
Qed.

Lemma summaries_frame_events input ks :
  summaries (ks ≫= frame_events input) = [].
Proof.
  unfold summaries. rewrite omap_frame_events by done.
  induction ks as [|k ks IH]; [done|]. cbn [omap list_omap].
  by destruct (input !! k).
Qed.

Lemma zip_take_prefix {A B} (l : list A) (k : list B) n :
  zip (take n l) (take n k) `prefix_of` zip l k.
Proof.
  revert l k. induction n as [|n IH]; intros [|a l] [|b k]; cbn;
    try apply prefix_nil.
  by apply prefix_cons.
Qed.

(** X5 [generate_au_plot_figures] raises exactly when some row makes
    [plot_face] raise an exception that is not a [ValueError]; the
    exception is that of the first such row. *)
Theorem generate_au_plot_figures_raises_iff input w e :
  (generate_au_plot_figures input w).1 = Raise e ↔
  ∃ k aus,
    input !! k = Some aus ∧ plot_face aus k = Raise e ∧
    is_ValueError e = false ∧
    ∀ j aus' e', j < k → input !! j = Some aus' →
                 plot_face aus' j = Raise e' → is_ValueError e' = true.
Proof.
  destruct (first_fatal input (length input)) as [Hok|(k & e0 & Hk & He0 & Hb)].
  - rewrite generate_au_plot_figures_run by (apply Forall_seq; auto with lia).
    split; [done|]. intros (k & aus & Haus & Hp & Hv & _).
    pose proof (lookup_lt_Some _ _ _ Haus) as Hk.
    assert (fatal_at input k = Some e) as Hf
      by (apply fatal_at_plot_face; [done|by exists aus]).
    by rewrite Hok in Hf.
  - rewrite (generate_au_plot_figures_fatal _ _ _ _ Hk He0 Hb). cbn [fst].
    pose proof He0 as He0'.
    apply fatal_at_plot_face in He0' as (aus & Haus & Hp & Hv); [|done].
    split.
    + intros [= <-]. exists k, aus. repeat split; try done.
      intros j aus' e' Hj Haus' Hp'.
      assert (j < length input) as Hjl by lia.
      by eapply (proj1 (fatal_at_None input j Hjl) (Hb j Hj)).
    + intros (k' & aus' & Haus' & Hp' & Hv' & Hb').
      pose proof (lookup_lt_Some _ _ _ Haus') as Hk'.
      destruct (Nat.lt_trichotomy k k') as [Hlt|[->|Hlt]].
      * by rewrite (Hb' _ _ _ Hlt Haus Hp) in Hv.
      * congruence.
      * assert (fatal_at input k' = Some e) as Hf
          by (apply fatal_at_plot_face; [done|by exists aus']).
        by rewrite (Hb _ Hlt) in Hf.
Qed.

(** X6 When row [k] is the first whose exception is not a [ValueError],
    the loop stops there: rows [0..k] have been plotted, each once and in
    order, the value errors before [k] have been logged, no summary is
    logged and no figure is returned. *)
Theorem generate_au_plot_figures_stops_at_first_other_error input k aus e w :
  input !! k = Some aus →
  plot_face aus k = Raise e →
  is_ValueError e = false →
  (∀ j aus' e', j < k → input !! j = Some aus' →
                plot_face aus' j = Raise e' → is_ValueError e' = true) →
  ∃ es,
    generate_au_plot_figures input w = (Raise e, after w es) ∧
    plotted es = zip (take (S k) input) (seq 0 (S k)) ∧
    warned_frames es = filter (λ j, is_error_frame input j) (seq 0 k) ∧
    summaries es = [].
Proof.
  intros Haus Hp Hv Hb.
  pose proof (lookup_lt_Some _ _ _ Haus) as Hk.
  assert (fatal_at input k = Some e) as Hf
    by (apply fatal_at_plot_face; [done|by exists aus]).
  assert (∀ j, j < k → fatal_at input j = None) as Hb'.
  { intros j Hj. apply fatal_at_None; [lia|]. intros ? ?. by apply Hb. }
  exists (seq 0 (S k) ≫= frame_events input).
  split; [by apply generate_au_plot_figures_fatal|].
  split; [apply plotted_frame_events; lia|].
  split; [|apply summaries_frame_events].
  rewrite warned_frames_events, seq_S, filter_app. cbn [plus].
  rewrite filter_cons, filter_nil.
  rewrite decide_False, app_nil_r; [done|].
  unfold is_error_frame. rewrite Haus, Hp, Hv. by intros [].
Qed.

(** X7 In every run of [generate_au_plot_figures] the rows are handed to
    [plot_face] in order, each with its own index as frame number.  When
    the function returns, every row has been plotted exactly once, one
    warning has been logged per returned error frame, and the summary is
    logged once, last, with the returned list and its length (also when
    the list is empty).  When it raises, no summary is logged. *)
Theorem generate_au_plot_figures_calls input w :
  ∃ es,
    (generate_au_plot_figures input w).2 = after w es ∧
    plotted es `prefix_of` zip input (seq 0 (length input)) ∧
    match (generate_au_plot_figures input w).1 with
    | Ok (figs, error_frames) =>
        plotted es = zip input (seq 0 (length input)) ∧
        warned_frames es = error_frames ∧
        summaries es = [(length error_frames, error_frames)] ∧
        last es
          = Some (Logged WARNING
                    (ErrorSummary (length error_frames) error_frames))
    | Raise _ => summaries es = []
    end.
Proof.
  destruct (first_fatal input (length input)) as [Hok|(k & e0 & Hk & He0 & Hb)].
  - rewrite generate_au_plot_figures_run by (apply Forall_seq; auto with lia).
    eexists. split; [done|]. cbn [fst].
    assert (plotted
              ((seq 0 (length input) ≫= frame_events input)
               ++ [Logged WARNING
                     (ErrorSummary
                        (length (filter (λ k, is_error_frame input k)
                                   (seq 0 (length input))))
                        (filter (λ k, is_error_frame input k)
                           (seq 0 (length input))))])
            = zip input (seq 0 (length input))) as Hpl.
    { unfold plotted. rewrite omap_app. cbn [omap list_omap].
      rewrite app_nil_r. fold (plotted (seq 0 (length input) ≫= frame_events input)).
      rewrite plotted_frame_events by done. by rewrite firstn_all. }
    split; [by rewrite Hpl|]. split; [done|].
    split.
    { unfold warned_frames. rewrite omap_app. cbn [omap list_omap].
      rewrite app_nil_r. apply warned_frames_events. }
    split; [|by rewrite last_snoc].
    unfold summaries. rewrite omap_app.
    fold (summaries (seq 0 (length input) ≫= frame_events input)).
    by rewrite summaries_frame_events.
  - rewrite (generate_au_plot_figures_fatal _ _ _ _ Hk He0 Hb).
    eexists. split; [done|]. cbn [fst].
    split; [|apply summaries_frame_events].
    rewrite plotted_frame_events by lia.
    replace (seq 0 (S k)) with (take (S k) (seq 0 (length input)))
      by (rewrite take_seq; f_equal; lia).
    apply zip_take_prefix.
Qed.

(** *** More on the write stage *)

Lemma write_frames_events figs : ∀ wr w,
  trace (for_each figs write_frame wr w).2
  = trace w ++ write_events (w_path wr) (w_frames wr) figs.
Proof.
  induction figs as [|fig figs IH]; intros wr w; cbn [for_each write_events].
  - by rewrite app_nil_r.
  - unfold bind at 1. rewrite write_frame_step.
    destruct (raster fig) as [im|e]; [|by rewrite app_nil_r].
    cbn zeta.
    destruct (append_data (w_path wr) (w_frames wr) im) as [[]|e]; [|done].
    rewrite IH. cbn [trace w_path w_frames with_frames].
    by rewrite <- app_assoc.
Qed.

Lemma write_events_Ok p figs : ∀ frames frames',
  written_frames p frames figs = Ok frames' →
  ∃ ims,
    frames' = frames ++ ims ∧
    Forall2 (λ fig im, raster fig = Ok im) figs ims ∧
    write_events p frames figs
    = zip figs ims ≫= λ fi, [AppendData p fi.2; PltClose fi.1].
Proof.
  induction figs as [|fig figs IH]; intros frames frames';
    cbn [written_frames write_events].
  - intros [= <-]. exists []. by rewrite app_nil_r.
  - destruct (raster fig) as [im|e] eqn:Hr; [|done].
    destruct (append_data p frames im) as [[]|e]; [|done].
    intros (ims & -> & Hims & ->)%IH. exists (im :: ims).
    split; [by rewrite <- app_assoc|]. split; [by constructor|done].
Qed.

Lemma write_events_Raise p figs : ∀ frames e,
  written_frames p frames figs = Raise e →
  released (write_events p frames figs) `prefix_of` figs ∧
  length (released (write_events p frames figs)) < length figs.
Proof.
  induction figs as [|fig figs IH]; intros frames e;
    cbn [written_frames write_events]; [done|].
  destruct (raster fig) as [im|e'] eqn:Hr.
  2:{ intros _. split; [apply prefix_nil|cbn; lia]. }
  destruct (append_data p frames im) as [[]|e'].
  2:{ intros _. split; [apply prefix_nil|cbn; lia]. }
  intros [Hpre Hlen]%IH. unfold released in *. cbn [omap list_omap].
  split; [by apply prefix_cons|cbn [length]; lia].
Qed.

Lemma write_events_writer p figs : ∀ frames,
  opened (write_events p frames figs) = [] ∧
  closed (write_events p frames figs) = [].
Proof.
  induction figs as [|fig figs IH]; intros frames; cbn [write_events]; [done|].
  destruct (raster fig) as [im|e']; [|done].
  destruct (append_data p frames im) as [[]|e']; [|done].
  apply IH.
Qed.

Lemma task_trace csv out rows w :
  fs_exists (fs w) out = false →
  read_feat (fs w) csv = Ok rows →
  Forall (λ k, fatal_at rows k = None) (seq 0 (length rows)) →
  let figs := omap (rendered rows) (seq 0 (length rows)) in
  let errs := filter (λ k, is_error_frame rows k) (seq 0 (length rows)) in
  (generate_au_video_from_csv (csv, out) w).1 = write_stage (fs w) out figs ∧
  trace (generate_au_video_from_csv (csv, out) w).2
  = trace w ++
    [ReadFeat csv; Logged INFO (LoadedFile csv)] ++
    (seq 0 (length rows) ≫= frame_events rows) ++
    [Logged WARNING (ErrorSummary (length errs) errs); GetWriter out] ++
    match get_writer (fs w) out with
    | Raise _ => []
    | Ok _ =>
        Logged INFO GeneratingVideo :: write_events out [] figs ++
        match written_frames out [] figs with
        | Raise _ => []
        | Ok frames =>
            WriterClose out ::
            match close out frames with
            | Ok _ => [Logged INFO (VideoSaved out)]
            | Raise _ => []
            end
        end
    end.
Proof.
  intros Hex Hrd Hok figs errs.
  split.
  { destruct (generate_au_video_from_csv (csv, out) w) as [r w'] eqn:Hrun.
    by destruct (task_write_inv _ _ _ _ _ _ Hex Hrd Hok Hrun)
      as (_ & _ & _ & _ & _ & _ & ->). }
  unfold generate_au_video_from_csv, os_path_exists.
  unfold bind at 1. rewrite Hex. unfold call_read_feat.
  unfold bind at 1. rewrite bind_emit. cbn [fs after]. rewrite Hrd.
  unfold logging_info. rewrite bind_emit.
  unfold bind at 1. rewrite (generate_au_plot_figures_run _ _ Hok).
  rewrite !after_after. fold figs errs.
  unfold bind at 1. unfold imageio_get_writer, writer_call.
  cbn [fs after trace].
  destruct (get_writer (fs w) out) as [[]|e] eqn:Hgw.
  2:{ cbn [snd trace]. by app_norm. }
  rewrite bind_emit. unfold bind at 1.
  match goal with
  | |- context [for_each figs write_frame ?wr ?w1] =>
      pose proof (write_frames_events figs wr w1) as Htr;
      destruct (for_each figs write_frame wr w1) as [r1 w1'] eqn:Hloop
  end.
  apply write_frames_inv in Hloop as (ims & es & _ & _ & _ & Hres).
  cbn [w_path w_frames trace after app snd] in Htr, Hres.
  destruct r1 as [wr'|e].
  2:{ rewrite Hres. cbn [snd]. rewrite Htr. by app_norm. }
  destruct Hres as (Hlen & -> & ->). cbn [app].
  unfold bind at 1. unfold writer_close, writer_call, with_frames.
  cbn [w_path w_frames app].
  destruct (close out ims) as [[]|e] eqn:Hcl.
  - unfold emit. cbn [snd trace]. rewrite Htr. by app_norm.
  - cbn [snd trace]. rewrite Htr. by app_norm.
Qed.

Lemma task_Ok_no_fatal csv out rows w :
  fs_exists (fs w) out = false →
  read_feat (fs w) csv = Ok rows →
  is_Ok (generate_au_video_from_csv (csv, out) w).1 = true →
  Forall (λ k, fatal_at rows k = None) (seq 0 (length rows)).
Proof.
  intros Hex Hrd Hrun. apply Forall_seq. intros k [_ Hk]. cbn in Hk.
  destruct (first_fatal rows (length rows)) as [Hok|(j & e & Hj & He & Hb)];
    [by apply Hok|].
  by rewrite (task_plot_fails _ _ _ _ _ _ Hex Hrd Hj He Hb) in Hrun.
Qed.

(** X8 The calls of a task that returns, in full: load, one [plot_face]
    per row, the summary, the writer opened once, then for every figure
    its frame appended and the figure released right after, the writer
    closed once after the last frame, and the final log record. *)
Theorem task_success_calls csv out rows w w' :
  fs_exists (fs w) out = false →
  read_feat (fs w) csv = Ok rows →
  generate_au_video_from_csv (csv, out) w = (Ok tt, w') →
  let figs := omap (rendered rows) (seq 0 (length rows)) in
  let errs := filter (λ k, is_error_frame rows k) (seq 0 (length rows)) in
  ∃ ims,
    Forall2 (λ fig im, raster fig = Ok im) figs ims ∧
    trace w' = trace w ++
      [ReadFeat csv; Logged INFO (LoadedFile csv)] ++
      (seq 0 (length rows) ≫= frame_events rows) ++
      [Logged WARNING (ErrorSummary (length errs) errs);
       GetWriter out; Logged INFO GeneratingVideo] ++
      (zip figs ims ≫= λ fi, [AppendData out fi.2; PltClose fi.1]) ++
      [WriterClose out; Logged INFO (VideoSaved out)].
Proof.
  intros Hex Hrd Hrun figs errs.
  assert (Forall (λ k, fatal_at rows k = None) (seq 0 (length rows))) as Hok
    by (apply (task_Ok_no_fatal csv out _ w); [done..|by rewrite Hrun]).
  destruct (task_trace csv out rows w Hex Hrd Hok) as [Hr Htr].
  rewrite Hrun in Hr, Htr. cbn [fst snd] in Hr, Htr. fold figs errs in Hr, Htr.
  unfold write_stage in Hr.
  destruct (get_writer (fs w) out) as [[]|e]; [|done].
  destruct (written_frames out [] figs) as [frames|e] eqn:Hwf; [|done].
  destruct (close out frames) as [[]|e]; [|done].
  apply write_events_Ok in Hwf as (ims & _ & Hims & Hev).
  exists ims. split; [done|]. rewrite Htr, Hev. by app_norm.
Qed.

(** X9 When rasterising or appending a frame raises, the task raises the
    same exception with the writer opened and never closed, and the
    figures from the failing one on are never released. *)
Theorem task_write_failure_leaves_writer_open csv out rows e w :
  fs_exists (fs w) out = false →
  read_feat (fs w) csv = Ok rows →
  (∀ k aus e',
     rows !! k = Some aus → plot_face aus k = Raise e' →
     is_ValueError e' = true) →
  get_writer (fs w) out = Ok tt →
  written_frames out [] (omap (rendered rows) (seq 0 (length rows)))
    = Raise e →
  ∃ es w',
    generate_au_video_from_csv (csv, out) w = (Raise e, w') ∧
    trace w' = trace w ++ es ∧
    opened es = [out] ∧
    closed es = [] ∧
    released es `prefix_of` omap (rendered rows) (seq 0 (length rows)) ∧
    length (released es)
      < length (omap (rendered rows) (seq 0 (length rows))).
Proof.
  intros Hex Hrd Hve Hgw Hwf.
  pose proof (only_value_errors_no_fatal _ Hve) as Hok.
  destruct (task_trace csv out rows w Hex Hrd Hok) as [Hr Htr].
  destruct (generate_au_video_from_csv (csv, out) w) as [r w'].
  cbn [fst snd] in Hr, Htr. unfold write_stage in Hr.
  rewrite Hgw, Hwf in Hr, Htr. subst r.
  apply write_events_Raise in Hwf as [Hpre Hlen].
  destruct (write_events_writer out
              (omap (rendered rows) (seq 0 (length rows))) [])
    as [Hop Hcl].
  eexists _, w'. split; [done|]. split; [exact Htr|].
  unfold opened, closed, released in *. cbn [app].
  repeat (progress cbn [omap list_omap app] || rewrite omap_app).
  rewrite !(omap_frame_events_nil _ rows) by done.
  rewrite Hop, Hcl. cbn [app]. by rewrite !app_nil_r.
Qed.

(** X10 The writer is opened only when the output is missing, the table
    loads and every row plots or raises a [ValueError]; then it is opened
    once, on the output path.  In every other run no writer call is made
    and the file store is left as it was. *)
Theorem task_opens_writer_iff csv out w :
  ∃ es,
    trace (generate_au_video_from_csv (csv, out) w).2 = trace w ++ es ∧
    (opened es = [out] ↔
     fs_exists (fs w) out = false ∧
     ∃ rows,
       read_feat (fs w) csv = Ok rows ∧
       ∀ k aus e, rows !! k = Some aus → plot_face aus k = Raise e →
                  is_ValueError e = true) ∧
    (opened es ≠ [out] →
     opened es = [] ∧ appended es = [] ∧ closed es = [] ∧
     fs (generate_au_video_from_csv (csv, out) w).2 = fs w).
Proof.
  destruct (fs_exists (fs w) out) eqn:Hex.
  { rewrite (task_skip _ _ _ Hex). eexists. split; [done|].
    split; [|done]. split; [done|]. by intros [? _]. }
  destruct (read_feat (fs w) csv) as [rows|e] eqn:Hrd.
  2:{ rewrite (task_load_fails _ _ _ _ Hex Hrd). eexists. split; [done|].
      split; [|done]. split; [done|]. by intros [_ (? & ? & _)]. }
  destruct (first_fatal rows (length rows)) as [Hok|(k & e & Hk & He & Hb)].
  - assert (Forall (λ k, fatal_at rows k = None) (seq 0 (length rows))) as Hall
      by (apply Forall_seq; auto with lia).
    destruct (task_trace csv out rows w Hex Hrd Hall) as [_ Htr].
    eexists. split; [exact Htr|].
    assert (∀ l, opened
              ([ReadFeat csv; Logged INFO (LoadedFile csv)] ++
               (seq 0 (length rows) ≫= frame_events rows) ++
               [Logged WARNING
                  (ErrorSummary
                     (length (filter (λ k, is_error_frame rows k)
                                (seq 0 (length rows))))
                     (filter (λ k, is_error_frame rows k)
                        (seq 0 (length rows))));
                GetWriter out] ++ l) = out :: opened l) as Hop.
    { intros l. unfold opened.
      repeat (progress cbn [omap list_omap app] || rewrite omap_app).
      by rewrite (omap_frame_events_nil _ rows) by done. }
    rewrite Hop.
    assert (∀ l, l = [] → out :: l = [out]) as Hnil by by intros ? ->.
    assert (opened
              match get_writer (fs w) out with
              | Ok _ =>
                  Logged INFO GeneratingVideo
                  :: write_events out []
                       (omap (rendered rows) (seq 0 (length rows))) ++
                     match
                       written_frames out []
                         (omap (rendered rows) (seq 0 (length rows)))
                     with
                     | Ok frames =>
                         WriterClose out
                         :: match close out frames with
                            | Ok _ => [Logged INFO (VideoSaved out)]
                            | Raise _ => []
                            end
                     | Raise _ => []
                     end
              | Raise _ => []
              end = []) as ->.
    { destruct (get_writer (fs w) out); [|done].
      unfold opened. cbn [omap list_omap]. rewrite omap_app.
      fold (opened (write_events out []
                      (omap (rendered rows) (seq 0 (length rows))))).
      rewrite (proj1 (write_events_writer _ _ _)).
      destruct (written_frames _ _ _) as [frames|]; [|done].
      by destruct (close out frames). }
    split; [|done]. split; [|done]. intros _. split; [done|].
    exists rows. split; [done|]. intros k aus e Haus.
    pose proof (lookup_lt_Some _ _ _ Haus) as Hk.
    by apply (proj1 (fatal_at_None rows k Hk) (Hok k Hk)).
  - rewrite (task_plot_fails _ _ _ _ _ _ Hex Hrd Hk He Hb).
    eexists. split; [done|].
    assert (∀ B (f : event → option B),
              f (ReadFeat csv) = None →
              f (Logged INFO (LoadedFile csv)) = None →
              (∀ aus k, f (PlotFace aus k) = None) →
              (∀ k e, f (Logged WARNING (ValueErrorAtFrame k e)) = None) →
              omap f (ReadFeat csv :: Logged INFO (LoadedFile csv)
                      :: (seq 0 k ++ [k]) ≫= frame_events rows) = [])
      as Hproj.
    { intros B f H1 H2 H3 H4. cbn [omap list_omap]. rewrite H1, H2.
      by apply omap_frame_events_nil. }
    unfold opened, appended, closed. rewrite !Hproj by done.
    split; [|done]. split; [done|].
    intros [_ (rows' & [= <-] & Hve)].
    assert (fatal_at rows k = None) as Hn.
    { apply fatal_at_None; [done|]. apply Hve. }
    congruence.
Qed.

End Job.

(** ** The empty table *)

Section EmptyTable.
Context {au_vector axes figure png image : Type}.
Variable read_feat : gmap string node → string → result (list au_vector).
Variable plot_face : au_vector → nat → result axes.
Variable get_figure : axes → figure.
Variable savefig : figure → nat → result png.
Variable imread : png → result image.
Variable get_writer : gmap string node → string → result unit.
Variable append_data : string → list image → image → result unit.
Variable close : string → list image → result unit.
Variable cfg : config.

Local Abbreviation world := (@world au_vector figure image).
Local Abbreviation task encoder :=
  (generate_au_video_from_csv read_feat plot_face get_figure savefig imread
     get_writer append_data close encoder cfg).

(** C6, as the code has it.  A table with no row: when the load gives the
    empty table and the writer opens and closes, the plotting function
    gives no figure and no error frame and the task returns, having opened
    and closed the writer at the output path with no frame appended in
    between.  The file store after the run is what these two writer calls
    leave of it.  With the FFMPEG writer of [imageio], which starts the
    encoder at the first frame, that is the store as it was: no video file
    is written and the output path is still missing. *)
Theorem empty_csv_video csv out (w : world) :
  fs_exists (fs w) out = false →
  read_feat (fs w) csv = Ok [] →
  get_writer (fs w) out = Ok tt →
  close out [] = Ok tt →
  let calls :=
    [ReadFeat csv; Logged INFO (LoadedFile csv);
     Logged WARNING (ErrorSummary 0 []);
     GetWriter out; Logged INFO GeneratingVideo; WriterClose out;
     Logged INFO (VideoSaved out)] in
  generate_au_plot_figures plot_face get_figure [] w
    = (Ok ([], []), after w [Logged WARNING (ErrorSummary 0 [])]) ∧
  (∀ encoder,
     task encoder (csv, out) w
     = (Ok tt,
        {| fs := encoder (WriterClose out) (Ok tt)
                   (encoder (GetWriter out) (Ok tt) (fs w));
           trace := trace w ++ calls |})) ∧
  task lazy_encoder (csv, out) w = (Ok tt, after w calls) ∧
  fs_exists (fs (task lazy_encoder (csv, out) w).2) out = false.
Proof.
  intros Hex Hrd Hgw Hcl calls. split; [done|].
  assert (∀ encoder,
            task encoder (csv, out) w
            = (Ok tt,
               {| fs := encoder (WriterClose out) (Ok tt)
                          (encoder (GetWriter out) (Ok tt) (fs w));
                  trace := trace w ++ calls |})) as Hrun
    by (intros encoder; by apply empty_table_run).
  split; [done|]. rewrite (Hrun lazy_encoder). done.
Qed.

End EmptyTable.

(** ** The video job on the sample libraries *)

Lemma generate_au_plot_figures_partition_witness :
  ∃ figs error_frames w',
    generate_au_plot_figures Sample.plot_face Sample.get_figure Sample.table
      {| fs := ∅; trace := @nil (@event nat nat nat) |}
      = (Ok (figs, error_frames), w') ∧
    length figs + length error_frames = length Sample.table ∧
    StronglySorted lt error_frames ∧
    NoDup error_frames ∧
    figs = omap (rendered Sample.plot_face Sample.get_figure Sample.table)
             (seq 0 (length Sample.table)) ∧
    ∀ k, k < length Sample.table →
      (is_Some (rendered Sample.plot_face Sample.get_figure Sample.table k)
       ∧ k ∉ error_frames)
      ∨ (rendered Sample.plot_face Sample.get_figure Sample.table k = None
         ∧ k ∈ error_frames).
Proof.
  apply generate_au_plot_figures_partition.
  intros k aus e _ Hp. destruct aus; simpl in Hp; [|discriminate].
  injection Hp as <-. reflexivity.
Defined.

Lemma generate_au_plot_figures_two_errors_witness :
  let w := {| fs := ∅; trace := @nil (@event nat nat nat) |} in
  (∃ figs es,
     generate_au_plot_figures Sample.plot_face Sample.get_figure Sample.table w
       = (Ok (figs, [1; 3]), after w es) ∧
     length figs = 3 ∧
     warned_frames es = [1; 3] ∧
     last es = Some (Logged WARNING (ErrorSummary 2 [1; 3]))) ∧
  ∀ csv out,
    fs_exists (fs w) out = false →
    Sample.read_feat (fs w) csv = Ok Sample.table →
    write_stage Sample.savefig Sample.imread Sample.get_writer
      Sample.append_data Sample.close the_config (fs w) out
      (omap (rendered Sample.plot_face Sample.get_figure Sample.table)
         (seq 0 (length Sample.table))) = Ok tt →
    ∃ ims es w',
      generate_au_video_from_csv Sample.read_feat Sample.plot_face
        Sample.get_figure Sample.savefig Sample.imread Sample.get_writer
        Sample.append_data Sample.close (λ _ _ fs, fs) the_config
        (csv, out) w = (Ok tt, w') ∧
      trace w' = trace w ++ es ∧
      appended es = (out ,.) <$> ims ∧
      length ims = 3.
Proof.
  intros w.
  apply (generate_au_plot_figures_two_errors
           Sample.read_feat Sample.plot_face Sample.get_figure Sample.savefig
           Sample.imread Sample.get_writer Sample.append_data Sample.close
           (λ _ _ fs, fs) the_config Sample.table 3 1 w).
  - lia.
  - exists 0, "AU vector out of range". split; reflexivity.
  - exists 0, "AU vector out of range". split; reflexivity.
  - intros k Hk H3 H1. simpl in Hk.
    destruct k as [|[|[|[|[|k]]]]]; try lia.
    + exists 4, 4. split; reflexivity.
    + exists 6, 6. split; reflexivity.
    + exists 8, 8. split; reflexivity.
Defined.

Lemma skip_existing_output_witness :
  let w := {| fs := {["out.mp4" := File []]};
              trace := @nil (@event nat nat nat) |} in
  let task :=
    generate_au_video_from_csv Sample.read_feat Sample.plot_face
      Sample.get_figure Sample.savefig Sample.imread Sample.get_writer
      Sample.append_data Sample.close (λ _ _ fs, fs) the_config in
  task ("in.csv", "out.mp4") w
    = (Ok tt, after w [Logged INFO (AlreadyProcessed "out.mp4")]) ∧
  ∃ w',
    rerun Sample.read_feat Sample.plot_face
      Sample.get_figure Sample.savefig Sample.imread Sample.get_writer
      Sample.append_data Sample.close (λ _ _ fs, fs) the_config
      3 ("in.csv", "out.mp4") w = (Ok tt, w') ∧
    fs w' = fs w ∧
    fs w' !! "out.mp4" = fs w !! "out.mp4" ∧
    trace w' = trace w ++ replicate 3 (Logged INFO (AlreadyProcessed "out.mp4")).
Proof.
  intros w task.
  apply (skip_existing_output Sample.read_feat Sample.plot_face
           Sample.get_figure Sample.savefig Sample.imread Sample.get_writer
           Sample.append_data Sample.close (λ _ _ fs, fs) the_config
           "in.csv" "out.mp4" w 3).
  vm_compute. reflexivity.
Defined.

Lemma empty_csv_video_witness :
  let w := {| fs := ∅; trace := @nil (@event nat nat nat) |} in
  let task encoder :=
    generate_au_video_from_csv Sample.read_feat Sample.plot_face
      Sample.get_figure Sample.savefig Sample.imread Sample.get_writer
      Sample.append_data Sample.close encoder the_config in
  let calls :=
    [ReadFeat "empty.csv"; Logged INFO (LoadedFile "empty.csv");
     Logged WARNING (ErrorSummary 0 []);
     GetWriter "out.mp4"; Logged INFO GeneratingVideo;
     WriterClose "out.mp4"; Logged INFO (VideoSaved "out.mp4")] in
  generate_au_plot_figures Sample.plot_face Sample.get_figure [] w
    = (Ok ([], []), after w [Logged WARNING (ErrorSummary 0 [])]) ∧
  (∀ encoder,
     task encoder ("empty.csv", "out.mp4") w
     = (Ok tt,
        {| fs := encoder (WriterClose "out.mp4") (Ok tt)
                   (encoder (GetWriter "out.mp4") (Ok tt) (fs w));
           trace := trace w ++ calls |})) ∧
  task lazy_encoder ("empty.csv", "out.mp4") w = (Ok tt, after w calls) ∧
  fs_exists (fs (task lazy_encoder ("empty.csv", "out.mp4") w).2) "out.mp4"
    = false.
Proof.
  intros w.
  apply (empty_csv_video Sample.read_feat Sample.plot_face
           Sample.get_figure Sample.savefig Sample.imread Sample.get_writer
           Sample.append_data Sample.close the_config
           "empty.csv" "out.mp4" w); reflexivity.
Defined.

Lemma frames_written_in_row_order_witness :
  let w := {| fs := ∅; trace := @nil (@event nat nat nat) |} in
  ∃ ks ims es,
    trace (after w
             [ReadFeat "in.csv"; Logged INFO (LoadedFile "in.csv");
              PlotFace 4 0; PlotFace 0 1;
              Logged WARNING
                (ValueErrorAtFrame 1 (ValueError "AU vector out of range"));
              PlotFace 6 2; PlotFace 0 3;
              Logged WARNING
                (ValueErrorAtFrame 3 (ValueError "AU vector out of range"));
              PlotFace 8 4; Logged WARNING (ErrorSummary 2 [1; 3]);
              GetWriter "out.mp4"; Logged INFO GeneratingVideo;
              AppendData "out.mp4" 4; PltClose 4;
              AppendData "out.mp4" 6; PltClose 6;
              AppendData "out.mp4" 8; PltClose 8;
              WriterClose "out.mp4"; Logged INFO (VideoSaved "out.mp4")])
      = trace w ++ es ∧
    appended es = ("out.mp4" ,.) <$> ims ∧
    ks `prefix_of`
      filter (λ k, is_Some (rendered Sample.plot_face Sample.get_figure
                              Sample.table k))
        (seq 0 (length Sample.table)) ∧
    StronglySorted lt ks ∧
    Forall2 (λ k im,
               ∃ fig,
                 rendered Sample.plot_face Sample.get_figure Sample.table k
                   = Some fig ∧
                 raster Sample.savefig Sample.imread the_config fig = Ok im)
      ks ims ∧
    (Ok tt = Ok tt →
     ks = filter (λ k, is_Some (rendered Sample.plot_face Sample.get_figure
                                  Sample.table k))
            (seq 0 (length Sample.table))).
Proof.
  intros w.
  apply (frames_written_in_row_order Sample.read_feat Sample.plot_face
           Sample.get_figure Sample.savefig Sample.imread Sample.get_writer
           Sample.append_data Sample.close (λ _ _ fs, fs) the_config
           "in.csv" "out.mp4" Sample.table w); reflexivity.
Defined.

(** C6, as stated, fails: on the empty table the task returns, but with a
    writer that starts the encoder at the first frame the output path is
    still missing after the run; no video was written. *)
Lemma empty_table_leaves_video_counterexample :
  ¬ empty_table_leaves_video Sample.read_feat Sample.plot_face
      Sample.get_figure Sample.savefig Sample.imread Sample.get_writer
      Sample.append_data Sample.close lazy_encoder the_config
      ("empty.csv", "out.mp4")
      {| fs := ∅; trace := @nil (@event nat nat nat) |}.
Proof. intros [_ H]. vm_compute in H. discriminate H. Qed.

(** C5, as stated, fails: with a plotting routine that raises a
    [TypeError], the task raises although neither the load nor the writer
    stage does. *)
Lemma raises_iff_load_or_writer_counterexample :
  ¬ raises_iff_load_or_writer Sample.read_feat Sample.plot_face_type_error
      Sample.get_figure Sample.savefig Sample.imread Sample.get_writer
      Sample.append_data Sample.close (λ _ _ fs, fs) the_config
      ("in.csv", "out.mp4")
      {| fs := ∅; trace := @nil (@event nat nat nat) |}.
Proof.
  intros H.
  destruct (H (Exception "TypeError" "unsupported operand")) as [H1 _].
  destruct H1 as [[_ Hload]|[_ (rows & Hrows & Hok & _)]].
  - reflexivity.
  - discriminate Hload.
  - injection Hrows as <-. specialize (Hok 0). simpl in Hok.
    unfold fatal_at in Hok. simpl in Hok. discriminate Hok. lia.
Qed.

(** X6 on a table whose row 2 raises a [TypeError], after a value error at
    row 1. *)
Lemma generate_au_plot_figures_stops_at_first_other_error_witness :
  let w := {| fs := ∅; trace := @nil (@event nat nat nat) |} in
  ∃ es,
    generate_au_plot_figures Sample.plot_face_mixed Sample.get_figure
      Sample.mixed_table w
      = (Raise (Exception "TypeError" "unsupported operand"), after w es) ∧
    plotted es = zip (take 3 Sample.mixed_table) (seq 0 3) ∧
    warned_frames es
      = filter (λ j, is_error_frame Sample.plot_face_mixed Sample.mixed_table j)
          (seq 0 2) ∧
    summaries es = [].
Proof.
  intros w.
  apply (generate_au_plot_figures_stops_at_first_other_error
           Sample.plot_face_mixed Sample.get_figure Sample.mixed_table 2 7
           (Exception "TypeError" "unsupported operand") w).
  - reflexivity.
  - reflexivity.
  - reflexivity.
  - intros j aus' e' Hj. destruct j as [|[|j]]; [| |lia].
    + intros [= <-]. discriminate.
    + intros [= <-] [= <-]. reflexivity.
Defined.

(** X8 on the sample table: three frames out of five rows. *)
Lemma task_success_calls_witness :
  let w := {| fs := ∅; trace := @nil (@event nat nat nat) |} in
  let figs := omap (rendered Sample.plot_face Sample.get_figure Sample.table)
                (seq 0 (length Sample.table)) in
  let errs := filter (λ k, is_error_frame Sample.plot_face Sample.table k)
                (seq 0 (length Sample.table)) in
  ∃ ims,
    Forall2 (λ fig im, raster Sample.savefig Sample.imread the_config fig = Ok im)
      figs ims ∧
    trace (after w
    [ReadFeat "in.csv"; Logged INFO (LoadedFile "in.csv");
     PlotFace 4 0; PlotFace 0 1;
     Logged WARNING
       (ValueErrorAtFrame 1 (ValueError "AU vector out of range"));
     PlotFace 6 2; PlotFace 0 3;
     Logged WARNING
       (ValueErrorAtFrame 3 (ValueError "AU vector out of range"));
     PlotFace 8 4; Logged WARNING (ErrorSummary 2 [1; 3]);
     GetWriter "out.mp4"; Logged INFO GeneratingVideo;
     AppendData "out.mp4" 4; PltClose 4;
     AppendData "out.mp4" 6; PltClose 6;
     AppendData "out.mp4" 8; PltClose 8;
     WriterClose "out.mp4"; Logged INFO (VideoSaved "out.mp4")])
    = trace w ++
      [ReadFeat "in.csv"; Logged INFO (LoadedFile "in.csv")] ++
      (seq 0 (length Sample.table)
       ≫= frame_events Sample.plot_face Sample.table) ++
      [Logged WARNING (ErrorSummary (length errs) errs);
       GetWriter "out.mp4"; Logged INFO GeneratingVideo] ++
      (zip figs ims
       ≫= λ fi, [AppendData "out.mp4" fi.2; PltClose fi.1]) ++
      [WriterClose "out.mp4"; Logged INFO (VideoSaved "out.mp4")].
Proof.
  intros w.
  apply (task_success_calls Sample.read_feat Sample.plot_face
           Sample.get_figure Sample.savefig Sample.imread Sample.get_writer
           Sample.append_data Sample.close (λ _ _ fs, fs) the_config
           "in.csv" "out.mp4" Sample.table w); reflexivity.
Defined.

(** X9 with a writer that fails on the third frame. *)
Lemma task_write_failure_leaves_writer_open_witness :
  let w := {| fs := ∅; trace := @nil (@event nat nat nat) |} in
  let figs := omap (rendered Sample.plot_face Sample.get_figure Sample.table)
                (seq 0 (length Sample.table)) in
  ∃ es w',
    generate_au_video_from_csv Sample.read_feat Sample.plot_face
      Sample.get_figure Sample.savefig Sample.imread Sample.get_writer
      Sample.append_data_full Sample.close (λ _ _ fs, fs) the_config
      ("in.csv", "out.mp4") w
      = (Raise (Exception "OSError" "No space left on device"), w') ∧
    trace w' = trace w ++ es ∧
    opened es = ["out.mp4"] ∧
    closed es = [] ∧
    released es `prefix_of` figs ∧
    length (released es) < length figs.
Proof.
  intros w.
  apply (task_write_failure_leaves_writer_open Sample.read_feat
           Sample.plot_face Sample.get_figure Sample.savefig Sample.imread
           Sample.get_writer Sample.append_data_full Sample.close
           (λ _ _ fs, fs) the_config "in.csv" "out.mp4" Sample.table
           (Exception "OSError" "No space left on device") w).
  - reflexivity.
  - reflexivity.
  - intros k aus e' Hk.
    destruct k as [|[|[|[|[|k]]]]]; cbn in Hk; try discriminate;
      injection Hk as <-; try discriminate; by intros [= <-].
  - reflexivity.
  - reflexivity.
Defined.

(** ** Facts about the runtime model *)

Example format_02_values :
  format_02 <$> [0; 7; 18; 24; 123] = ["00"; "07"; "18"; "24"; "123"].
Proof. reflexivity. Qed.

Example os_path_join_values :
  os_path_join "F:/smoothed/" "Actor_01" = "F:/smoothed/Actor_01" ∧
  os_path_join "F:/smoothed/Actor_01" "a.csv" = "F:/smoothed/Actor_01/a.csv" ∧
  os_path_join "a" "/b" = "/b" ∧
  os_path_join "" "b" = "b".
Proof. repeat split. Qed.

Example os_path_split_values :
  os_path_split "F:/RAVDESS/Actor_01/02-*.mp4" = ("F:/RAVDESS/Actor_01", "02-*.mp4") ∧
  os_path_split "a//b" = ("a", "b") ∧
  os_path_split "/a" = ("/", "a") ∧
  os_path_split "a" = ("", "a").
Proof. repeat split. Qed.

Example os_path_splitext_values :
  os_path_splitext "03-01-03.smooth.csv" = ("03-01-03.smooth", ".csv") ∧
  os_path_splitext ".bashrc" = (".bashrc", "") ∧
  os_path_splitext "a.b/c" = ("a.b/c", "") ∧
  os_path_splitext "noext" = ("noext", "").
Proof. repeat split. Qed.

Example fnmatchcase_values :
  fnmatchcase "02-*.mp4" <$> ["02-a.mp4"; "02-.mp4"; "01-b.mp4"; "02-mp4"; "02-a.mp4x"]
  = [true; true; false; false; false].
Proof. reflexivity. Qed.

Lemma append_nil_l s : "" +:+ s = s.
Proof. done. Qed.

Lemma append_cons a s t : String a s +:+ t = String a (s +:+ t).
Proof. done. Qed.

Lemma append_nil_r s : s +:+ "" = s.
Proof. induction s as [|a s IH]; [done|]. by rewrite append_cons, IH. Qed.

Lemma append_assoc s t u : (s +:+ t) +:+ u = s +:+ (t +:+ u).
Proof. induction s as [|a s IH]; [done|]. by rewrite !append_cons, IH. Qed.

Lemma append_inj_l s t u : s +:+ t = s +:+ u → t = u.
Proof.
  induction s as [|a s IH]; [done|]. rewrite !append_cons. intros [= H]. auto.
Qed.

Lemma ascii_eqb_true a b : Ascii.eqb a b = true ↔ a = b.
Proof. apply Ascii.eqb_eq. Qed.

Lemma string_eqb_true s t : String.eqb s t = true ↔ s = t.
Proof. apply String.eqb_eq. Qed.

Lemma strip_prefix_Some pre s r : strip_prefix pre s = Some r ↔ s = pre +:+ r.
Proof.
  revert s. induction pre as [|a pre IH]; intros s; simpl.
  - rewrite append_nil_l. split; congruence.
  - rewrite append_cons. destruct s as [|b s]; [done|].
    destruct (Ascii.eqb a b) eqn:Hab.
    + apply ascii_eqb_true in Hab as ->. rewrite IH. split; congruence.
    + split; [done|]. intros [= -> _]. by rewrite Ascii.eqb_refl in Hab.
Qed.

Lemma startswith_append pre s : startswith pre (pre +:+ s) = true.
Proof.
  induction pre as [|a pre IH]; [done|].
  rewrite append_cons. simpl. by rewrite Ascii.eqb_refl.
Qed.

Lemma contains_char_append c s t :
  contains_char c (s +:+ t) = contains_char c s || contains_char c t.
Proof.
  induction s as [|a s IH]; [done|].
  rewrite append_cons. simpl. rewrite IH. by rewrite orb_assoc.
Qed.

Lemma startswith_sep_contains s :
  startswith "/" s = true → contains_char sep s = true.
Proof.
  destruct s as [|a s]; [done|]. cbn [startswith contains_char]. unfold sep.
  rewrite andb_true_r, (Ascii.eqb_sym a). by intros ->.
Qed.

(** The entries of a directory. *)
Lemma child_name_Some d p name :
  child_name d p = Some name ↔
  p = dir_prefix d +:+ name ∧ name ≠ "" ∧ contains_char sep name = false.
Proof.
  unfold child_name.
  destruct (strip_prefix (dir_prefix d) p) as [r|] eqn:Hr.
  - apply strip_prefix_Some in Hr as ->.
    destruct (String.eqb r "") eqn:Hre; simpl.
    + apply string_eqb_true in Hre as ->. split; [done|].
      by intros (<-%append_inj_l & ? & _).
    + destruct (contains_char sep r) eqn:Hc.
      * split; [done|]. intros (->%append_inj_l & _ & ?). congruence.
      * split.
        -- intros [= <-]. split; [done|]. split; [|done].
           intros ->. by rewrite String.eqb_refl in Hre.
        -- by intros (->%append_inj_l & _ & _).
  - split; [done|]. intros (-> & _).
    assert (strip_prefix (dir_prefix d) (dir_prefix d +:+ name) = Some name)
      by by apply strip_prefix_Some.
    congruence.
Qed.

Lemma join_child d name :
  contains_char sep name = false → os_path_join d name = dir_prefix d +:+ name.
Proof.
  intros Hc. unfold os_path_join.
  destruct (startswith "/" name) eqn:Hs; [|done].
  apply startswith_sep_contains in Hs. congruence.
Qed.

Lemma children_spec (fs : gmap string node) d name :
  name ∈ children fs d ↔
  is_Some (fs !! (dir_prefix d +:+ name)) ∧ name ≠ "" ∧
  contains_char sep name = false.
Proof.
  unfold children. rewrite list_elem_of_omap. split.
  - intros (p & Hp & (-> & ? & ?)%child_name_Some).
    apply list_elem_of_fmap in Hp as ([p' n] & -> & Hn%elem_of_map_to_list).
    eauto.
  - intros ([n Hn] & ? & ?). exists (dir_prefix d +:+ name). split.
    + apply list_elem_of_fmap. exists (dir_prefix d +:+ name, n).
      split; [done|]. by apply elem_of_map_to_list.
    + by apply child_name_Some.
Qed.

Lemma NoDup_omap_inj {A B} (f : A → option B) (l : list A) :
  (∀ x y z, f x = Some z → f y = Some z → x = y) →
  NoDup l → NoDup (omap f l).
Proof.
  intros Hinj. induction 1 as [|x l Hx _ IH]; [constructor|].
  cbn [omap list_omap]. destruct (f x) as [z|] eqn:Hz; [|done].
  constructor; [|done].
  intros (y & Hy & Hfy)%list_elem_of_omap.
  by rewrite (Hinj _ _ _ Hz Hfy) in Hx.
Qed.

Lemma NoDup_children (fs : gmap string node) d : NoDup (children fs d).
Proof.
  apply NoDup_omap_inj; [|apply NoDup_fst_map_to_list].
  intros p q name (-> & _)%child_name_Some (-> & _)%child_name_Some. done.
Qed.

(** *** [os.path.split] and [os.makedirs] *)

Lemma rpartition_Some c s h t :
  rpartition c s = Some (h, t) → s = h +:+ String c t.
Proof.
  revert h. induction s as [|a s IH]; intros h; [done|]. cbn [rpartition].
  destruct (rpartition c s) as [[h' t']|].
  - intros [= <- <-]. rewrite append_cons. f_equal. by apply IH.
  - destruct (Ascii.eqb a c) eqn:Hac; [|done].
    apply ascii_eqb_true in Hac as ->. by intros [= <- <-].
Qed.

Lemma all_char_nonempty_startswith s :
  all_char sep s = true → s ≠ "" → ∀ t, startswith "/" (s +:+ t) = true.
Proof.
  destruct s as [|a s]; [done|]. cbn [all_char]. unfold sep.
  intros [->%ascii_eqb_true _]%andb_true_iff _ t. done.
Qed.

Lemma rstrip_spec c s :
  ∃ t, s = rstrip c s +:+ t ∧ all_char c t = true ∧
       (rstrip c s = "" → all_char c s = true).
Proof.
  induction s as [|a s (t & Hs & Ht & He)].
  - by exists "".
  - cbn [rstrip]. destruct (rstrip c s) as [|b r] eqn:Hr.
    + destruct (Ascii.eqb a c) eqn:Hac.
      * exists (String a s). rewrite append_nil_l. split; [done|].
        cbn [all_char]. rewrite Hac, (He eq_refl). done.
      * exists s. split; [done|]. split; [by apply He|done].
    + exists t. rewrite append_cons. split; [by f_equal|]. done.
Qed.

Lemma endswith_rstrip c s : endswith_char c (rstrip c s) = false.
Proof.
  induction s as [|a s IH]; [done|]. cbn [rstrip].
  destruct (rstrip c s) as [|b r] eqn:Hr.
  - destruct (Ascii.eqb a c) eqn:Ha; [done|]. cbn [endswith_char]. done.
  - done.
Qed.

Lemma is_ancestor_trans p q r :
  is_ancestor p q → is_ancestor q r → is_ancestor p r.
Proof.
  intros (r1 & -> & Hne1 & H1) (r2 & -> & Hne2 & H2).
  exists (r1 +:+ r2). split; [by rewrite append_assoc|]. split.
  - destruct r1; [done|]. by rewrite append_cons.
  - destruct H1 as [H1|H1]; [by left|right].
    destruct r1 as [|a r1]; [done|]. rewrite append_cons.
    cbn [startswith] in *. done.
Qed.

Lemma all_char_append c s t :
  all_char c (s +:+ t) = all_char c s && all_char c t.
Proof.
  induction s as [|a s IH]; [done|]. rewrite append_cons. cbn [all_char].
  by rewrite IH, andb_assoc.
Qed.

Lemma endswith_char_all c s : all_char c s = true → s ≠ "" → endswith_char c s = true.
Proof.
  induction s as [|a s IH]; [done|]. cbn [all_char endswith_char].
  intros [Ha Hs]%andb_true_iff _. destruct s; [done|]. by apply IH.
Qed.

(** The head of a path is the path itself (only when the tail is empty),
    empty, or a proper ancestor. *)
Lemma os_path_split_head name head tail :
  os_path_split name = (head, tail) →
  head = "" ∨ (head = name ∧ tail = "") ∨ is_ancestor head name.
Proof.
  unfold os_path_split.
  destruct (rpartition sep name) as [[h t]|] eqn:Hp; [|intros [= <- <-]; by left].
  apply rpartition_Some in Hp as ->.
  destruct (all_char sep (h +:+ "/")) eqn:Hall; intros [= <- <-].
  - destruct t as [|a t].
    + right; left. split; [|done]. done.
    + right; right. exists (String a t).
      replace (h +:+ String sep (String a t))
        with ((h +:+ "/") +:+ String a t) by by rewrite append_assoc.
      split; [done|]. split; [done|]. left.
      apply endswith_char_all; [done|]. by destruct h.
  - destruct (rstrip_spec sep (h +:+ "/")) as (sl & Hsl & Hall' & He).
    destruct (decide (rstrip sep (h +:+ "/") = "")) as [Hr|Hr].
    { rewrite (He Hr) in Hall. done. }
    right; right. exists (sl +:+ t).
    split.
    { rewrite <- append_assoc, <- Hsl. by rewrite append_assoc. }
    assert (sl ≠ "") as Hne.
    { intros ->. rewrite append_nil_r in Hsl.
      pose proof (endswith_rstrip sep (h +:+ "/")) as Hno.
      rewrite <- Hsl in Hno. clear -Hno.
      induction h as [|a h IH]; [done|].
      rewrite append_cons in Hno. cbn [endswith_char] in Hno.
      destruct (h +:+ "/") eqn:E; [by destruct h|by apply IH]. }
    split; [by destruct sl|]. right.
    by apply all_char_nonempty_startswith.
Qed.

Lemma fs_mkdir_Ok name (fs fs' : gmap string node) :
  fs_mkdir name fs = Ok fs' → fs !! name = None ∧ fs' = <[name := Dir]> fs.
Proof.
  unfold fs_mkdir, fs_exists.
  destruct (fs !! name) as [n|] eqn:Hn.
  - rewrite bool_decide_eq_true_2 by eauto. done.
  - rewrite bool_decide_eq_false_2 by (by intros []).
    destruct (_ || _); [by intros [= <-]|]. by destruct (bool_decide _).
Qed.

Lemma length_append s t :
  String.length (s +:+ t) = String.length s + String.length t.
Proof.
  induction s as [|a s IH]; [done|]. rewrite append_cons. cbn [String.length].
  by rewrite IH.
Qed.

Lemma is_ancestor_shorter p name :
  is_ancestor p name → String.length p < String.length name.
Proof.
  intros (rest & -> & Hne & _). rewrite length_append.
  destruct rest; [done|]. cbn [String.length]. lia.
Qed.

(** The head on which [os.makedirs] recurs is a proper ancestor. *)
Lemma makedirs_head_ancestor name head tail head' tail' :
  os_path_split name = (head, tail) →
  (if String.eqb tail "" then os_path_split head else (head, tail))
    = (head', tail') →
  String.eqb head' "" = false → String.eqb tail' "" = false →
  is_ancestor head' name.
Proof.
  intros Hsplit Hsplit' Hh Ht.
  pose proof (os_path_split_head _ _ _ Hsplit) as H1.
  destruct (String.eqb tail "") eqn:Htl.
  - apply String.eqb_eq in Htl as ->.
    pose proof (os_path_split_head _ _ _ Hsplit') as H2.
    destruct H2 as [->|[[_ ->]|H2]]; [done..|].
    destruct H1 as [->|[[-> _]|H1]].
    + by injection Hsplit' as <- <-.
    + done.
    + by eapply is_ancestor_trans.
  - injection Hsplit' as <- <-.
    destruct H1 as [->|[[_ ->]|H1]]; done.
Qed.


Lemma makedirs_fuel_Ok fuel : ∀ name (fs fs' : gmap string node),
  makedirs_fuel fuel name fs = Ok fs' →
  fs !! name = None ∧ fs' !! name = Some Dir ∧
  ∀ p, fs' !! p = fs !! p
       ∨ (fs !! p = None ∧ fs' !! p = Some Dir ∧ (p = name ∨ is_ancestor p name)).
Proof.
  induction fuel as [|fuel IH]; intros name fs fs'.
  - cbn [makedirs_fuel].
    destruct (os_path_split name) as [head tail] eqn:Hsplit.
    destruct (if String.eqb tail "" then os_path_split head else (head, tail))
      as [head' tail'] eqn:Hsplit'.
    destruct (negb (String.eqb head' "") && negb (String.eqb tail' "")
              && negb (fs_exists fs head')); [done|].
    intros [Hn ->]%fs_mkdir_Ok. split; [done|].
    split; [by rewrite lookup_insert_eq|].
    intros p. destruct (decide (p = name)) as [->|Hne].
    + right. rewrite lookup_insert_eq. auto.
    + left. by rewrite lookup_insert_ne.
  - cbn [makedirs_fuel].
    destruct (os_path_split name) as [head tail] eqn:Hsplit.
    destruct (if String.eqb tail "" then os_path_split head else (head, tail))
      as [head' tail'] eqn:Hsplit'.
    destruct (negb (String.eqb head' "") && negb (String.eqb tail' "")
              && negb (fs_exists fs head')) eqn:Hcond.
    2:{ intros [Hn ->]%fs_mkdir_Ok. split; [done|].
        split; [by rewrite lookup_insert_eq|].
        intros p. destruct (decide (p = name)) as [->|Hne].
        + right. rewrite lookup_insert_eq. auto.
        + left. by rewrite lookup_insert_ne. }
    apply andb_true_iff in Hcond as [[Hh Ht]%andb_true_iff _].
    apply negb_true_iff in Hh, Ht.
    pose proof (makedirs_head_ancestor _ _ _ _ _ Hsplit Hsplit' Hh Ht) as Hanc.
    destruct (makedirs_fuel fuel head' fs) as [fs1|e] eqn:Hrec; [|done].
    apply IH in Hrec as (Hh1 & Hh2 & Hrec).
    intros [Hn ->]%fs_mkdir_Ok.
    assert (fs !! name = None) as Hn0.
    { destruct (Hrec name) as [<-|(? & _)]; done. }
    split; [done|]. split; [by rewrite lookup_insert_eq|].
    intros p. destruct (decide (p = name)) as [->|Hne].
    + right. rewrite lookup_insert_eq. auto.
    + rewrite lookup_insert_ne by done.
      destruct (Hrec p) as [?|(? & ? & [->|?])]; [by left|right..].
      * auto.
      * split; [done|]. split; [done|]. right. by eapply is_ancestor_trans.
Qed.

(** The bound on the recursion of [os.makedirs] is never met: any fuel
    from the length of the path on gives the same result. *)
Lemma makedirs_fuel_enough fuel1 : ∀ fuel2 name (fs : gmap string node),
  String.length name ≤ fuel1 → String.length name ≤ fuel2 →
  makedirs_fuel fuel1 name fs = makedirs_fuel fuel2 name fs.
Proof.
  induction fuel1 as [|fuel1 IH]; intros fuel2 name fs H1 H2.
  - destruct name; [|cbn in H1; lia]. by destruct fuel2.
  - destruct fuel2 as [|fuel2].
    { destruct name; [done|cbn in H2; lia]. }
    cbn [makedirs_fuel].
    destruct (os_path_split name) as [head tail] eqn:Hsplit.
    destruct (if String.eqb tail "" then os_path_split head else (head, tail))
      as [head' tail'] eqn:Hsplit'.
    destruct (negb (String.eqb head' "") && negb (String.eqb tail' "")
              && negb (fs_exists fs head')) eqn:Hcond; [|done].
    apply andb_true_iff in Hcond as [[Hh Ht]%andb_true_iff _].
    apply negb_true_iff in Hh, Ht.
    pose proof (is_ancestor_shorter _ _
                  (makedirs_head_ancestor _ _ _ _ _ Hsplit Hsplit' Hh Ht)).
    rewrite (IH fuel2) by lia. done.
Qed.

Lemma fs_makedirs_no_recursion_error name (fs : gmap string node) msg :
  fs_makedirs name fs ≠ Raise (Exception "RecursionError" msg).
Proof.
  unfold fs_makedirs.
  assert (∀ fuel nm, String.length nm ≤ fuel →
            makedirs_fuel fuel nm fs ≠ Raise (Exception "RecursionError" msg))
    as H; [|by apply H].
  induction fuel as [|fuel IH]; intros nm Hlen.
  - destruct nm; [|cbn in Hlen; lia]. cbn. unfold fs_mkdir.
    destruct (fs_exists fs ""); [done|]. done.
  - cbn [makedirs_fuel].
    destruct (os_path_split nm) as [head tail] eqn:Hsplit.
    destruct (if String.eqb tail "" then os_path_split head else (head, tail))
      as [head' tail'] eqn:Hsplit'.
    assert (∀ m, fs_mkdir nm m ≠ Raise (Exception "RecursionError" msg)) as Hmk.
    { intros m. unfold fs_mkdir. destruct (fs_exists m nm); [done|].
      destruct (_ || _); [done|]. by destruct (fs_exists m _). }
    destruct (negb (String.eqb head' "") && negb (String.eqb tail' "")
              && negb (fs_exists fs head')) eqn:Hcond; [|apply Hmk].
    apply andb_true_iff in Hcond as [[Hh Ht]%andb_true_iff _].
    apply negb_true_iff in Hh, Ht.
    pose proof (is_ancestor_shorter _ _
                  (makedirs_head_ancestor _ _ _ _ _ Hsplit Hsplit' Hh Ht)).
    specialize (IH head' ltac:(lia)).
    destruct (makedirs_fuel fuel head' fs) as [m|e]; [apply Hmk|].
    intros [= ->]. done.
Qed.

(** *** Folder names *)

Lemma contains_sep_digits d :
  contains_char sep (NilEmpty.string_of_uint d) = false.
Proof. induction d; cbn [NilEmpty.string_of_uint contains_char]; done. Qed.

Lemma contains_sep_str i : contains_char sep (str i) = false.
Proof.
  unfold str, NilZero.string_of_uint.
  destruct (Nat.to_uint i) eqn:E; try (rewrite <- E; apply contains_sep_digits).
  done.
Qed.

Lemma contains_sep_format_02 i : contains_char sep (format_02 i) = false.
Proof.
  unfold format_02. destruct (_ <? _).
  - rewrite contains_char_append, contains_sep_str. done.
  - apply contains_sep_str.
Qed.

Lemma to_uint_normal i : Nat.to_uint i = Decimal.unorm (Nat.to_uint i).
Proof.
  rewrite <- (Unsigned.of_to i) at 1. apply Unsigned.to_of.
Qed.

Lemma to_uint_nonnil i : Nat.to_uint i ≠ Decimal.Nil.
Proof. rewrite to_uint_normal. apply unorm_nonnil. Qed.

Lemma str_inj i j : str i = str j → i = j.
Proof.
  unfold str. intros H. apply Unsigned.to_uint_inj.
  apply (f_equal NilZero.uint_of_string) in H.
  rewrite !NilZero.usu in H by apply to_uint_nonnil. congruence.
Qed.

Lemma str_no_leading_zero j c s : str j ≠ String "0" (String c s).
Proof.
  unfold str. intros H.
  pose proof (to_uint_normal j) as Hn. pose proof (to_uint_nonnil j) as Hnil.
  destruct (Nat.to_uint j) as [|d| | | | | | | | | ] eqn:E; try done.
  cbn in H. injection H as H.
  rewrite unorm_D0 in Hn.
  destruct (Decimal.nzhead d) eqn:Hz.
  - unfold Decimal.unorm in Hn. rewrite Hz in Hn. injection Hn as ->. done.
  - rewrite unorm_nzhead in Hn by congruence.
    symmetry in Hn. by apply nzhead_nonzero in Hn.
  - rewrite unorm_nzhead in Hn by congruence. rewrite Hz in Hn. done.
  - rewrite unorm_nzhead in Hn by congruence. rewrite Hz in Hn. done.
  - rewrite unorm_nzhead in Hn by congruence. rewrite Hz in Hn. done.
  - rewrite unorm_nzhead in Hn by congruence. rewrite Hz in Hn. done.
  - rewrite unorm_nzhead in Hn by congruence. rewrite Hz in Hn. done.
  - rewrite unorm_nzhead in Hn by congruence. rewrite Hz in Hn. done.
  - rewrite unorm_nzhead in Hn by congruence. rewrite Hz in Hn. done.
  - rewrite unorm_nzhead in Hn by congruence. rewrite Hz in Hn. done.
  - rewrite unorm_nzhead in Hn by congruence. rewrite Hz in Hn. done.
Qed.

Lemma format_02_inj i j : format_02 i = format_02 j → i = j.
Proof.
  unfold format_02.
  destruct (String.length (str i) <? 2) eqn:Hi,
           (String.length (str j) <? 2) eqn:Hj.
  - intros H%append_inj_l. by apply str_inj.
  - intros H. exfalso. apply Nat.ltb_ge in Hj.
    destruct (str i) as [|c s] eqn:Es.
    + rewrite <- H in Hj. vm_compute in Hj. lia.
    + by apply (str_no_leading_zero j c s).
  - intros H. exfalso. apply Nat.ltb_ge in Hi.
    destruct (str j) as [|c s] eqn:Es.
    + rewrite H in Hi. vm_compute in Hi. lia.
    + by apply (str_no_leading_zero i c s).
  - apply str_inj.
Qed.

Lemma endswith_char_append c s t :
  t ≠ "" → endswith_char c (s +:+ t) = endswith_char c t.
Proof.
  intros Ht. induction s as [|a s IH]; [done|].
  rewrite append_cons. cbn [endswith_char].
  destruct (s +:+ t) eqn:E; [|done]. by destruct s, t.
Qed.

Lemma endswith_contains c s :
  endswith_char c s = true → contains_char c s = true.
Proof.
  induction s as [|a s IH]; [done|]. cbn [endswith_char contains_char].
  destruct s as [|b s].
  - intros ->. done.
  - intros H. rewrite (IH H). apply orb_true_r.
Qed.

(** The folder of actor [i] under a root. *)
Lemma actor_folder_eq root i :
  os_path_join root ("Actor_" +:+ format_02 i)
  = dir_prefix root +:+ "Actor_" +:+ format_02 i.
Proof.
  apply join_child. rewrite contains_char_append, contains_sep_format_02. done.
Qed.

Lemma actor_folder_inj root i j :
  os_path_join root ("Actor_" +:+ format_02 i)
  = os_path_join root ("Actor_" +:+ format_02 j) → i = j.
Proof.
  rewrite !actor_folder_eq. intros H%append_inj_l%append_inj_l.
  by apply format_02_inj.
Qed.

Lemma actor_folder_not_ancestor root i j :
  ¬ is_ancestor (os_path_join root ("Actor_" +:+ format_02 i))
      (os_path_join root ("Actor_" +:+ format_02 j)).
Proof.
  rewrite !actor_folder_eq. intros (rest & Heq & Hne & Hsep).
  rewrite append_assoc in Heq. apply append_inj_l in Heq.
  assert (contains_char sep ("Actor_" +:+ format_02 j) = false) as Hj
    by (rewrite contains_char_append, contains_sep_format_02; done).
  assert (contains_char sep ("Actor_" +:+ format_02 i) = false) as Hi
    by (rewrite contains_char_append, contains_sep_format_02; done).
  rewrite Heq, contains_char_append in Hj.
  apply orb_false_iff in Hj as [_ Hrest].
  destruct Hsep as [Hend|Hstart].
  - rewrite endswith_char_append in Hend by done.
    apply endswith_contains in Hend. congruence.
  - apply startswith_sep_contains in Hstart. congruence.
Qed.

(** *** [glob] *)

Lemma glob1_spec (fs : gmap string node) d pat name :
  startswith "." pat = false →
  name ∈ glob1 fs d pat ↔
  fs_isdir fs d = true ∧ name ∈ children fs d ∧
  startswith "." name = false ∧ fnmatchcase pat name = true.
Proof.
  intros Hpat. unfold glob1, fs_listdir, fs_isdir. rewrite Hpat.
  rewrite !list_elem_of_filter.
  destruct (fs !! d) as [[|data]|].
  - rewrite negb_True, Is_true_false, Is_true_true. tauto.
  - rewrite elem_of_nil. split; [tauto|]. by intros [? _].
  - rewrite elem_of_nil. split; [tauto|]. by intros [? _].
Qed.

Lemma glob_glob_in_dir (fs : gmap string node) pathname d b :
  os_path_split pathname = (d, b) →
  has_magic pathname = true →
  String.eqb d "" = false →
  has_magic d = false →
  glob_glob fs pathname = os_path_join d <$> glob1 fs d b.
Proof.
  intros Hsplit Hm Hd Hmd. unfold glob_glob.
  by rewrite Hsplit, Hm, Hd, Hmd.
Qed.

(** The paths [glob] gives for a pattern in the directory [d]: the entries
    of [d] in the store whose name matches. *)
Lemma glob_paths_spec (fs : gmap string node) d pat p :
  startswith "." pat = false →
  p ∈ os_path_join d <$> glob1 fs d pat ↔
  fs_isdir fs d = true ∧ is_Some (fs !! p) ∧
  ∃ name, child_name d p = Some name ∧
          startswith "." name = false ∧ fnmatchcase pat name = true.
Proof.
  intros Hpat. rewrite list_elem_of_fmap. split.
  - intros (name & -> & Hn). apply glob1_spec in Hn as (Hd & Hc & Hh & Hm);
      [|done].
    apply children_spec in Hc as (Hk & Hne & Hs).
    rewrite join_child by done. split; [done|]. split; [done|].
    exists name. split; [|done]. by apply child_name_Some.
  - intros (Hd & Hk & name & (-> & Hne & Hs)%child_name_Some & Hh & Hm).
    exists name. split; [by rewrite join_child|].
    apply glob1_spec; [done|]. split; [done|]. split; [|done].
    by apply children_spec.
Qed.

Lemma NoDup_glob_paths (fs : gmap string node) d pat :
  NoDup (os_path_join d <$> glob1 fs d pat).
Proof.
  apply NoDup_fmap_2_strong.
  - intros n1 n2 H1 H2 Heq.
    assert (∀ n, n ∈ glob1 fs d pat → contains_char sep n = false) as Hsep.
    { intros n Hn. unfold glob1 in Hn.
      apply list_elem_of_filter in Hn as [_ Hn].
      assert (n ∈ match fs_listdir fs d with Ok names => names | Raise _ => [] end)
        as Hn'.
      { destruct (startswith "." pat); [done|].
        by apply list_elem_of_filter in Hn as [_ Hn]. }
      unfold fs_listdir in Hn'.
      destruct (fs !! d) as [[|?]|]; try by apply elem_of_nil in Hn'.
      by apply children_spec in Hn' as (_ & _ & ?). }
    rewrite !join_child in Heq by auto. by apply append_inj_l in Heq.
  - unfold glob1. apply NoDup_filter.
    assert (NoDup match fs_listdir fs d with Ok names => names | Raise _ => [] end)
      as Hnd.
    { unfold fs_listdir. destruct (fs !! d) as [[|?]|]; try apply NoDup_nil_2.
      apply NoDup_children. }
    destruct (startswith "." pat); [done|]. by apply NoDup_filter.
Qed.

(** *** [os.path.basename] and [os.path.splitext] *)

Lemma rpartition_None c s : contains_char c s = false → rpartition c s = None.
Proof.
  induction s as [|a s IH]; [done|]. cbn [contains_char rpartition].
  intros [Ha Hs]%orb_false_iff. by rewrite (IH Hs), Ha.
Qed.

Lemma rpartition_append c h t :
  contains_char c t = false → rpartition c (h +:+ String c t) = Some (h, t).
Proof.
  intros Ht. induction h as [|a h IH].
  - rewrite append_nil_l. cbn [rpartition].
    by rewrite (rpartition_None _ _ Ht), Ascii.eqb_refl.
  - rewrite append_cons. cbn [rpartition]. by rewrite IH.
Qed.

Lemma endswith_char_snoc c s :
  endswith_char c s = true → ∃ s', s = s' +:+ String c "".
Proof.
  induction s as [|a s IH]; [done|]. destruct s as [|b s].
  - cbn. intros ->%Ascii.eqb_eq. by exists "".
  - intros H. destruct (IH H) as [s' ->]. exists (String a s').
    by rewrite append_cons.
Qed.

Lemma dir_prefix_cases d : dir_prefix d = "" ∨ ∃ d', dir_prefix d = d' +:+ "/".
Proof.
  unfold dir_prefix. destruct (String.eqb d "") eqn:Hd.
  - left. by apply String.eqb_eq in Hd.
  - cbn [orb]. destruct (endswith_char sep d) eqn:He.
    + right. by apply endswith_char_snoc.
    + right. by exists d.
Qed.

Lemma os_path_basename_join d name :
  contains_char sep name = false →
  os_path_basename (os_path_join d name) = name.
Proof.
  intros Hn. rewrite join_child by done. unfold os_path_basename.
  destruct (dir_prefix_cases d) as [->|[d' ->]].
  - by rewrite append_nil_l, rpartition_None.
  - rewrite append_assoc, append_cons, append_nil_l.
    by rewrite rpartition_append.
Qed.

Lemma os_path_splitext_name base ext :
  contains_char sep base = false →
  contains_char sep ext = false →
  contains_char "." ext = false →
  os_path_splitext (base +:+ "." +:+ ext)
  = if all_char "." base then (base +:+ "." +:+ ext, "")
    else (base, "." +:+ ext).
Proof.
  intros Hb He Hd. unfold os_path_splitext.
  rewrite rpartition_None.
  2:{ rewrite contains_char_append, Hb, append_cons, append_nil_l.
      cbn [contains_char orb]. by rewrite He. }
  rewrite append_cons, append_nil_l, rpartition_append by done.
  by destruct (all_char "." base).
Qed.

Lemma os_path_splitext_dots dots rest :
  contains_char sep (dots +:+ rest) = false →
  all_char "." dots = true →
  contains_char "." rest = false →
  os_path_splitext (dots +:+ rest) = (dots +:+ rest, "").
Proof.
  intros Hs Hd Hr. unfold os_path_splitext. rewrite rpartition_None by done.
  destruct (rpartition "." (dots +:+ rest)) as [[stem ext]|] eqn:Hp; [|done].
  enough (all_char "." stem = true) as -> by done.
  clear Hs. revert stem Hp. induction dots as [|a dots IH]; intros stem.
  - rewrite append_nil_l, rpartition_None by done. done.
  - rewrite append_cons. cbn [rpartition all_char] in *.
    apply andb_true_iff in Hd as [Ha Hd].
    destruct (rpartition "." (dots +:+ rest)) as [[h t]|].
    + intros [= <- <-]. cbn [all_char]. by rewrite Ha, (IH Hd h).
    + rewrite Ha. by intros [= <- <-].
Qed.

(** *** The cleanup script *)

Module Cleanup.
Import RemoveVideoOnlyFile.

Lemma range_1_25_path_ok : Forall path_ok (range 1 25).
Proof. repeat constructor. Qed.

Lemma after_emit e (w : world) :
  emit e w = (Ok tt, {| fs := fs w; trace := trace w ++ [e] |}).
Proof. done. Qed.

Lemma os_remove_file file data (w : world) :
  fs w !! file = Some (File data) →
  os_remove file w
    = (Ok tt, {| fs := delete file (fs w); trace := trace w ++ [Remove file] |}).
Proof.
  intros Hf. unfold os_remove, bind, emit, fs_remove. cbn. by rewrite Hf.
Qed.

Lemma delete_files_run files : ∀ cnt (w : world),
  NoDup files →
  (∀ f, f ∈ files → ∃ data, fs w !! f = Some (File data)) →
  ∃ fs',
    delete_files files cnt w
      = (Ok (cnt + length files),
         {| fs := fs';
            trace := trace w ++ (files ≫= λ f, [Remove f; Print (Deleted f)]) |}) ∧
    (∀ p, fs' !! p = if bool_decide (p ∈ files) then None else fs w !! p) ∧
    size fs' + length files = size (fs w).
Proof.
  induction files as [|f files IH]; intros cnt w Hnd Hfiles.
  - exists (fs w). cbn. rewrite Nat.add_0_r, app_nil_r.
    split; [by destruct w|]. split; [|lia].
    intros p. by rewrite bool_decide_eq_false_2 by apply not_elem_of_nil.
  - apply NoDup_cons in Hnd as [Hf Hnd].
    destruct (Hfiles f) as [data Hdata]; [left|].
    unfold delete_files. cbn [for_each]. unfold bind at 1. unfold bind at 1.
    rewrite (os_remove_file _ _ _ Hdata). unfold bind at 1. unfold print.
    rewrite after_emit. unfold ret at 1. cbn [fs trace].
    match goal with |- context [for_each files ?b ?c ?w1] =>
      destruct (IH c w1 Hnd) as (fs' & Hrun & Hlk & Hsz) end.
    { intros g Hg. cbn [fs]. rewrite lookup_delete_ne.
      - apply Hfiles. by right.
      - intros ->. done. }
    unfold delete_files, print in Hrun. cbn [fs trace] in *. rewrite Hrun.
    exists fs'. split; [|split].
    + f_equal; [f_equal; cbn; lia|]. f_equal. cbn [mbind list_bind].
      by rewrite <- !app_assoc.
    + intros p. rewrite Hlk. destruct (decide (p = f)) as [->|Hne].
      * rewrite (bool_decide_eq_true_2 (f ∈ f :: files)) by left.
        rewrite lookup_delete_eq. by destruct (bool_decide _).
      * rewrite lookup_delete_ne by done.
        destruct (bool_decide (p ∈ files)) eqn:Hp.
        -- apply bool_decide_eq_true in Hp.
           by rewrite bool_decide_eq_true_2 by by right.
        -- apply bool_decide_eq_false in Hp.
           rewrite bool_decide_eq_false_2; [done|].
           rewrite elem_of_cons. tauto.
    + rewrite map_size_delete_Some in Hsz by eauto.
      assert (size (fs w) ≠ 0); [|cbn; lia].
      intros H0%map_size_empty_inv. by rewrite H0 in Hdata.
Qed.

Lemma script_loops :
  script =
    (let* delete_counter :=
       for_each (range 1 25)
         (λ i delete_counter,
            let* files_to_delete := glob (file_pattern i) in
            delete_files files_to_delete delete_counter) 0 in
     print (FilesDeleted delete_counter);;
     ret delete_counter).
Proof. reflexivity. Qed.

Lemma glob_selected (m : gmap string node) i p :
  path_ok i →
  p ∈ glob_glob m (file_pattern i) ↔ is_Some (m !! p) ∧ selected m i p = true.
Proof.
  intros (Hsplit & Hm & Hd & Hmd).
  rewrite (glob_glob_in_dir _ _ _ _ Hsplit Hm Hd Hmd).
  rewrite glob_paths_spec by done. unfold selected.
  destruct (fs_isdir m (full_path i)); cbn [andb].
  - destruct (child_name (full_path i) p) as [name|].
    + rewrite andb_true_iff, negb_true_iff. split.
      * intros (_ & ? & name' & [= <-] & ? & ?). done.
      * intros (? & ? & ?). split; [done|]. split; [done|]. by exists name.
    + split; [by intros (_ & _ & ? & ? & _)|by intros [_ ?]].
  - split; [by intros [? _]|by intros [_ ?]].
Qed.

Lemma targeted_app m acts1 acts2 p :
  targeted m (acts1 ++ acts2) p = targeted m acts1 p || targeted m acts2 p.
Proof. apply existsb_app. Qed.

(** The loop over the actors, from a store in which the entries selected
    for the actors [done] are gone. *)
Lemma actors_loop m acts : ∀ done cnt (w : world),
  Forall path_ok acts →
  (∀ p, targeted m (done ++ acts) p = true → m !! p ≠ Some Dir) →
  (∀ p, fs w !! p = if targeted m done p then None else m !! p) →
  ∃ fs' es,
    for_each acts
      (λ i delete_counter,
         let* files_to_delete := glob (file_pattern i) in
         delete_files files_to_delete delete_counter) cnt w
      = (Ok (cnt + length (removed es)),
         {| fs := fs'; trace := trace w ++ es |}) ∧
    (∀ p, fs' !! p = if targeted m (done ++ acts) p then None else m !! p) ∧
    NoDup (removed es) ∧
    (∀ p, p ∈ removed es ↔ is_Some (fs w !! p) ∧ targeted m acts p = true) ∧
    globbed es = file_pattern <$> acts ∧
    Forall (λ e, ∀ n, e ≠ Print (FilesDeleted n)) es.
Proof.
  induction acts as [|i acts IH]; intros done cnt w Hok Hdir Hw.
  - exists (fs w), []. cbn. rewrite Nat.add_0_r, !app_nil_r.
    split; [by destruct w|]. split; [done|]. split; [constructor|].
    split; [|done]. intros p. rewrite elem_of_nil. split; [done|]. by intros [_ ?].
  - apply Forall_cons in Hok as [Hi Hok].
    cbn [for_each]. unfold bind at 1. unfold bind at 1. unfold glob at 1.
    unfold bind at 1. rewrite after_emit. cbn [fs trace].
    set (files := glob_glob (fs w) (file_pattern i)).
    set (w1 := {| fs := fs w; trace := trace w ++ [Glob (file_pattern i)] |}).
    assert (fs_isdir (fs w) (full_path i) = fs_isdir m (full_path i)) as Hisdir.
    { unfold fs_isdir. rewrite Hw.
      destruct (targeted m done (full_path i)) eqn:Ht; [|done].
      destruct (m !! full_path i) as [[|?]|] eqn:Hl; try done.
      exfalso. apply (Hdir (full_path i)); [|done].
      by rewrite targeted_app, Ht. }
    assert (∀ p, p ∈ files ↔
                 targeted m done p = false ∧ is_Some (m !! p) ∧
                 selected m i p = true) as Hfiles.
    { intros p. unfold files. rewrite (glob_selected _ _ _ Hi), Hw.
      unfold selected. rewrite Hisdir.
      destruct (targeted m done p); [|tauto].
      split; [by intros [[? [=]] _]|by intros [? _]]. }
    destruct (delete_files_run files cnt w1) as (fs1 & Hrun & Hfs1 & Hsz).
    { unfold files. destruct Hi as (Hsplit & Hm & Hd & Hmd).
      rewrite (glob_glob_in_dir _ _ _ _ Hsplit Hm Hd Hmd).
      apply NoDup_glob_paths. }
    { intros f (Hnt & [n Hn] & Hsel)%Hfiles. cbn [fs w1]. rewrite Hw, Hnt, Hn.
      destruct n as [|data]; [|by eauto].
      exfalso. apply (Hdir f); [|done].
      rewrite targeted_app. cbn [targeted existsb]. rewrite Hsel.
      by rewrite orb_true_r. }
    rewrite Hrun. cbn [fs w1] in Hfs1, Hsz.
    match goal with |- context [for_each acts ?b ?c ?w2] =>
      destruct (IH (done ++ [i]) c w2 Hok) as
        (fs' & es & Hrun' & Hfs' & Hnd & Hrem & Hglob & Hpr) end.
    { intros p. rewrite <- app_assoc. apply Hdir. }
    { intros p. cbn [fs]. rewrite Hfs1, Hw, targeted_app.
      cbn [targeted existsb]. rewrite orb_false_r.
      destruct (bool_decide (p ∈ files)) eqn:Hp.
      - apply bool_decide_eq_true, Hfiles in Hp as (-> & _ & ->). done.
      - apply bool_decide_eq_false in Hp.
        destruct (targeted m done p) eqn:Ht; [done|]. cbn [orb].
        destruct (selected m i p) eqn:Hsel; [|done].
        destruct (m !! p) as [n|] eqn:Hn; [|done].
        exfalso. apply Hp, Hfiles. eauto. }
    rewrite Hrun'. cbn [fs trace w1] in *.
    set (es1 := files ≫= λ f, [Remove f; Print (Deleted f)]) in *.
    assert (removed es1 = files) as Hrem1.
    { unfold es1, removed. clear. induction files as [|f files IHf]; [done|].
      cbn. by rewrite IHf. }
    assert (globbed es1 = []) as Hglob1.
    { unfold es1, globbed. clear. induction files as [|f files IHf]; [done|].
      cbn. by rewrite IHf. }
    exists fs', (Glob (file_pattern i) :: es1 ++ es).
    assert (removed (Glob (file_pattern i) :: es1 ++ es) = files ++ removed es)
      as Hremall.
    { unfold removed in *. cbn [omap list_omap]. by rewrite omap_app, Hrem1. }
    rewrite Hremall.
    split; [|split; [|split; [|split; [|split]]]].
    + f_equal; [f_equal; rewrite length_app; lia|].
      f_equal. by rewrite <- !app_assoc.
    + intros p. rewrite Hfs'. by rewrite <- app_assoc.
    + apply NoDup_app. split; [|split; [|done]].
      * unfold files. destruct Hi as (Hsplit & Hm & Hd & Hmd).
        rewrite (glob_glob_in_dir _ _ _ _ Hsplit Hm Hd Hmd).
        apply NoDup_glob_paths.
      * intros p Hp [[n Hn] _]%Hrem. rewrite Hfs1 in Hn.
        by rewrite bool_decide_eq_true_2 in Hn.
    + intros p. rewrite elem_of_app, Hrem, Hfiles, Hfs1, Hw.
      cbn [targeted existsb]. fold (targeted m acts p).
      destruct (targeted m done p); [|].
      { split; [intros [[[=] _]|[[? H] _]]|intros [[? H] _]];
          try done; destruct (bool_decide _); done. }
      destruct (bool_decide (p ∈ files)) eqn:Hp.
      * apply bool_decide_eq_true, Hfiles in Hp as (_ & ? & ->).
        cbn [orb]. split; [done|]. intros _. by left.
      * apply bool_decide_eq_false in Hp. rewrite Hfiles in Hp.
        destruct (selected m i p) eqn:Hs; cbn [orb].
        -- split; [intros [(_ & ? & _)|[? _]]; done|].
           intros [? _]. left. done.
        -- split; [intros [(_ & _ & [=])|?]; done|]. intros ?. by right.
    + unfold globbed in *. cbn [omap list_omap]. rewrite omap_app, Hglob1.
      cbn. by rewrite Hglob.
    + constructor; [done|]. apply Forall_app. split; [|done].
      unfold es1. clear. induction files as [|f files IHf]; [constructor|].
      cbn. by repeat constructor.
Qed.

(** The names the pattern ["02-*.mp4"] matches. *)
Lemma fnmatchcase_star pat name :
  fnmatchcase (String "*" pat) name = true ↔
  ∃ pre suf, name = pre +:+ suf ∧ fnmatchcase pat suf = true.
Proof.
  cbn [fnmatchcase]. rewrite Ascii.eqb_refl.
  induction name as [|a name IH].
  - rewrite orb_false_r. split.
    + intros H. by exists "", "".
    + intros ([|??] & suf & Heq & H); [|done].
      rewrite append_nil_l in Heq. by subst.
  - rewrite orb_true_iff, IH. split.
    + intros [H|(pre & suf & -> & H)].
      * by exists "", (String a name).
      * by exists (String a pre), suf.
    + intros ([|b pre] & suf & Heq & H).
      * rewrite append_nil_l in Heq. subst. by left.
      * rewrite append_cons in Heq. injection Heq as -> ->.
        right. by exists pre, suf.
Qed.

Lemma fnmatchcase_literal c pat name :
  Ascii.eqb c "*" = false → Ascii.eqb c "?" = false →
  fnmatchcase (String c pat) name = true ↔
  ∃ rest, name = String c rest ∧ fnmatchcase pat rest = true.
Proof.
  intros Hs Hq. cbn [fnmatchcase]. rewrite Hs, Hq.
  destruct name as [|d rest].
  - split; [done|]. by intros (? & ? & _).
  - rewrite andb_true_iff, ascii_eqb_true. split.
    + intros [<- H]. by exists rest.
    + intros (? & [= <- <-] & H). done.
Qed.

Lemma fnmatchcase_mp4 name : fnmatchcase ".mp4" name = true ↔ name = ".mp4".
Proof.
  rewrite fnmatchcase_literal by done. split.
  - intros (r1 & -> & H). apply fnmatchcase_literal in H as (r2 & -> & H); [|done..].
    apply fnmatchcase_literal in H as (r3 & -> & H); [|done..].
    apply fnmatchcase_literal in H as (r4 & -> & H); [|done..].
    cbn [fnmatchcase] in H. by apply string_eqb_true in H as ->.
  - intros ->. by exists "mp4".
Qed.

Lemma fnmatchcase_02_mp4 name :
  fnmatchcase "02-*.mp4" name = true ↔ ∃ mid, name = "02-" +:+ mid +:+ ".mp4".
Proof.
  rewrite fnmatchcase_literal by done. split.
  - intros (r1 & -> & H). apply fnmatchcase_literal in H as (r2 & -> & H); [|done..].
    apply fnmatchcase_literal in H as (r3 & -> & H); [|done..].
    apply fnmatchcase_star in H as (pre & suf & -> & ->%fnmatchcase_mp4).
    by exists pre.
  - intros [mid ->]. exists ("2-" +:+ mid +:+ ".mp4"). split; [done|].
    apply fnmatchcase_literal; [done..|].
    exists ("-" +:+ mid +:+ ".mp4"). split; [done|].
    apply fnmatchcase_literal; [done..|].
    exists (mid +:+ ".mp4"). split; [done|].
    apply fnmatchcase_star. exists mid, ".mp4". done.
Qed.

Lemma format_02_nonempty i : format_02 i ≠ "".
Proof.
  unfold format_02. destruct (String.length (str i) <? 2) eqn:Hl; [done|].
  apply Nat.ltb_ge in Hl. intros Heq. rewrite Heq in Hl. cbn in Hl. lia.
Qed.

Lemma full_path_eq i : full_path i = "F:/RAVDESS/Actor_" +:+ format_02 i.
Proof. done. Qed.

Lemma dir_prefix_full_path i :
  dir_prefix (full_path i) = "F:/RAVDESS/Actor_" +:+ format_02 i +:+ "/".
Proof.
  unfold dir_prefix. rewrite full_path_eq.
  assert (endswith_char sep ("F:/RAVDESS/Actor_" +:+ format_02 i) = false) as ->.
  { rewrite endswith_char_append by apply format_02_nonempty.
    destruct (endswith_char sep (format_02 i)) eqn:He; [|done].
    apply endswith_contains in He. by rewrite contains_sep_format_02 in He. }
  rewrite append_assoc. done.
Qed.

(** The entries the script aims at, spelled out. *)
Lemma targeted_spec (m : gmap string node) p :
  targeted m (range 1 25) p = true ↔
  ∃ i mid,
    1 ≤ i ≤ 24 ∧
    m !! ("F:/RAVDESS/Actor_" +:+ format_02 i) = Some Dir ∧
    p = "F:/RAVDESS/Actor_" +:+ format_02 i +:+ "/02-" +:+ mid +:+ ".mp4" ∧
    contains_char sep mid = false.
Proof.
  unfold targeted. rewrite existsb_exists. split.
  - intros (i & Hi & Hsel). apply list_elem_of_In, elem_of_seq in Hi.
    unfold selected in Hsel. apply andb_true_iff in Hsel as [Hdir Hsel].
    destruct (child_name (full_path i) p) as [name|] eqn:Hc; [|done].
    apply andb_true_iff in Hsel as [_ [mid ->]%fnmatchcase_02_mp4].
    apply child_name_Some in Hc as (-> & _ & Hsep).
    exists i, mid. split; [lia|]. split.
    { unfold fs_isdir in Hdir. rewrite full_path_eq in Hdir.
      by destruct (m !! _) as [[|?]|]. }
    split.
    { rewrite dir_prefix_full_path, !append_assoc. done. }
    rewrite !contains_char_append in Hsep.
    by apply orb_false_iff in Hsep as [_ [? _]%orb_false_iff].
  - intros (i & mid & Hi & Hdir & -> & Hsep). exists i. split.
    { apply list_elem_of_In, elem_of_seq. lia. }
    unfold selected, fs_isdir. rewrite full_path_eq, Hdir. cbn [andb].
    assert (child_name ("F:/RAVDESS/Actor_" +:+ format_02 i)
              ("F:/RAVDESS/Actor_" +:+ format_02 i +:+ "/02-" +:+ mid +:+ ".mp4")
            = Some ("02-" +:+ mid +:+ ".mp4")) as ->.
    { apply child_name_Some. rewrite <- full_path_eq, dir_prefix_full_path.
      split; [by rewrite !append_assoc|]. split; [done|].
      rewrite !contains_char_append, Hsep. done. }
    apply andb_true_iff. split; [done|]. apply fnmatchcase_02_mp4. by exists mid.
Qed.

(** C4.  The entries the script aims at ([targeted]) are the entries
    named ["02-" ++ mid ++ ".mp4"] of the directories [Actor_01] to
    [Actor_24] under the dataset root.  When none of them is a directory,
    the script runs through: the entries it removes are exactly those, each
    once; every other entry of the store is left as it was; and the number
    it prints at the end is the number of files removed.  In particular an
    actor directory holding ["02-a.mp4"], ["01-b.mp4"] and ["02-c.mp4"]
    loses the two ["02-"] files, keeps ["01-b.mp4"], and the script prints
    the count 2. *)
Theorem cleanup_deletes_exactly_matches :
  (∀ (m : gmap string node) p,
     targeted m (range 1 25) p = true ↔
     ∃ i mid,
       1 ≤ i ≤ 24 ∧
       m !! ("F:/RAVDESS/Actor_" +:+ format_02 i) = Some Dir ∧
       p = "F:/RAVDESS/Actor_" +:+ format_02 i +:+ "/02-" +:+ mid +:+ ".mp4" ∧
       contains_char sep mid = false) ∧
  (∀ w : world,
     (∀ p, targeted (fs w) (range 1 25) p = true → fs w !! p ≠ Some Dir) →
     ∃ n fs' es,
       script w = (Ok n, {| fs := fs'; trace := trace w ++ es |}) ∧
       (∀ p, fs' !! p
             = if targeted (fs w) (range 1 25) p then None else fs w !! p) ∧
       NoDup (removed es) ∧
       (∀ p, p ∈ removed es ↔
             is_Some (fs w !! p) ∧ targeted (fs w) (range 1 25) p = true) ∧
       n = length (removed es) ∧
       ∃ es', es = es' ++ [Print (FilesDeleted n)] ∧
              Forall (λ e, ∀ k, e ≠ Print (FilesDeleted k)) es') ∧
  Forall
    (λ i,
       let r := script {| fs := three_files i; trace := [] |} in
       r.1 = Ok 2 ∧
       fs r.2 = {[ full_path i := Dir;
                   os_path_join (full_path i) "01-b.mp4" := File [] ]} ∧
       removed (trace r.2)
         ≡ₚ [os_path_join (full_path i) "02-a.mp4";
             os_path_join (full_path i) "02-c.mp4"] ∧
       last (trace r.2) = Some (Print (FilesDeleted 2)))
    (range 1 25).
Proof.
  split; [apply targeted_spec|]. split.
  - intros w Hdir. rewrite script_loops. unfold bind at 1.
    destruct (actors_loop (fs w) (range 1 25) [] 0 w)
      as (fs' & es & Hrun & Hfs' & Hnd & Hrem & _ & Hpr).
    + apply range_1_25_path_ok.
    + done.
    + done.
    + rewrite Hrun. unfold bind at 1. unfold print. rewrite after_emit.
      cbn [fs trace]. unfold ret.
      exists (length (removed es)), fs', (es ++ [Print (FilesDeleted (length (removed es)))]).
      assert (removed (es ++ [Print (FilesDeleted (length (removed es)))])
              = removed es) as Hr.
      { unfold removed. rewrite omap_app. cbn. by rewrite app_nil_r. }
      rewrite Hr. split; [by rewrite app_assoc|].
      repeat (split; [done|]). by exists es.
  - repeat constructor; vm_compute; try reflexivity;
      first [reflexivity | apply perm_swap].
Qed.

Lemma cleanup_deletes_exactly_matches_witness :
  ∃ n fs' es,
    script {| fs := three_files 7; trace := [] |}
      = (Ok n, {| fs := fs'; trace := [] ++ es |}) ∧
    (∀ p, fs' !! p
          = if targeted (three_files 7) (range 1 25) p then None
            else three_files 7 !! p) ∧
    NoDup (removed es) ∧
    (∀ p, p ∈ removed es ↔
          is_Some (three_files 7 !! p) ∧
          targeted (three_files 7) (range 1 25) p = true) ∧
    n = length (removed es) ∧
    ∃ es', es = es' ++ [Print (FilesDeleted n)] ∧
           Forall (λ e, ∀ k, e ≠ Print (FilesDeleted k)) es'.
Proof.
  apply (proj1 (proj2 cleanup_deletes_exactly_matches)
           {| fs := three_files 7; trace := [] |}).
  intros p Ht Hp. cbn [fs] in *.
  apply elem_of_map_to_list in Hp. vm_compute in Hp.
  repeat (apply elem_of_cons in Hp as [Hp|Hp]);
    try discriminate Hp; [|by apply elem_of_nil in Hp].
  injection Hp as ->. vm_compute in Ht. discriminate Ht.
Defined.

Lemma delete_files_globbed files : ∀ cnt (w : world) r w',
  delete_files files cnt w = (r, w') →
  ∃ es, trace w' = trace w ++ es ∧ globbed es = [].
Proof.
  induction files as [|f files IH]; intros cnt w r w'.
  - intros [= <- <-]. exists []. by rewrite app_nil_r.
  - unfold delete_files. cbn [for_each]. unfold bind at 1. unfold bind at 1.
    unfold os_remove at 1. unfold bind at 1. rewrite after_emit. cbn [fs trace].
    destruct (fs_remove f (fs w)) as [fs'|e].
    + unfold bind at 1. unfold print at 1. rewrite after_emit. unfold ret at 1.
      cbn [fs trace]. intros (es & Htr & Hg)%IH. cbn [trace] in Htr.
      exists (Remove f :: Print (Deleted f) :: es).
      split; [by rewrite Htr, <- !app_assoc|done].
    + intros [= <- <-]. by exists [Remove f].
Qed.

Lemma actors_loop_globbed acts : ∀ cnt (w : world) r w',
  for_each acts
    (λ i delete_counter,
       let* files_to_delete := glob (file_pattern i) in
       delete_files files_to_delete delete_counter) cnt w = (r, w') →
  ∃ es, trace w' = trace w ++ es ∧
        globbed es `prefix_of` (file_pattern <$> acts) ∧
        (is_Ok r = true → globbed es = file_pattern <$> acts).
Proof.
  induction acts as [|i acts IH]; intros cnt w r w'; cbn [for_each].
  - intros [= <- <-]. exists []. by rewrite app_nil_r.
  - unfold bind at 1. unfold bind at 1. unfold glob at 1. unfold bind at 1.
    rewrite after_emit. cbn [fs trace].
    destruct (delete_files _ cnt _) as [r1 w1] eqn:Hdel.
    apply delete_files_globbed in Hdel as (es1 & Htr1 & Hg1).
    cbn [trace] in Htr1.
    assert (globbed (Glob (file_pattern i) :: es1) = [file_pattern i]) as Hg.
    { unfold globbed in *. cbn [omap list_omap]. by rewrite Hg1. }
    destruct r1 as [cnt1|e].
    + intros (es2 & Htr2 & Hpre & Hall)%IH.
      exists (Glob (file_pattern i) :: es1 ++ es2).
      assert (globbed (Glob (file_pattern i) :: es1 ++ es2)
              = file_pattern i :: globbed es2) as ->.
      { unfold globbed in *. cbn [omap list_omap]. by rewrite omap_app, Hg1. }
      split; [by rewrite Htr2, Htr1, <- !app_assoc|].
      split; [by apply prefix_cons|]. intros Hr. by rewrite (Hall Hr).
    + intros [= <- <-]. exists (Glob (file_pattern i) :: es1).
      rewrite Hg. split; [by rewrite Htr1, <- app_assoc|].
      split; [|done]. by exists (file_pattern <$> acts).
Qed.

Lemma script_globbed (w : world) :
  ∃ es, trace (script w).2 = trace w ++ es ∧
        globbed es `prefix_of` (file_pattern <$> range 1 25) ∧
        (is_Ok (script w).1 = true → globbed es = file_pattern <$> range 1 25).
Proof.
  destruct (script w) as [r w'] eqn:Hs. cbn [fst snd].
  rewrite script_loops in Hs. unfold bind at 1 in Hs.
  destruct (for_each _ _ 0 w) as [r1 w1] eqn:Hloop.
  apply actors_loop_globbed in Hloop as (es & Htr & Hpre & Hall).
  destruct r1 as [cnt|e].
  - unfold bind at 1 in Hs. unfold print in Hs. rewrite after_emit in Hs.
    unfold ret in Hs. injection Hs as <- <-. cbn [trace].
    exists (es ++ [Print (FilesDeleted cnt)]).
    assert (globbed (es ++ [Print (FilesDeleted cnt)]) = globbed es) as ->.
    { unfold globbed. rewrite omap_app. cbn. by rewrite app_nil_r. }
    split; [by rewrite Htr, app_assoc|]. split; [done|]. intros _. by apply Hall.
  - injection Hs as <- <-. exists es. done.
Qed.

(** *** Any run of the script *)

Lemma delete_files_any files : ∀ cnt (w : world) r w',
  NoDup files →
  (∀ f, f ∈ files → is_Some (fs w !! f)) →
  delete_files files cnt w = (r, w') →
  ∃ gone es,
    trace w' = trace w ++ es ∧
    (∀ p, fs w' !! p = if bool_decide (p ∈ gone) then None else fs w !! p) ∧
    (∀ f, f ∈ gone → f ∈ files ∧ ∃ data, fs w !! f = Some (File data)) ∧
    NoDup gone ∧
    deleted_lines es = gone ∧ totals es = [] ∧
    match r with
    | Ok c => gone = files ∧ c = cnt + length files
    | Raise e => ∃ f, f ∈ files ∧ e = IsADirectoryError f ∧ fs w !! f = Some Dir
    end.
Proof.
  induction files as [|f files IH]; intros cnt w r w' Hnd Hin.
  - intros [= <- <-]. exists [], []. rewrite app_nil_r, Nat.add_0_r.
    split; [done|]. split; [done|]. split; [by intros f H%elem_of_nil|].
    split; [constructor|]. done.
  - apply NoDup_cons in Hnd as [Hf Hnd].
    destruct (Hin f) as [n Hn]; [left|].
    unfold delete_files. cbn [for_each]. unfold bind at 1. unfold bind at 1.
    unfold os_remove at 1. unfold bind at 1. rewrite after_emit. cbn [fs trace].
    unfold fs_remove. rewrite Hn. destruct n as [|data].
    { intros [= <- <-]. exists [], [Remove f]. cbn [fs trace].
      split; [done|]. split; [done|]. split; [by intros g H%elem_of_nil|].
      split; [constructor|]. split; [done|]. split; [done|].
      exists f. split; [left|done]. }
    unfold bind at 1. unfold print at 1. rewrite after_emit. unfold ret at 1.
    cbn [fs trace]. intros Hrun.
    apply IH in Hrun as (gone & es & Htr & Hlk & Hgone & Hndg & Hdel & Htot & Hr);
      [|done|].
    2:{ intros g Hg. cbn [fs]. rewrite lookup_delete_ne; [apply Hin; by right|].
        intros ->. done. }
    cbn [fs trace] in *.
    assert (f ∉ gone) as Hfg by (intros [? _]%Hgone; done).
    exists (f :: gone), (Remove f :: Print (Deleted f) :: es).
    split; [by rewrite Htr, <- !app_assoc|].
    split.
    { intros p. rewrite Hlk. destruct (decide (p = f)) as [->|Hne].
      - rewrite (bool_decide_eq_true_2 (f ∈ f :: gone)) by left.
        rewrite lookup_delete_eq. by destruct (bool_decide _).
      - rewrite lookup_delete_ne by done.
        destruct (bool_decide (p ∈ gone)) eqn:Hp.
        + apply bool_decide_eq_true in Hp.
          by rewrite bool_decide_eq_true_2 by by right.
        + apply bool_decide_eq_false in Hp.
          rewrite bool_decide_eq_false_2; [done|].
          rewrite elem_of_cons. tauto. }
    split.
    { intros g [->|Hg]%elem_of_cons.
      - split; [left|eauto].
      - destruct (Hgone g Hg) as [? [d Hd]]. split; [by right|].
        apply lookup_delete_Some in Hd as [_ ?]. eauto. }
    split; [by apply NoDup_cons|].
    split; [unfold deleted_lines in *; cbn; by rewrite Hdel|].
    split; [done|].
    destruct r as [c|e].
    + destruct Hr as [-> ->]. split; [done|]. cbn. lia.
    + destruct Hr as (g & Hg & -> & Hd). exists g.
      split; [by right|]. split; [done|].
      by apply lookup_delete_Some in Hd as [_ ?].
Qed.

Lemma only_targets_gone_isdir acts (m m' : gmap string node) d :
  only_targets_gone acts m m' → fs_isdir m' d = fs_isdir m d.
Proof.
  intros H. unfold fs_isdir. destruct (H d) as [->|(-> & [data ->] & _)]; done.
Qed.

Lemma selected_isdir (m m' : gmap string node) i p :
  (∀ d, fs_isdir m' d = fs_isdir m d) → selected m' i p = selected m i p.
Proof. intros H. unfold selected. by rewrite H. Qed.

Lemma targeted_isdir (m m' : gmap string node) acts p :
  (∀ d, fs_isdir m' d = fs_isdir m d) → targeted m' acts p = targeted m acts p.
Proof.
  intros H. unfold targeted. induction acts as [|i acts IH]; [done|].
  cbn [existsb]. by rewrite IH, (selected_isdir _ _ _ _ H).
Qed.

Lemma targeted_cons (m : gmap string node) i acts p :
  targeted m (i :: acts) p = selected m i p || targeted m acts p.
Proof. done. Qed.

Lemma targeted_one (m : gmap string node) i p :
  targeted m [i] p = selected m i p.
Proof. unfold targeted. cbn. apply orb_false_r. Qed.

(** The loop over the actors, in any run. *)
Lemma actors_loop_any acts : ∀ cnt (w : world) r w',
  Forall path_ok acts →
  for_each acts
    (λ i delete_counter,
       let* files_to_delete := glob (file_pattern i) in
       delete_files files_to_delete delete_counter) cnt w = (r, w') →
  ∃ es,
    trace w' = trace w ++ es ∧
    only_targets_gone acts (fs w) (fs w') ∧
    NoDup (deleted_lines es) ∧
    (∀ p, p ∈ deleted_lines es ↔ is_Some (fs w !! p) ∧ fs w' !! p = None) ∧
    totals es = [] ∧
    match r with
    | Ok c =>
        c = cnt + length (deleted_lines es) ∧
        (∀ p, targeted (fs w) acts p = true →
              fs w !! p ≠ Some Dir ∧ fs w' !! p = None)
    | Raise e =>
        ∃ p, e = IsADirectoryError p ∧ fs w !! p = Some Dir ∧
             targeted (fs w) acts p = true
    end.
Proof.
  induction acts as [|i acts IH]; intros cnt w r w' Hok; cbn [for_each].
  - intros [= <- <-]. exists []. rewrite app_nil_r, Nat.add_0_r.
    split; [done|]. split; [by left|]. split; [constructor|].
    split.
    { intros p. cbn. rewrite elem_of_nil. split; [done|].
      intros [[n Hn] Hnone]. congruence. }
    split; [done|]. split; [done|]. by intros p [=].
  - apply Forall_cons in Hok as [Hi Hok].
    unfold bind at 1. unfold bind at 1. unfold glob at 1. unfold bind at 1.
    rewrite after_emit. cbn [fs trace].
    set (files := glob_glob (fs w) (file_pattern i)).
    assert (∀ p, p ∈ files ↔ is_Some (fs w !! p) ∧ selected (fs w) i p = true)
      as Hfiles by (intros p; by apply glob_selected).
    assert (NoDup files) as Hndf.
    { unfold files. destruct Hi as (Hsplit & Hm & Hd & Hmd).
      rewrite (glob_glob_in_dir _ _ _ _ Hsplit Hm Hd Hmd).
      apply NoDup_glob_paths. }
    destruct (delete_files files cnt _) as [r1 w1] eqn:Hdel.
    apply delete_files_any in Hdel
      as (gone & es1 & Htr1 & Hlk1 & Hgone & Hndg & Hdel1 & Htot1 & Hr1);
      [|done|by intros f [? _]%Hfiles].
    cbn [fs trace] in *.
    assert (only_targets_gone [i] (fs w) (fs w1)) as Hstep.
    { intros p. rewrite Hlk1. destruct (bool_decide (p ∈ gone)) eqn:Hp; [|by left].
      apply bool_decide_eq_true in Hp. destruct (Hgone p Hp) as [Hpf Hd].
      right. split; [done|]. split; [done|].
      apply Hfiles in Hpf as [_ Hs]. by rewrite targeted_one. }
    assert (∀ d, fs_isdir (fs w1) d = fs_isdir (fs w) d) as Hdirs
      by (intros d; by eapply only_targets_gone_isdir).
    destruct r1 as [c1|e].
    2:{ intros [= <- <-]. destruct Hr1 as (f & Hf & -> & Hfd).
        exists (Glob (file_pattern i) :: es1).
        split; [by rewrite Htr1, <- app_assoc|].
        split.
        { intros p. destruct (Hstep p) as [?|(? & ? & Ht)]; [by left|right].
          split; [done|]. split; [done|].
          rewrite targeted_one in Ht. by rewrite targeted_cons, Ht. }
        change (deleted_lines (Glob (file_pattern i) :: es1))
          with (deleted_lines es1). rewrite Hdel1.
        split; [done|]. split.
        { intros p. rewrite Hlk1. split.
          - intros Hp. rewrite bool_decide_eq_true_2 by done.
            destruct (Hgone p Hp) as [_ [d Hd]]. eauto.
          - intros [Hs Hn]. destruct (bool_decide (p ∈ gone)) eqn:Hp.
            + by apply bool_decide_eq_true in Hp.
            + rewrite Hn in Hs. by destruct Hs. }
        split; [done|]. exists f. split; [done|]. split; [done|].
        apply Hfiles in Hf as [_ Hs]. by rewrite targeted_cons, Hs. }
    destruct Hr1 as [-> ->].
    intros Hrun. apply IH in Hrun
      as (es2 & Htr2 & Hgone2 & Hnd2 & Hdel2 & Htot2 & Hr2); [|done].
    cbn [fs trace] in *.
    exists (Glob (file_pattern i) :: es1 ++ es2).
    assert (deleted_lines (Glob (file_pattern i) :: es1 ++ es2)
            = files ++ deleted_lines es2) as Hdl.
    { unfold deleted_lines in *. cbn [omap list_omap]. by rewrite omap_app, Hdel1. }
    rewrite Hdl.
    assert (∀ p, targeted (fs w1) acts p = targeted (fs w) acts p) as Htg
      by (intros p; by apply targeted_isdir).
    split; [by rewrite Htr2, Htr1, <- !app_assoc|].
    split.
    { intros p. destruct (Hgone2 p) as [H2|(H2 & [d Hd] & Ht)].
      - rewrite H2. destruct (Hstep p) as [?|(? & ? & Ht)]; [by left|right].
        split; [done|]. split; [done|].
        rewrite targeted_one in Ht. by rewrite targeted_cons, Ht.
      - right. split; [done|].
        destruct (Hstep p) as [Hp|(Hp & _)]; [|congruence].
        rewrite <- Hp. split; [eauto|]. rewrite targeted_cons, <- Htg, Ht.
        apply orb_true_r. }
    split.
    { apply NoDup_app. split; [done|]. split; [|done].
      intros p Hp [[n Hn] _]%Hdel2. rewrite Hlk1 in Hn.
      by rewrite bool_decide_eq_true_2 in Hn. }
    split.
    { intros p. rewrite elem_of_app, Hdel2. split.
      - intros [Hp|[[n Hn] Hnone]].
        + destruct (Hgone p Hp) as [_ [d Hd]]. split; [eauto|].
          destruct (Hgone2 p) as [H2|(H2 & _)]; [|done].
          rewrite H2, Hlk1. by rewrite bool_decide_eq_true_2.
        + split; [|done]. rewrite Hlk1 in Hn.
          destruct (bool_decide _); [done|eauto].
      - intros [Hs Hnone]. destruct (decide (p ∈ files)) as [?|Hp]; [by left|].
        right. split; [|done]. rewrite Hlk1.
        by rewrite bool_decide_eq_false_2. }
    unfold totals in *. cbn [omap list_omap]. rewrite omap_app, Htot1, Htot2.
    split; [done|].
    destruct r as [c|e].
    + destruct Hr2 as [-> Hr2]. split; [rewrite length_app; lia|].
      intros p Ht. rewrite targeted_cons in Ht.
      destruct (selected (fs w) i p) eqn:Hs.
      * destruct (fs w !! p) as [n|] eqn:Hn.
        -- assert (p ∈ files) as Hp by (apply Hfiles; eauto).
           destruct (Hgone p Hp) as [_ [d Hd]]. split; [congruence|].
           destruct (Hgone2 p) as [H2|(H2 & _)]; [|done].
           rewrite H2, Hlk1. by rewrite bool_decide_eq_true_2.
        -- split; [done|].
           destruct (Hgone2 p) as [H2|(H2 & _)]; [|done].
           rewrite H2. destruct (Hstep p) as [->|(? & _)]; done.
      * cbn [orb] in Ht. rewrite <- Htg in Ht.
        destruct (Hr2 p Ht) as [Hnd Hnone]. split; [|done].
        intros Hd. apply Hnd.
        destruct (Hstep p) as [->|(_ & [d Hd'] & _)]; [done|congruence].
    + destruct Hr2 as (p & -> & Hd & Ht). exists p. split; [done|].
      split.
      * destruct (Hstep p) as [<-|(? & _)]; [done|congruence].
      * rewrite targeted_cons, <- Htg, Ht. apply orb_true_r.
Qed.

(** The whole script, in any run. *)
Lemma script_any (w : world) :
  ∃ es,
    trace (script w).2 = trace w ++ es ∧
    only_targets_gone (range 1 25) (fs w) (fs (script w).2) ∧
    NoDup (deleted_lines es) ∧
    (∀ p, p ∈ deleted_lines es ↔
          is_Some (fs w !! p) ∧ fs (script w).2 !! p = None) ∧
    match (script w).1 with
    | Ok n =>
        n = length (deleted_lines es) ∧ totals es = [n] ∧
        last es = Some (Print (FilesDeleted n)) ∧
        (∀ p, targeted (fs w) (range 1 25) p = true →
              fs w !! p ≠ Some Dir ∧ fs (script w).2 !! p = None)
    | Raise e =>
        totals es = [] ∧
        ∃ p, e = IsADirectoryError p ∧ fs w !! p = Some Dir ∧
             targeted (fs w) (range 1 25) p = true
    end.
Proof.
  destruct (script w) as [r w'] eqn:Hs. cbn [fst snd].
  rewrite script_loops in Hs. unfold bind at 1 in Hs.
  destruct (for_each _ _ 0 w) as [r1 w1] eqn:Hloop.
  apply actors_loop_any in Hloop
    as (es & Htr & Hgone & Hnd & Hdel & Htot & Hr); [|apply range_1_25_path_ok].
  destruct r1 as [c|e].
  - unfold bind at 1 in Hs. unfold print in Hs. rewrite after_emit in Hs.
    unfold ret in Hs. injection Hs as <- <-. cbn [fs trace].
    destruct Hr as [-> Hr].
    exists (es ++ [Print (FilesDeleted (length (deleted_lines es)))]).
    assert (deleted_lines (es ++ [Print (FilesDeleted (length (deleted_lines es)))])
            = deleted_lines es) as ->.
    { unfold deleted_lines. rewrite omap_app. cbn. by rewrite app_nil_r. }
    split; [by rewrite Htr, app_assoc|]. split; [done|]. split; [done|].
    split; [done|]. split; [done|]. split.
    { unfold totals in *. rewrite omap_app, Htot. done. }
    split; [by rewrite last_snoc|done].
  - injection Hs as <- <-. exists es. done.
Qed.

(** X1 [glob] selects directories too, and [os.remove] does not remove a
    directory: when an entry selected by the pattern of one of the 24
    actors is a directory, the script raises, the directory is still there
    and the final count is never printed. *)
Theorem script_raises_on_selected_directory (w : world) p :
  targeted (fs w) (range 1 25) p = true →
  fs w !! p = Some Dir →
  is_Ok (script w).1 = false ∧
  fs (script w).2 !! p = Some Dir ∧
  ∃ es, trace (script w).2 = trace w ++ es ∧ totals es = [].
Proof.
  intros Ht Hd.
  destruct (script_any w) as (es & Htr & Hgone & _ & _ & Hr).
  split; [|split].
  - destruct (script w).1 as [n|e]; [|done].
    destruct Hr as (_ & _ & _ & Hr). by destruct (Hr p Ht).
  - destruct (Hgone p) as [->|(_ & [data Hdata] & _)]; [done|congruence].
  - exists es. split; [done|].
    destruct (script w).1 as [n|e]; [|by destruct Hr].
    destruct Hr as (_ & _ & _ & Hr). by destruct (Hr p Ht).
Qed.

(** X1 on an actor folder that holds a folder named like a video. *)
Lemma script_raises_on_selected_directory_witness :
  let w := {| fs := {[ "F:/RAVDESS/Actor_03" := Dir;
                       "F:/RAVDESS/Actor_03/02-clips.mp4" := Dir ]};
              trace := [] |} in
  is_Ok (script w).1 = false ∧
  fs (script w).2 !! "F:/RAVDESS/Actor_03/02-clips.mp4" = Some Dir ∧
  ∃ es, trace (script w).2 = trace w ++ es ∧ totals es = [].
Proof.
  intros w.
  apply (script_raises_on_selected_directory w
           "F:/RAVDESS/Actor_03/02-clips.mp4"); reflexivity.
Defined.

(** X2 In every run, also one that is cut short by an exception, an
    entry of the store is either left as it was or it was a file selected
    by the pattern of one of the 24 actors and is gone: nothing is added,
    no directory is removed, no other file is touched.  The [Deleted]
    lines printed name exactly the entries that are gone, each once. *)
Theorem script_only_removes_targeted_files (w : world) :
  ∃ es,
    trace (script w).2 = trace w ++ es ∧
    (∀ p, fs (script w).2 !! p = fs w !! p
          ∨ (fs (script w).2 !! p = None
             ∧ (∃ data, fs w !! p = Some (File data))
             ∧ targeted (fs w) (range 1 25) p = true)) ∧
    NoDup (deleted_lines es) ∧
    (∀ p, p ∈ deleted_lines es ↔
          is_Some (fs w !! p) ∧ fs (script w).2 !! p = None).
Proof.
  destruct (script_any w) as (es & Htr & Hgone & Hnd & Hdel & _).
  exists es. done.
Qed.

Lemma only_globs (es : list event) :
  removed es = [] → deleted_lines es = [] → totals es = [] →
  es = Glob <$> globbed es.
Proof.
  induction es as [|e es IH]; [done|].
  destruct e as [pat|f|[f|n]]; cbn; try done.
  intros H1 H2 H3. f_equal. by apply IH.
Qed.

(** A run on a store in which nothing is selected. *)
Lemma script_no_match (w : world) :
  (∀ p, targeted (fs w) (range 1 25) p = true → fs w !! p = None) →
  script w
    = (Ok 0,
       {| fs := fs w;
          trace := trace w ++ (Glob <$> (file_pattern <$> range 1 25))
                   ++ [Print (FilesDeleted 0)] |}).
Proof.
  intros Hnone.
  destruct (actors_loop (fs w) (range 1 25) [] 0 w)
    as (fs' & es & Hrun & Hfs & _ & Hrem & Hglob & _).
  { apply range_1_25_path_ok. }
  { intros p Ht. rewrite (Hnone p Ht). done. }
  { done. }
  cbn [app] in Hfs.
  assert (fs' = fs w) as ->.
  { apply map_eq. intros p. rewrite Hfs.
    destruct (targeted (fs w) (range 1 25) p) eqn:Ht; [|done].
    by rewrite Hnone. }
  assert (removed es = []) as Hr0.
  { destruct (removed es) as [|p l] eqn:E; [done|].
    assert (p ∈ p :: l) as Hp by left.
    apply Hrem in Hp as [[n Hn] Ht]. rewrite Hnone in Hn; done. }
  destruct (actors_loop_any (range 1 25) 0 w _ _ range_1_25_path_ok Hrun)
    as (es' & Htr & _ & _ & Hdel & Htot & _).
  cbn [fs trace] in Htr, Hdel. apply app_inv_head in Htr as <-.
  assert (deleted_lines es = []) as Hd0.
  { destruct (deleted_lines es) as [|p l] eqn:E; [done|].
    assert (p ∈ p :: l) as Hp by left.
    apply Hdel in Hp as [[n Hn] Hnone']. congruence. }
  rewrite script_loops. unfold bind at 1. rewrite Hrun, Hr0. cbn [length].
  unfold bind, print, emit, ret. cbn [fs trace fst snd].
  rewrite (only_globs es Hr0 Hd0 Htot), Hglob. by rewrite <- app_assoc.
Qed.

(** X3 A second run after a run that returned removes nothing: it makes
    the 24 [glob] calls and no [os.remove] call, prints a count of 0 and
    leaves the store as the first run left it. *)
Theorem script_second_run_removes_nothing (w : world) :
  is_Ok (script w).1 = true →
  script (script w).2
    = (Ok 0,
       {| fs := fs (script w).2;
          trace := trace (script w).2
                   ++ (Glob <$> (file_pattern <$> range 1 25))
                   ++ [Print (FilesDeleted 0)] |}).
Proof.
  intros Hok.
  destruct (script_any w) as (es1 & _ & Hgone1 & _ & _ & Hr1).
  destruct (script w) as [r1 w1]. cbn [fst snd] in *.
  destruct r1 as [n1|e]; [|done]. destruct Hr1 as (_ & _ & _ & Hr1).
  apply script_no_match.
  intros p Ht. apply Hr1. rewrite <- Ht. symmetry. apply targeted_isdir.
  intros d. by eapply only_targets_gone_isdir.
Qed.

(** X3 on the three files of the worked example. *)
Lemma script_second_run_removes_nothing_witness :
  let w := {| fs := three_files 7; trace := [] |} in
  script (script w).2
    = (Ok 0,
       {| fs := fs (script w).2;
          trace := trace (script w).2
                   ++ (Glob <$> (file_pattern <$> range 1 25))
                   ++ [Print (FilesDeleted 0)] |}).
Proof.
  intros w. apply (script_second_run_removes_nothing w). by vm_compute.
Defined.

(** X4 When no entry of the store is selected (the actor folders are
    missing, or hold no matching name), the script makes its 24 [glob]
    calls, removes nothing, prints a count of 0 and returns. *)
Theorem script_without_match (w : world) :
  (∀ i mid,
     1 ≤ i ≤ 24 →
     fs w !! ("F:/RAVDESS/Actor_" +:+ format_02 i) = Some Dir →
     contains_char sep mid = false →
     fs w !! ("F:/RAVDESS/Actor_" +:+ format_02 i +:+ "/02-" +:+ mid +:+ ".mp4")
       = None) →
  script w
    = (Ok 0,
       {| fs := fs w;
          trace := trace w ++ (Glob <$> (file_pattern <$> range 1 25))
                   ++ [Print (FilesDeleted 0)] |}).
Proof.
  intros Hnone. apply script_no_match.
  intros p (i & mid & Hi & Hd & -> & Hmid)%targeted_spec. by apply Hnone.
Qed.

(** X4 on a store without actor folders. *)
Lemma script_without_match_witness :
  let w := {| fs := {[ "F:/RAVDESS" := Dir;
                       "F:/RAVDESS/notes.txt" := File [] ]};
              trace := [] |} in
  script w
    = (Ok 0,
       {| fs := fs w;
          trace := trace w ++ (Glob <$> (file_pattern <$> range 1 25))
                   ++ [Print (FilesDeleted 0)] |}).
Proof.
  intros w. apply (script_without_match w).
  intros i mid Hi Hd. exfalso. revert Hd. cbn [fs w].
  rewrite lookup_insert_ne.
  - rewrite lookup_singleton_ne; [done|].
    rewrite !append_cons. discriminate.
  - rewrite !append_cons, append_nil_l. discriminate.
Defined.

End Cleanup.

(** ** The task enumeration of [main] *)

Section Enumeration.
Context {au_vector figure image : Type} (cfg : config).
Local Abbreviation world := (@world au_vector figure image).
Local Abbreviation out := (au_video_folder_path cfg).
Local Abbreviation inp := (smoothed_csv_folder_path cfg).

Lemma collect_tasks_run i names : ∀ tasks (w : world),
  for_each names
    (λ file_name tasks,
       let smoothed_csv_path := os_path_join (inp i) file_name in
       let video_basename :=
         (os_path_splitext (os_path_basename smoothed_csv_path)).1 in
       let au_video_path := os_path_join (out i) (video_basename +:+ ".mp4") in
       ret (tasks ++ [(smoothed_csv_path, au_video_path)]))
    tasks w
  = (Ok (tasks ++ (task_of cfg i <$> names)), w).
Proof.
  induction names as [|name names IH]; intros tasks w; cbn [for_each].
  - by rewrite app_nil_r.
  - unfold bind at 1. unfold ret at 1. rewrite IH.
    by rewrite <- app_assoc.
Qed.

Lemma actor_tasks_run i tasks (w : world) :
  actor_tasks cfg i tasks w =
    let finish (w1 : world) :=
      match fs_listdir (fs w1) (inp i) with
      | Ok names =>
          (Ok (tasks ++ (task_of cfg i <$> names)), after w1 [Listdir (inp i)])
      | Raise e => (Raise e, after w1 [Listdir (inp i)])
      end in
    if fs_exists (fs w) (out i) then finish w
    else
      match fs_makedirs (out i) (fs w) with
      | Ok fs' =>
          finish {| fs := fs';
                    trace := trace w ++ [Makedirs (out i);
                                         Logged INFO (CreatedFolder (out i))] |}
      | Raise e => (Raise e, after w [Makedirs (out i)])
      end.
Proof.
  unfold actor_tasks. fold (out i). fold (inp i).
  unfold bind at 1. unfold os_path_exists.
  destruct (fs_exists (fs w) (out i)); cbn [negb].
  - unfold bind at 1. unfold ret at 1. unfold bind at 1. unfold os_listdir.
    rewrite bind_emit. cbn [fs after].
    destruct (fs_listdir (fs w) (inp i)) as [names|e]; [|done].
    apply collect_tasks_run.
  - unfold bind at 1. unfold bind at 1. unfold os_makedirs.
    destruct (fs_makedirs (out i) (fs w)) as [fs'|e]; [|done].
    unfold logging_info, emit at 1. unfold bind at 1. unfold os_listdir.
    rewrite bind_emit. unfold after. cbn [fs trace].
    rewrite <- ?app_assoc. cbn [app].
    destruct (fs_listdir fs' (inp i)) as [names|e].
    + rewrite collect_tasks_run. by rewrite <- ?app_assoc.
    + by rewrite <- ?app_assoc.
Qed.


(** What one turn of the loop of [main] does to the world. *)
Lemma actor_tasks_inv i tasks (w : world) r w' :
  actor_tasks cfg i tasks w = (r, w') →
  ∃ es,
    trace w' = trace w ++ es ∧
    Forall (λ e, e = Makedirs (out i) ∨ e = Logged INFO (CreatedFolder (out i))
                 ∨ e = Listdir (inp i)) es ∧
    (∀ p n, fs w !! p = Some n → fs w' !! p = Some n) ∧
    (∀ p, fs w !! p = None →
          fs w' !! p = None
          ∨ (fs w' !! p = Some Dir ∧ (p = out i ∨ is_ancestor p (out i)))) ∧
    (Makedirs (out i) ∈ es → fs w !! out i = None) ∧
    (fs_exists (fs w) (out i) = true →
     (Makedirs (out i) ∉ es) ∧ fs w' = fs w) ∧
    listed es `prefix_of` [inp i] ∧
    match r with
    | Ok tasks' =>
        listed es = [inp i] ∧
        fs_exists (fs w') (out i) = true ∧
        (fs_exists (fs w) (out i) = false → Makedirs (out i) ∈ es) ∧
        ∃ names, tasks' = tasks ++ (task_of cfg i <$> names)
    | Raise _ => True
    end.
Proof.
  rewrite actor_tasks_run. cbn zeta.
  destruct (fs_exists (fs w) (out i)) eqn:Hex.
  - intros Hrun. exists [Listdir (inp i)].
    assert (w' = after w [Listdir (inp i)]) as ->
      by (destruct (fs_listdir _ _); by injection Hrun as _ <-).
    cbn [trace fs after]. split; [done|].
    split; [apply Forall_singleton; by right; right|].
    split; [done|]. split; [by left|].
    split.
    { intros H. apply list_elem_of_singleton in H. done. }
    split.
    { intros _. split; [|done]. intros H. apply list_elem_of_singleton in H. done. }
    split; [done|].
    destruct (fs_listdir (fs w) (inp i)) as [names|e];
      injection Hrun as <-; [|done].
    split; [done|]. split; [done|]. split; [done|]. by exists names.
  - assert (fs w !! out i = None) as Hnone.
    { unfold fs_exists in Hex. apply bool_decide_eq_false in Hex.
      by apply eq_None_not_Some. }
    destruct (fs_makedirs (out i) (fs w)) as [fs'|e] eqn:Hmk.
    2:{ intros [= <- <-]. exists [Makedirs (out i)]. cbn [trace fs after].
        split; [done|]. split; [apply Forall_singleton; by left|].
        split; [done|]. split; [by left|]. split; [done|].
        split; [done|]. split; [apply prefix_nil|done]. }
    apply makedirs_fuel_Ok in Hmk as (_ & Hdir & Hrec).
    intros Hrun.
    exists [Makedirs (out i); Logged INFO (CreatedFolder (out i)); Listdir (inp i)].
    assert (w' = {| fs := fs';
                    trace := trace w ++ [Makedirs (out i);
                                         Logged INFO (CreatedFolder (out i));
                                         Listdir (inp i)] |}) as ->.
    { destruct (fs_listdir _ _); injection Hrun as _ <-;
        unfold after; cbn [fs trace]; by rewrite <- app_assoc. }
    cbn [trace fs].
    split; [done|]. split.
    { repeat apply Forall_cons_2; [by left|by right; left|by right; right|].
      apply Forall_nil_2. }
    split.
    { intros p n Hp. destruct (Hrec p) as [->|(? & _)]; congruence. }
    split.
    { intros p Hp. destruct (Hrec p) as [->|(_ & ? & ?)]; auto. }
    split; [done|]. split; [done|]. split; [done|].
    cbn [fs] in Hrun.
    destruct (fs_listdir fs' (inp i)) as [names|e];
      injection Hrun as <-; [|done].
    split; [done|]. split.
    { unfold fs_exists. by rewrite Hdir, bool_decide_eq_true_2 by eauto. }
    split; [intros _; left|]. by exists names.
Qed.

Lemma enumeration_inv acts : ∀ tasks (w : world) r w',
  for_each acts (actor_tasks cfg) tasks w = (r, w') →
  ∃ es,
    trace w' = trace w ++ es ∧
    Forall (λ e, ∃ i, i ∈ acts ∧
                 (e = Makedirs (out i) ∨ e = Logged INFO (CreatedFolder (out i))
                  ∨ e = Listdir (inp i))) es ∧
    (∀ p n, fs w !! p = Some n → fs w' !! p = Some n) ∧
    (∀ p, fs w !! p = None →
          fs w' !! p = None
          ∨ (fs w' !! p = Some Dir ∧
             ∃ i, i ∈ acts ∧ (p = out i ∨ is_ancestor p (out i)))) ∧
    (∀ p, Makedirs p ∈ es → fs w !! p = None) ∧
    listed es `prefix_of` (inp <$> acts) ∧
    match r with
    | Ok tasks' =>
        listed es = inp <$> acts ∧
        (∀ i, i ∈ acts → fs_exists (fs w') (out i) = true) ∧
        ∃ new, tasks' = tasks ++ new ∧
               Forall (λ t, ∃ i name, i ∈ acts ∧ t = task_of cfg i name) new
    | Raise _ => True
    end.
Proof.
  induction acts as [|i acts IH]; intros tasks w r w'; cbn [for_each].
  - intros [= <- <-]. exists []. rewrite app_nil_r.
    split; [done|]. split; [constructor|]. split; [done|]. split; [by left|].
    split; [by intros p H%elem_of_nil|]. split; [done|].
    split; [done|]. split; [by intros i H%elem_of_nil|].
    exists []. by rewrite app_nil_r.
  - unfold bind at 1.
    destruct (actor_tasks cfg i tasks w) as [r1 w1] eqn:Hstep.
    apply actor_tasks_inv in Hstep
      as (es1 & Htr1 & Hev1 & Hkeep1 & Hnew1 & Hmk1 & _ & Hpre1 & Hr1).
    destruct r1 as [tasks1|e].
    2:{ intros [= <- <-]. exists es1. split; [done|].
        split.
        { eapply Forall_impl; [done|]. intros e' He'. exists i. split; [left|done]. }
        split; [done|]. split.
        { intros p Hp. destruct (Hnew1 p Hp) as [?|[? ?]]; [by left|right].
          split; [done|]. exists i. split; [left|done]. }
        split.
        { intros p Hp. eapply Forall_forall in Hev1; [|done].
          destruct Hev1 as [[= ->]|[[=]|[=]]]. auto. }
        split; [|done].
        etrans; [done|]. by exists (inp <$> acts). }
    destruct Hr1 as (Hl1 & Hex1 & _ & names & ->).
    intros Hrun. apply IH in Hrun
      as (es2 & Htr2 & Hev2 & Hkeep2 & Hnew2 & Hmk2 & Hpre2 & Hr2).
    exists (es1 ++ es2).
    assert (listed (es1 ++ es2) = inp i :: listed es2) as Hlisted.
    { unfold listed in *. by rewrite omap_app, Hl1. }
    split; [by rewrite Htr2, Htr1, app_assoc|].
    split.
    { apply Forall_app. split.
      - eapply Forall_impl; [done|]. intros e' He'. exists i. split; [left|done].
      - eapply Forall_impl; [done|]. intros e' (j & Hj & He').
        exists j. split; [by right|done]. }
    split; [by auto|].
    split.
    { intros p Hp. destruct (Hnew1 p Hp) as [Hp1|[Hp1 Hi]].
      - destruct (Hnew2 p Hp1) as [?|[? (j & Hj & ?)]]; [by left|right].
        split; [done|]. exists j. split; [by right|done].
      - right. split; [by apply Hkeep2|]. exists i. split; [left|done]. }
    split.
    { intros p [Hp|Hp]%elem_of_app.
      - eapply Forall_forall in Hev1; [|done].
        destruct Hev1 as [[= ->]|[[=]|[=]]]. auto.
      - specialize (Hmk2 p Hp). destruct (fs w !! p) as [n|] eqn:Hn; [|done].
        rewrite (Hkeep1 _ _ Hn) in Hmk2. done. }
    split.
    { rewrite Hlisted. cbn [fmap list_fmap]. by apply prefix_cons. }
    destruct r as [tasks'|e]; [|done].
    destruct Hr2 as (Hl2 & Hex2 & new & -> & Hnew).
    split; [by rewrite Hlisted, Hl2|]. split.
    { intros j [->|Hj]%elem_of_cons; [|by auto].
      unfold fs_exists in *. apply bool_decide_eq_true in Hex1 as [n Hn].
      apply bool_decide_eq_true_2. rewrite (Hkeep2 _ _ Hn). eauto. }
    exists ((task_of cfg i <$> names) ++ new). split; [by rewrite app_assoc|].
    apply Forall_app. split.
    + apply Forall_fmap, Forall_forall. intros name _. exists i, name.
      split; [left|done].
    + eapply Forall_impl; [done|]. intros t (j & name & Hj & ->).
      exists j, name. split; [by right|done].
Qed.

Lemma main_tasks_processed (w : world) :
  main_tasks cfg w = for_each (processed_actors cfg) (actor_tasks cfg) [] w.
Proof.
  unfold main_tasks, processed_actors.
  generalize (@nil (string * string)).
  generalize (range (start_actor_num cfg) (end_actor_num cfg)). intros acts.
  revert w. induction acts as [|i acts IH]; intros w tasks; [done|].
  rewrite filter_cons. cbn [for_each].
  destruct (decide (¬ (i = 18 ∧ isSong cfg = true))) as [Hi|Hi].
  - cbn [for_each].
    assert ((i =? 18) && isSong cfg = false) as ->.
    { apply not_true_is_false. intros [?%Nat.eqb_eq ?]%andb_true_iff. tauto. }
    unfold bind.
    destruct (actor_tasks cfg i tasks w) as [[tasks1|e] w1]; [apply IH|done].
  - assert ((i =? 18) && isSong cfg = true) as ->.
    { apply dec_stable in Hi as [-> ->]. done. }
    unfold bind, ret. apply IH.
Qed.

(** A missing output folder is made by a call of [os.makedirs] on it. *)
Lemma enumeration_creates acts : ∀ tasks (w : world) tasks' w',
  NoDup acts →
  for_each acts (actor_tasks cfg) tasks w = (Ok tasks', w') →
  ∃ es, trace w' = trace w ++ es ∧
        ∀ i, i ∈ acts → fs w !! out i = None → Makedirs (out i) ∈ es.
Proof.
  induction acts as [|i acts IH]; intros tasks w tasks' w' Hnd; cbn [for_each].
  - intros [= <- <-]. exists []. rewrite app_nil_r. split; [done|].
    by intros i H%elem_of_nil.
  - apply NoDup_cons in Hnd as [Hi Hnd]. unfold bind at 1.
    destruct (actor_tasks cfg i tasks w) as [r1 w1] eqn:Hstep.
    apply actor_tasks_inv in Hstep
      as (es1 & Htr1 & _ & _ & Hnew1 & _ & _ & _ & Hr1).
    destruct r1 as [tasks1|e]; [|done].
    destruct Hr1 as (_ & _ & Hmk & _).
    intros Hrun. apply IH in Hrun as (es2 & Htr2 & Hes2); [|done].
    exists (es1 ++ es2). split; [by rewrite Htr2, Htr1, app_assoc|].
    intros j [->|Hj]%elem_of_cons Hnone; apply elem_of_app.
    + left. apply Hmk. unfold fs_exists. apply bool_decide_eq_false_2.
      rewrite Hnone. by intros [].
    + right. apply Hes2; [done|].
      destruct (Hnew1 _ Hnone) as [?|[_ [Heq|Hanc]]]; [done|..].
      * apply actor_folder_inj in Heq as ->. done.
      * by apply actor_folder_not_ancestor in Hanc.
Qed.

Lemma NoDup_processed_actors : NoDup (processed_actors cfg).
Proof. apply NoDup_filter, NoDup_seq. Qed.

Lemma elem_of_processed_actors i :
  i ∈ processed_actors cfg ↔
  start_actor_num cfg ≤ i < end_actor_num cfg ∧ ¬ (i = 18 ∧ isSong cfg = true).
Proof.
  unfold processed_actors, range.
  rewrite list_elem_of_filter, elem_of_seq. split; intros [? ?]; split; (done || lia).
Qed.

(** *** The task of a listed name *)

Lemma task_of_stem i name :
  contains_char sep name = false →
  task_of cfg i name
  = (os_path_join (inp i) name,
     os_path_join (out i) ((os_path_splitext name).1 +:+ ".mp4")).
Proof.
  intros Hn. unfold task_of. by rewrite os_path_basename_join.
Qed.

(** X11 The task of a listed name [base.ext]: the input is the name
    joined to the input folder of the actor, the output is [base.mp4] in
    the output folder; only the last extension is replaced. *)
Theorem task_of_replaces_last_extension i base ext :
  contains_char sep base = false →
  contains_char sep ext = false →
  contains_char "." ext = false →
  all_char "." base = false →
  task_of cfg i (base +:+ "." +:+ ext)
  = (os_path_join (inp i) (base +:+ "." +:+ ext),
     os_path_join (out i) (base +:+ ".mp4")).
Proof.
  intros Hb He Hd Ha. rewrite task_of_stem.
  - by rewrite os_path_splitext_name, Ha.
  - rewrite contains_char_append, Hb, append_cons, append_nil_l.
    cbn [contains_char orb]. by rewrite He.
Qed.

(** X12 A listed name without extension (no dot after its leading dots)
    keeps its whole name: the output is the name followed by [.mp4]. *)
Theorem task_of_name_without_extension i dots rest :
  contains_char sep (dots +:+ rest) = false →
  all_char "." dots = true →
  contains_char "." rest = false →
  task_of cfg i (dots +:+ rest)
  = (os_path_join (inp i) (dots +:+ rest),
     os_path_join (out i) (dots +:+ rest +:+ ".mp4")).
Proof.
  intros Hs Hd Hr. rewrite task_of_stem by done.
  rewrite os_path_splitext_dots by done. cbn [fst].
  by rewrite append_assoc.
Qed.

(** X13 Two listed names of one actor that differ only in their last
    extension get the same output path. *)
Theorem task_of_same_output i base ext ext' :
  contains_char sep base = false →
  contains_char sep ext = false →
  contains_char "." ext = false →
  contains_char sep ext' = false →
  contains_char "." ext' = false →
  all_char "." base = false →
  (task_of cfg i (base +:+ "." +:+ ext)).2
  = (task_of cfg i (base +:+ "." +:+ ext')).2.
Proof.
  intros Hb He Hd He' Hd' Ha.
  assert (∀ e, contains_char sep e = false →
               contains_char sep (base +:+ "." +:+ e) = false) as Hs.
  { intros e H. rewrite contains_char_append, Hb, append_cons, append_nil_l.
    cbn [contains_char orb]. by rewrite H. }
  rewrite !task_of_stem by auto. cbn [snd].
  rewrite !os_path_splitext_name by done. by rewrite Ha.
Qed.

(** *** The enumeration when the output folders are there *)

Lemma fs_listdir_isdir (m : gmap string node) d :
  fs_isdir m d = true → fs_listdir m d = Ok (children m d).
Proof.
  unfold fs_isdir, fs_listdir. by destruct (m !! d) as [[|data]|].
Qed.

Lemma enumeration_existing acts : ∀ tasks (w : world),
  Forall (λ i, fs_exists (fs w) (out i) = true ∧
               fs_isdir (fs w) (inp i) = true) acts →
  for_each acts (actor_tasks cfg) tasks w
  = (Ok (tasks ++ (acts ≫= λ i, task_of cfg i <$> children (fs w) (inp i))),
     after w ((λ i, Listdir (inp i)) <$> acts)).
Proof.
  induction acts as [|i acts IH]; intros tasks w Hall; cbn [for_each].
  - cbn [mbind list_bind fmap list_fmap]. by rewrite app_nil_r, after_nil.
  - apply Forall_cons in Hall as [[Hex Hdir] Hall].
    unfold bind at 1. rewrite actor_tasks_run. cbn zeta.
    rewrite Hex, (fs_listdir_isdir _ _ Hdir).
    rewrite IH by done. cbn [fs after]. rewrite after_after.
    cbn [mbind list_bind fmap list_fmap app]. by rewrite <- app_assoc.
Qed.

(** X14 When the output folders of the actors are there and their input
    folders are directories, the enumeration of [main] changes nothing in
    the store and makes no [makedirs] call: it lists the input folders in
    actor order and builds one task for every entry listed, whatever its
    extension and whether it is a file or a folder. *)
Theorem main_tasks_on_existing_output_folders (w : world) :
  Forall (λ i, fs_exists (fs w) (out i) = true ∧
               fs_isdir (fs w) (inp i) = true) (processed_actors cfg) →
  ∃ tasks,
    main_tasks cfg w
    = (Ok tasks, after w ((λ i, Listdir (inp i)) <$> processed_actors cfg)) ∧
    tasks = (processed_actors cfg
             ≫= λ i, task_of cfg i <$> children (fs w) (inp i)) ∧
    ∀ t, t ∈ tasks ↔
         ∃ i name,
           i ∈ processed_actors cfg ∧ t = task_of cfg i name ∧
           name ≠ "" ∧ contains_char sep name = false ∧
           is_Some (fs w !! os_path_join (inp i) name).
Proof.
  intros Hall. eexists. split; [|split; [reflexivity|]].
  - rewrite main_tasks_processed. by rewrite enumeration_existing.
  - intros t. rewrite list_elem_of_bind. split.
    + intros (i & (name & -> & Hname)%list_elem_of_fmap & Hi).
      apply children_spec in Hname as (Hsome & Hne & Hsep).
      exists i, name. rewrite join_child by done. done.
    + intros (i & name & Hi & -> & Hne & Hsep & Hsome).
      exists i. split; [|done]. apply list_elem_of_fmap. exists name.
      split; [done|]. apply children_spec. by rewrite <- join_child.
Qed.

(** *** Input folders that are missing *)

Lemma actor_tasks_listed i tasks (w : world) tasks' w' :
  actor_tasks cfg i tasks w = (Ok tasks', w') → fs w' !! inp i = Some Dir.
Proof.
  rewrite actor_tasks_run. cbn zeta.
  assert (∀ m names, fs_listdir m (inp i) = Ok names → m !! inp i = Some Dir)
    as Hl.
  { intros m names. unfold fs_listdir.
    by destruct (m !! inp i) as [[|data]|]. }
  destruct (fs_exists (fs w) (out i)).
  - destruct (fs_listdir (fs w) (inp i)) as [names|e] eqn:Hls;
      intros [= <- <-]. cbn [fs after]. by eapply Hl.
  - destruct (fs_makedirs (out i) (fs w)) as [fs'|e]; [|done].
    cbn [fs]. destruct (fs_listdir fs' (inp i)) as [names|e] eqn:Hls;
      intros [= <- <-]. cbn [fs after]. by eapply Hl.
Qed.

Lemma enumeration_listed_dirs acts : ∀ tasks (w : world) tasks' w',
  for_each acts (actor_tasks cfg) tasks w = (Ok tasks', w') →
  ∀ i, i ∈ acts → fs w' !! inp i = Some Dir.
Proof.
  induction acts as [|i acts IH]; intros tasks w tasks' w'; cbn [for_each].
  - intros _ i Hi. by apply elem_of_nil in Hi.
  - unfold bind at 1.
    destruct (actor_tasks cfg i tasks w) as [[tasks1|e] w1] eqn:Hstep; [|done].
    intros Hrun j [->|Hj]%elem_of_cons; [|by eapply IH].
    apply actor_tasks_listed in Hstep.
    destruct (enumeration_inv _ _ _ _ _ Hrun) as (es & _ & _ & Hkeep & _).
    by apply Hkeep.
Qed.

Lemma is_ancestor_startswith p q : is_ancestor p q → startswith p q = true.
Proof. intros (rest & -> & _). apply startswith_append. Qed.

Lemma main_tasks_missing_input (w : world) i :
  i ∈ processed_actors cfg →
  fs_isdir (fs w) (inp i) = false →
  Forall (λ j, startswith (inp i) (out j) = false) (processed_actors cfg) →
  is_Ok (main_tasks cfg w).1 = false.
Proof.
  intros Hi Hdir Hsep.
  destruct (main_tasks cfg w) as [[tasks|e] w1] eqn:Hrun; [|done].
  exfalso. rewrite main_tasks_processed in Hrun.
  pose proof (enumeration_listed_dirs _ _ _ _ _ Hrun i Hi) as Hd.
  destruct (enumeration_inv _ _ _ _ _ Hrun) as (es & _ & _ & Hkeep & Hnew & _).
  unfold fs_isdir in Hdir. destruct (fs w !! inp i) as [n|] eqn:Hn.
  - rewrite (Hkeep _ _ Hn) in Hd. injection Hd as ->. done.
  - destruct (Hnew _ Hn) as [?|[_ (j & Hj & Hor)]]; [congruence|].
    eapply Forall_forall in Hsep; [|exact Hj].
    destruct Hor as [Heq|Hanc].
    + rewrite <- Heq in Hsep.
      rewrite <- (append_nil_r (inp i)) in Hsep at 2.
      by rewrite startswith_append in Hsep.
    + by rewrite (is_ancestor_startswith _ _ Hanc) in Hsep.
Qed.

(** X16 In every run, also one that raises, the enumeration of [main]
    keeps every entry of the store as it is; what it adds is a directory,
    at the output folder of an actor of the range or at an ancestor of
    one. *)
Theorem main_tasks_only_adds_output_folders (w : world) p :
  match fs w !! p with
  | Some n => fs (main_tasks cfg w).2 !! p = Some n
  | None =>
      fs (main_tasks cfg w).2 !! p = None
      ∨ (fs (main_tasks cfg w).2 !! p = Some Dir ∧
         ∃ i, i ∈ processed_actors cfg ∧
              (p = out i ∨ is_ancestor p (out i)))
  end.
Proof.
  rewrite main_tasks_processed.
  destruct (for_each (processed_actors cfg) (actor_tasks cfg) [] w)
    as [r w1] eqn:Hrun.
  destruct (enumeration_inv _ _ _ _ _ Hrun) as (es & _ & _ & Hkeep & Hnew & _).
  cbn [snd]. destruct (fs w !! p) as [n|] eqn:Hp; [by apply Hkeep|].
  by apply Hnew.
Qed.

(** *** The output folders, turn by turn *)

Lemma os_path_split_join_tail d name :
  contains_char sep name = false →
  (os_path_split (os_path_join d name)).2 = name.
Proof.
  intros Hn. rewrite join_child by done. unfold os_path_split.
  destruct (dir_prefix_cases d) as [->|[d' ->]].
  - by rewrite append_nil_l, rpartition_None.
  - by rewrite append_assoc, append_cons, append_nil_l, rpartition_append.
Qed.

Lemma out_tail i : (os_path_split (out i)).2 ≠ "".
Proof.
  unfold au_video_folder_path. rewrite os_path_split_join_tail; [done|].
  rewrite append_cons. cbn [contains_char]. rewrite !append_cons.
  cbn [contains_char]. rewrite append_nil_l. apply contains_sep_format_02.
Qed.

Lemma fs_makedirs_parent_dir name (m : gmap string node) :
  fs_exists m name = false →
  (os_path_split name).2 ≠ "" →
  fs_isdir m (os_path_split name).1 = true →
  fs_makedirs name m = Ok (<[name := Dir]> m).
Proof.
  intros Hex Ht Hd.
  assert (fs_exists m (os_path_split name).1 = true) as Hhead.
  { unfold fs_isdir in Hd. unfold fs_exists.
    destruct (m !! (os_path_split name).1) as [n|]; [|done].
    apply bool_decide_eq_true_2. eauto. }
  assert (∀ fuel, makedirs_fuel fuel name m = Ok (<[name := Dir]> m)) as H.
  { intros fuel. destruct fuel as [|fuel]; cbn [makedirs_fuel];
      unfold fs_mkdir; destruct (os_path_split name) as [head tail];
      cbn [fst snd] in *; apply String.eqb_neq in Ht; rewrite Ht, Hhead;
      rewrite andb_false_r, Hex, Hd, orb_true_r; done. }
  apply H.
Qed.

Lemma elem_of_listed (es : list (@event au_vector figure image)) p :
  p ∈ listed es ↔ Listdir p ∈ es.
Proof.
  unfold listed. rewrite list_elem_of_omap. split.
  - intros (e & He & Hp). destruct e; try done. by injection Hp as ->.
  - intros He. by exists (Listdir p).
Qed.

(** The three ways a turn of the loop of [main] can go. *)
Lemma actor_tasks_step i tasks (w : world) r w' :
  actor_tasks cfg i tasks w = (r, w') →
  (fs_exists (fs w) (out i) = true ∧ fs w' = fs w ∧
   trace w' = trace w ++ [Listdir (inp i)])
  ∨ (fs_exists (fs w) (out i) = false ∧ is_Ok r = false ∧ fs w' = fs w ∧
     trace w' = trace w ++ [Makedirs (out i)])
  ∨ (fs_exists (fs w) (out i) = false ∧
     fs_makedirs (out i) (fs w) = Ok (fs w') ∧
     trace w' = trace w ++ [Makedirs (out i);
                            Logged INFO (CreatedFolder (out i));
                            Listdir (inp i)]).
Proof.
  rewrite actor_tasks_run. cbn zeta.
  destruct (fs_exists (fs w) (out i)) eqn:Hex.
  - intros Hrun. left. split; [done|].
    destruct (fs_listdir (fs w) (inp i)); by injection Hrun as _ <-.
  - destruct (fs_makedirs (out i) (fs w)) as [fs'|e] eqn:Hmk.
    + intros Hrun. right; right. split; [done|]. cbn [fs] in Hrun.
      destruct (fs_listdir fs' (inp i)); injection Hrun as _ <-;
        cbn [fs trace after]; by rewrite <- app_assoc.
    + intros [= <- <-]. right; left. done.
Qed.

Lemma inp_inj i j : inp i = inp j → i = j.
Proof. apply actor_folder_inj. Qed.

(** In any run of the loop, an actor whose input folder was listed has its
    output folder: one that was there is untouched, one that was missing
    was made right before the listing. *)
Lemma enumeration_steps acts : ∀ tasks (w : world) r w',
  NoDup acts →
  for_each acts (actor_tasks cfg) tasks w = (r, w') →
  ∃ es,
    trace w' = trace w ++ es ∧
    ∀ i, i ∈ acts → Listdir (inp i) ∈ es →
      fs_exists (fs w') (out i) = true ∧
      if fs_exists (fs w) (out i)
      then fs w' !! out i = fs w !! out i ∧ Makedirs (out i) ∉ es
      else fs w' !! out i = Some Dir ∧
           ∃ es1 es2,
             es = es1 ++ Makedirs (out i)
                         :: Logged INFO (CreatedFolder (out i))
                         :: Listdir (inp i) :: es2.
Proof.
  induction acts as [|i acts IH]; intros tasks w r w' Hnd; cbn [for_each].
  - intros [= <- <-]. exists []. rewrite app_nil_r. split; [done|].
    by intros i H%elem_of_nil.
  - apply NoDup_cons in Hnd as [Hi Hnd]. unfold bind at 1.
    destruct (actor_tasks cfg i tasks w) as [r1 w1] eqn:Hstep.
    pose proof (actor_tasks_step _ _ _ _ _ Hstep) as Hcase.
    assert (∃ es1, trace w1 = trace w ++ es1 ∧
              (∀ j, j ≠ i → (Listdir (inp j) ∉ es1) ∧ (Makedirs (out j) ∉ es1)
                            ∧ fs w1 !! out j = fs w !! out j))
      as (es1 & Htr1 & Hother).
    { destruct Hcase as [(_ & Hfs & Htr)|[(_ & _ & Hfs & Htr)|(_ & Hmk & Htr)]];
        eexists; (split; [exact Htr|]); intros j Hj.
      - rewrite Hfs. split; [|split; [|done]].
        + intros H%list_elem_of_singleton. injection H as H.
          by apply inp_inj in H.
        + intros H%list_elem_of_singleton. done.
      - rewrite Hfs. split; [|split; [|done]].
        + intros H%list_elem_of_singleton. done.
        + intros H%list_elem_of_singleton. injection H as H.
          by apply actor_folder_inj in H.
      - split; [|split].
        + rewrite !elem_of_cons, elem_of_nil.
          intros [H|[H|[H|[]]]]; try done. injection H as H.
          by apply inp_inj in H.
        + rewrite !elem_of_cons, elem_of_nil.
          intros [H|[H|[H|[]]]]; try done. injection H as H.
          by apply actor_folder_inj in H.
        + apply makedirs_fuel_Ok in Hmk as (_ & _ & Hrec).
          destruct (Hrec (out j)) as [?|(_ & _ & [Heq|Hanc])]; [done|..].
          * by apply actor_folder_inj in Heq.
          * by apply actor_folder_not_ancestor in Hanc. }
    destruct r1 as [tasks1|e].
    + intros Hrun.
      destruct (enumeration_inv _ _ _ _ _ Hrun)
        as (es2 & Htr2 & Hev2 & Hkeep2 & _ & Hmk2 & _).
      destruct (IH _ _ _ _ Hnd Hrun) as (es2' & Htr2' & Hrest).
      assert (es2' = es2) as ->
        by (rewrite Htr2 in Htr2'; by apply app_inv_head in Htr2').
      exists (es1 ++ es2). split; [by rewrite Htr2, Htr1, app_assoc|].
      assert (Listdir (inp i) ∉ es2) as Hnot2.
      { intros Hin. eapply Forall_forall in Hev2; [|exact Hin].
        destruct Hev2 as (j & Hj & [?|[?|Heq]]); try done.
        injection Heq as Heq. apply inp_inj in Heq as ->. done. }
      intros j [->|Hj]%elem_of_cons Hin.
      * apply elem_of_app in Hin as [Hin|Hin]; [|done].
        destruct Hcase as [(Hex & Hfs & Htr)|[(_ & ? & _)|(Hex & Hmk & Htr)]];
          [| done |].
        -- rewrite Hex. pose proof Hex as Hex'. unfold fs_exists in Hex'.
           apply bool_decide_eq_true in Hex' as [n Hn].
           assert (fs w' !! out i = Some n) as Hn'
             by (apply Hkeep2; by rewrite Hfs).
           split; [unfold fs_exists; rewrite Hn'; by apply bool_decide_eq_true_2|].
           split; [by rewrite Hn, Hn'|].
           assert (es1 = [Listdir (inp i)]) as ->
             by (rewrite Htr1 in Htr; by apply app_inv_head in Htr).
           intros [H%list_elem_of_singleton|H]%elem_of_app; [done|].
           apply Hmk2 in H. rewrite Hfs in H. congruence.
        -- rewrite Hex.
           assert (es1 = [Makedirs (out i); Logged INFO (CreatedFolder (out i));
                          Listdir (inp i)]) as ->
             by (rewrite Htr1 in Htr; by apply app_inv_head in Htr).
           apply makedirs_fuel_Ok in Hmk as (_ & Hdir & _).
           apply Hkeep2 in Hdir.
           split; [unfold fs_exists; rewrite Hdir; by apply bool_decide_eq_true_2|].
           split; [done|]. by exists [], es2.
      * assert (j ≠ i) as Hji by (intros ->; done).
        destruct (Hother j Hji) as (Hl1 & Hm1 & Hfs1).
        apply elem_of_app in Hin as [Hin|Hin]; [done|].
        destruct (Hrest j Hj Hin) as [Hex' Hif]. split; [done|].
        unfold fs_exists in Hif at 1. rewrite Hfs1 in Hif.
        unfold fs_exists at 1.
        destruct (bool_decide (is_Some (fs w !! out j))).
        -- destruct Hif as [Heq Hno]. split; [by rewrite Heq|].
           intros [H|H]%elem_of_app; done.
        -- destruct Hif as [Hd (a & b & ->)]. split; [done|].
           exists (es1 ++ a), b. by rewrite <- app_assoc.
    + intros [= <- <-]. exists es1. split; [done|].
      intros j [->|Hj]%elem_of_cons Hin.
      * destruct Hcase as [(Hex & Hfs & Htr)|[(Hex & _ & Hfs & Htr)
                                              |(Hex & Hmk & Htr)]].
        -- rewrite Hex, Hfs. split; [done|]. split; [done|].
           assert (es1 = [Listdir (inp i)]) as ->
             by (rewrite Htr1 in Htr; by apply app_inv_head in Htr).
           intros H%list_elem_of_singleton. done.
        -- assert (es1 = [Makedirs (out i)]) as ->
             by (rewrite Htr1 in Htr; by apply app_inv_head in Htr).
           apply list_elem_of_singleton in Hin. done.
        -- rewrite Hex.
           assert (es1 = [Makedirs (out i); Logged INFO (CreatedFolder (out i));
                          Listdir (inp i)]) as ->
             by (rewrite Htr1 in Htr; by apply app_inv_head in Htr).
           apply makedirs_fuel_Ok in Hmk as (_ & Hdir & _).
           split; [unfold fs_exists; rewrite Hdir; by apply bool_decide_eq_true_2|].
           split; [done|]. by exists [], [].
      * assert (j ≠ i) as Hji by (intros ->; done).
        by destruct (Hother j Hji) as (Hl1 & _).
Qed.

(** The enumeration goes through when the input folders are directories
    and every output folder is there or has its parent folder. *)
Lemma enumeration_returns acts : ∀ tasks (w : world),
  Forall (λ i, fs_isdir (fs w) (inp i) = true ∧
               (fs_exists (fs w) (out i) = true
                ∨ fs_isdir (fs w) (os_path_split (out i)).1 = true)) acts →
  is_Ok (for_each acts (actor_tasks cfg) tasks w).1 = true.
Proof.
  induction acts as [|i acts IH]; intros tasks w Hall; cbn [for_each]; [done|].
  apply Forall_cons in Hall as [[Hin Hout] Hall].
  unfold bind at 1. rewrite actor_tasks_run. cbn zeta.
  destruct (fs_exists (fs w) (out i)) eqn:Hex.
  - rewrite (fs_listdir_isdir _ _ Hin). by apply IH.
  - destruct Hout as [?|Hparent]; [done|].
    rewrite (fs_makedirs_parent_dir _ _ Hex (out_tail i) Hparent). cbn [fs].
    assert (fs w !! out i = None) as Hnone.
    { unfold fs_exists in Hex. apply bool_decide_eq_false in Hex.
      by apply eq_None_not_Some. }
    assert (∀ p, fs_isdir (fs w) p = true →
                 fs_isdir (<[out i := Dir]> (fs w)) p = true) as Hdir.
    { intros p Hp. unfold fs_isdir in *.
      destruct (decide (p = out i)) as [->|Hne];
        [by rewrite lookup_insert_eq|by rewrite lookup_insert_ne]. }
    rewrite (fs_listdir_isdir _ _ (Hdir _ Hin)). apply IH. cbn [fs after].
    eapply Forall_impl; [exact Hall|]. intros j [Hj1 Hj2]. cbn beta.
    split; [by apply Hdir|]. destruct Hj2 as [Hj2|Hj2]; [left|right; by apply Hdir].
    unfold fs_exists in *. apply bool_decide_eq_true in Hj2 as [n Hn].
    apply bool_decide_eq_true_2.
    destruct (decide (out j = out i)) as [->|Hne];
      [rewrite lookup_insert_eq|rewrite lookup_insert_ne]; eauto.
Qed.

End Enumeration.

(** X11 on a name with two dots. *)
Lemma task_of_replaces_last_extension_witness :
  task_of the_config 19 ("03-01-03.smooth" +:+ "." +:+ "csv")
  = (os_path_join (smoothed_csv_folder_path the_config 19)
       ("03-01-03.smooth" +:+ "." +:+ "csv"),
     os_path_join (au_video_folder_path the_config 19)
       ("03-01-03.smooth" +:+ ".mp4")).
Proof.
  apply (task_of_replaces_last_extension the_config 19 "03-01-03.smooth" "csv");
    reflexivity.
Defined.

(** X12 on a name of dots and letters. *)
Lemma task_of_name_without_extension_witness :
  task_of the_config 19 (".." +:+ "old")
  = (os_path_join (smoothed_csv_folder_path the_config 19) (".." +:+ "old"),
     os_path_join (au_video_folder_path the_config 19)
       (".." +:+ "old" +:+ ".mp4")).
Proof.
  apply (task_of_name_without_extension the_config 19 ".." "old"); reflexivity.
Defined.

(** X13 on a [.csv] and a [.txt] of the same base. *)
Lemma task_of_same_output_witness :
  (task_of the_config 19 ("03-01-03" +:+ "." +:+ "csv")).2
  = (task_of the_config 19 ("03-01-03" +:+ "." +:+ "txt")).2.
Proof.
  apply (task_of_same_output the_config 19 "03-01-03" "csv" "txt"); reflexivity.
Defined.

(** X14 in song mode on actors 17 to 19, with both output folders there. *)
Lemma main_tasks_on_existing_output_folders_witness :
  let w := {| fs := Sample.rerun_store; trace := @nil (@event nat nat nat) |} in
  ∃ tasks,
    main_tasks Sample.song_config w
    = (Ok tasks,
       after w ((λ i, Listdir (smoothed_csv_folder_path Sample.song_config i))
                <$> processed_actors Sample.song_config)) ∧
    tasks = (processed_actors Sample.song_config
             ≫= λ i, task_of Sample.song_config i
                      <$> children (fs w)
                            (smoothed_csv_folder_path Sample.song_config i)) ∧
    ∀ t, t ∈ tasks ↔
         ∃ i name,
           i ∈ processed_actors Sample.song_config ∧
           t = task_of Sample.song_config i name ∧
           name ≠ "" ∧ contains_char sep name = false ∧
           is_Some (fs w !! os_path_join
                              (smoothed_csv_folder_path Sample.song_config i)
                              name).
Proof.
  intros w. apply (main_tasks_on_existing_output_folders Sample.song_config w).
  vm_compute. repeat constructor.
Defined.

Section Main.
Context {au_vector axes figure png image : Type}.
Variable read_feat : gmap string node → string → result (list au_vector).
Variable plot_face : au_vector → nat → result axes.
Variable get_figure : axes → figure.
Variable savefig : figure → nat → result png.
Variable imread : png → result image.
Variable get_writer : gmap string node → string → result unit.
Variable append_data : string → list image → image → result unit.
Variable close : string → list image → result unit.
Variable encoder :
  @event au_vector figure image → result unit →
  gmap string node → gmap string node.
Variable pool_map :
  nat → (string * string → M (@world au_vector figure image) unit) →
  list (string * string) → M (@world au_vector figure image) unit.
Variable cfg : config.

Local Abbreviation world := (@world au_vector figure image).
Local Abbreviation out := (au_video_folder_path cfg).
Local Abbreviation inp := (smoothed_csv_folder_path cfg).
Local Abbreviation task :=
  (generate_au_video_from_csv read_feat plot_face get_figure savefig imread
     get_writer append_data close encoder cfg).
Local Abbreviation the_main :=
  (main read_feat plot_face get_figure savefig imread get_writer append_data
     close encoder pool_map cfg).

(** C7.  In every run of [main], up to the pool only directory calls are
    made (no task has run, no writer was opened), and an actor whose input
    folder was listed has its output folder by then: a folder that was
    there is as it was and no [os.makedirs] was tried on it; a folder that
    was missing is a directory, made by the call of [os.makedirs] that
    comes right before the creation record and the listing of that actor.
    This holds also when a later call of the enumeration raises; [main]
    then raises and the pool is never called.  When the enumeration
    returns, every processed actor was listed and the pool is given the
    tasks in the world the enumeration leaves.  The enumeration does return
    when the input folders are directories and every output folder is there
    or has its parent folder. *)
Theorem output_folders_before_dispatch (w : world) :
  (∃ es,
     trace (main_tasks cfg w).2 = trace w ++ es ∧
     Forall (λ e, ∃ i, i ∈ processed_actors cfg ∧
                  (e = Makedirs (out i)
                   ∨ e = Logged INFO (CreatedFolder (out i))
                   ∨ e = Listdir (inp i))) es ∧
     (∀ i, i ∈ processed_actors cfg → Listdir (inp i) ∈ es →
        fs_exists (fs (main_tasks cfg w).2) (out i) = true ∧
        if fs_exists (fs w) (out i)
        then fs (main_tasks cfg w).2 !! out i = fs w !! out i ∧
             Makedirs (out i) ∉ es
        else fs (main_tasks cfg w).2 !! out i = Some Dir ∧
             ∃ es1 es2,
               es = es1 ++ Makedirs (out i)
                           :: Logged INFO (CreatedFolder (out i))
                           :: Listdir (inp i) :: es2) ∧
     match (main_tasks cfg w).1 with
     | Ok tasks =>
         the_main w
           = pool_map (num_processes cfg) task tasks (main_tasks cfg w).2 ∧
         ∀ i, i ∈ processed_actors cfg → Listdir (inp i) ∈ es
     | Raise e => the_main w = (Raise e, (main_tasks cfg w).2)
     end) ∧
  (Forall (λ i, fs_isdir (fs w) (inp i) = true ∧
                (fs_exists (fs w) (out i) = true
                 ∨ fs_isdir (fs w) (os_path_split (out i)).1 = true))
     (processed_actors cfg) →
   is_Ok (main_tasks cfg w).1 = true).
Proof.
  split.
  - assert (the_main w
            = match (main_tasks cfg w).1 with
              | Ok tasks =>
                  pool_map (num_processes cfg) task tasks (main_tasks cfg w).2
              | Raise e => (Raise e, (main_tasks cfg w).2)
              end) as Hmain.
    { unfold main, bind. by destruct (main_tasks cfg w) as [[tasks|e] w1]. }
    revert Hmain. rewrite !main_tasks_processed.
    destruct (for_each (processed_actors cfg) (actor_tasks cfg) [] w)
      as [r w1] eqn:Hrun.
    cbn [fst snd]. intros Hmain.
    destruct (enumeration_steps cfg _ _ _ _ _ (NoDup_processed_actors cfg) Hrun)
      as (es & Htr & Hsteps).
    destruct (enumeration_inv cfg _ _ _ _ _ Hrun)
      as (es' & Htr' & Hev & _ & _ & _ & _ & Hr).
    assert (es' = es) as ->
      by (rewrite Htr in Htr'; by apply app_inv_head in Htr').
    exists es. split; [done|]. split; [done|]. split; [done|].
    destruct r as [tasks|e]; [|done]. split; [done|].
    destruct Hr as (Hl & _). intros i Hi.
    apply elem_of_listed. rewrite Hl. apply list_elem_of_fmap. by exists i.
  - intros Hall. rewrite main_tasks_processed. by apply enumeration_returns.
Qed.

(** C8.  The loop of [main] is the loop of the per-actor turn over the
    actors that are not skipped.  In song mode these are the indices of the
    range other than 18: no directory call is made for the folders of
    actor 18, its output folder is as it was, every emitted task is the
    task of a file of another actor of the range, and when the enumeration
    goes through every other actor of the range has been listed.  Out of
    song mode they are all the indices of the range, 18 included. *)
Theorem song_mode_skips_actor_18 (w : world) :
  main_tasks cfg w = for_each (processed_actors cfg) (actor_tasks cfg) [] w ∧
  if isSong cfg then
    processed_actors cfg
      = filter (λ i, i ≠ 18) (range (start_actor_num cfg) (end_actor_num cfg)) ∧
    ∃ es,
      trace (main_tasks cfg w).2 = trace w ++ es ∧
      (Makedirs (out 18) ∉ es) ∧
      (Logged INFO (CreatedFolder (out 18)) ∉ es) ∧
      (Listdir (inp 18) ∉ es) ∧
      fs (main_tasks cfg w).2 !! out 18 = fs w !! out 18 ∧
      match (main_tasks cfg w).1 with
      | Ok tasks =>
          Forall (λ t, ∃ i name,
                    start_actor_num cfg ≤ i < end_actor_num cfg ∧ i ≠ 18 ∧
                    t = task_of cfg i name) tasks ∧
          ∀ i, start_actor_num cfg ≤ i < end_actor_num cfg → i ≠ 18 →
               Listdir (inp i) ∈ es
      | Raise _ => True
      end
  else
    processed_actors cfg = range (start_actor_num cfg) (end_actor_num cfg).
Proof.
  clear read_feat plot_face get_figure savefig imread get_writer append_data
    close encoder pool_map.
  split; [apply main_tasks_processed|].
  destruct (isSong cfg) eqn:Hsong.
  - assert (∀ i, i ∈ processed_actors cfg ↔
                 start_actor_num cfg ≤ i < end_actor_num cfg ∧ i ≠ 18) as Hproc.
    { intros i. rewrite elem_of_processed_actors, Hsong. intuition. }
    split.
    { unfold processed_actors. apply list_filter_iff. intros i. rewrite Hsong.
      intuition. }
    rewrite main_tasks_processed.
    destruct (for_each _ _ _ w) as [r w'] eqn:Hrun.
    apply enumeration_inv in Hrun
      as (es & Htr & Hev & Hkeep & Hnew & Hmk & _ & Hr).
    exists es. cbn [fst snd]. split; [done|].
    assert (∀ e, e ∈ es → ∃ i, i ≠ 18 ∧
              (e = Makedirs (out i) ∨ e = Logged INFO (CreatedFolder (out i))
               ∨ e = Listdir (inp i))) as Hshape.
    { intros e He. eapply Forall_forall in Hev as (i & Hi%Hproc & ?); [|done].
      exists i. split; [lia|done]. }
    split.
    { intros (i & Hi & [[= H]|[[=]|[=]]])%Hshape.
      by apply actor_folder_inj in H. }
    split.
    { intros (i & Hi & [[=]|[[= H]|[=]]])%Hshape.
      by apply actor_folder_inj in H. }
    split.
    { intros (i & Hi & [[=]|[[=]|[= H]]])%Hshape.
      by apply actor_folder_inj in H. }
    split.
    { destruct (fs w !! out 18) as [n|] eqn:Hn; [by apply Hkeep|].
      destruct (Hnew _ Hn) as [?|[_ (i & Hi%Hproc & [Heq|Hanc])]]; [done|..].
      - apply actor_folder_inj in Heq. lia.
      - by apply actor_folder_not_ancestor in Hanc. }
    destruct r as [tasks|e]; [|done].
    destruct Hr as (Hl & _ & new & -> & Hnew'). split.
    + eapply Forall_impl; [done|]. intros t (i & name & Hi%Hproc & ->).
      exists i, name. by destruct Hi.
    + intros i Hi Hne.
      assert (inp i ∈ listed es) as Hin.
      { rewrite Hl. apply list_elem_of_fmap_2, Hproc. done. }
      unfold listed in Hin. apply list_elem_of_omap in Hin as (e & He & Hm).
      destruct e; try done. by injection Hm as ->.
  - unfold processed_actors. rewrite Hsong.
    induction (range _ _) as [|i l IH]; [done|].
    rewrite filter_cons, decide_True by (by intros [_ ?]). by rewrite IH.
Qed.

(** X15 If the input folder of an actor in the range is not a directory
    (and is not one of the folders the enumeration creates), [main] raises
    while it enumerates: no task is handed to the pool. *)
Theorem main_needs_every_input_folder (w : world) i :
  i ∈ processed_actors cfg →
  fs_isdir (fs w) (inp i) = false →
  Forall (λ j, startswith (inp i) (out j) = false) (processed_actors cfg) →
  ∃ e w1, main_tasks cfg w = (Raise e, w1) ∧ the_main w = (Raise e, w1).
Proof.
  intros Hi Hdir Hsep.
  pose proof (main_tasks_missing_input cfg w i Hi Hdir Hsep) as Hno.
  destruct (main_tasks cfg w) as [[tasks|e] w1] eqn:Hrun; [done|].
  exists e, w1. split; [done|]. unfold main, bind. by rewrite Hrun.
Qed.

End Main.

(** C7 in song mode on actors 17 to 19: the output folder of actor 19 is
    there, that of actor 17 is missing below an existing parent folder, and
    both input folders are directories, so the enumeration returns. *)
Lemma output_folders_before_dispatch_witness :
  is_Ok (main_tasks Sample.song_config
           {| fs := Sample.fresh_store;
              trace := @nil (@event nat nat nat) |}).1 = true.
Proof.
  apply (proj2
           (output_folders_before_dispatch Sample.read_feat Sample.plot_face
              Sample.get_figure Sample.savefig Sample.imread Sample.get_writer
              Sample.append_data Sample.close (λ _ _ fs, fs) (λ _ _ _, ret tt)
              Sample.song_config
              {| fs := Sample.fresh_store; trace := [] |})).
  replace (processed_actors Sample.song_config) with [17; 19]
    by (by vm_compute).
  repeat apply Forall_cons_2.
  - split; [by vm_compute|right; by vm_compute].
  - split; [by vm_compute|left; by vm_compute].
  - apply Forall_nil_2.
Defined.

(** The run of the enumeration on that store, and a run that is cut short:
    in a store without the input folder of actor 1 the output folder of
    actor 1 is made before the listing raises. *)
Example output_folders_sample :
  let r := main_tasks Sample.song_config
             {| fs := Sample.fresh_store; trace := @nil (@event nat nat nat) |} in
  trace r.2 = [Makedirs "F:/video/ActionUnit/Actor_17";
               Logged INFO (CreatedFolder "F:/video/ActionUnit/Actor_17");
               Listdir "F:/smoothed/Actor_17";
               Listdir "F:/smoothed/Actor_19"] ∧
  fs r.2 !! "F:/video/ActionUnit/Actor_17" = Some Dir ∧
  let r := main_tasks the_config
             {| fs := Sample.fresh_store; trace := @nil (@event nat nat nat) |} in
  r.1 = Raise (FileNotFoundError "F:/smoothed/Actor_01") ∧
  trace r.2 = [Makedirs "F:/video/ActionUnit/Actor_01";
               Logged INFO (CreatedFolder "F:/video/ActionUnit/Actor_01");
               Listdir "F:/smoothed/Actor_01"] ∧
  fs r.2 !! "F:/video/ActionUnit/Actor_01" = Some Dir.
Proof. by vm_compute. Qed.

(** Song mode on the sample store: actor 18 is passed over, the missing
    output folder of actor 17 is made, the one of actor 19 is found. *)
Example song_mode_sample :
  let r := main_tasks Sample.song_config
             {| fs := Sample.csv_store; trace := @nil (@event nat nat nat) |} in
  r.1 = Ok [("F:/smoothed/Actor_17/03-01-01.csv",
             "F:/video/ActionUnit/Actor_17/03-01-01.mp4");
            ("F:/smoothed/Actor_19/03-01-03.smooth.csv",
             "F:/video/ActionUnit/Actor_19/03-01-03.smooth.mp4")] ∧
  trace r.2 = [Makedirs "F:/video/ActionUnit/Actor_17";
               Logged INFO (CreatedFolder "F:/video/ActionUnit/Actor_17");
               Listdir "F:/smoothed/Actor_17";
               Listdir "F:/smoothed/Actor_19"] ∧
  fs r.2 !! "F:/video/ActionUnit/Actor_17" = Some Dir ∧
  fs r.2 !! "F:/video/ActionUnit/Actor_18" = None.
Proof. vm_compute. repeat split. Qed.

(** C10.  The configured range [range(1, 25)] is the indices 1 to 24.  The
    enumeration of [main] lists the input folders [Actor_01] to [Actor_24]
    in this order and no other (a run that raises stops within them), and
    its tasks are tasks of files of these actors; the cleanup script hands
    [glob] the patterns of [Actor_01] to [Actor_24] in this order and no
    other.  The index 25 is never reached. *)
Theorem actor_range_ends_at_24 :
  range (start_actor_num the_config) (end_actor_num the_config) = seq 1 24 ∧
  processed_actors the_config = seq 1 24 ∧
  (∀ (au_vector figure image : Type) (w : @world au_vector figure image),
     ∃ es,
       trace (main_tasks the_config w).2 = trace w ++ es ∧
       listed es `prefix_of`
         ((λ i, "F:/smoothed/Actor_" +:+ format_02 i) <$> seq 1 24) ∧
       match (main_tasks the_config w).1 with
       | Ok tasks =>
           listed es = (λ i, "F:/smoothed/Actor_" +:+ format_02 i) <$> seq 1 24 ∧
           Forall (λ t, ∃ i name, 1 ≤ i ≤ 24 ∧ t = task_of the_config i name)
             tasks
       | Raise _ => True
       end) ∧
  (∀ w : RemoveVideoOnlyFile.world,
     ∃ es,
       RemoveVideoOnlyFile.trace (RemoveVideoOnlyFile.script w).2
         = RemoveVideoOnlyFile.trace w ++ es ∧
       RemoveVideoOnlyFile.globbed es `prefix_of`
         ((λ i, "F:/RAVDESS/Actor_" +:+ format_02 i +:+ "/02-*.mp4") <$> seq 1 24) ∧
       (is_Ok (RemoveVideoOnlyFile.script w).1 = true →
        RemoveVideoOnlyFile.globbed es
          = (λ i, "F:/RAVDESS/Actor_" +:+ format_02 i +:+ "/02-*.mp4") <$> seq 1 24)).
Proof.
  split; [done|]. split; [done|]. split.
  - intros au_vector figure image w. rewrite main_tasks_processed.
    destruct (for_each _ _ _ w) as [r w'] eqn:Hrun.
    apply enumeration_inv in Hrun as (es & Htr & _ & _ & _ & _ & Hpre & Hr).
    exists es. cbn [fst snd]. split; [done|]. split; [exact Hpre|].
    destruct r as [tasks|e]; [|done].
    destruct Hr as (Hl & _ & new & -> & Hnew). split; [exact Hl|].
    eapply Forall_impl; [done|]. intros t (i & name & Hi & ->).
    exists i, name. split; [|done].
    change (processed_actors the_config) with (seq 1 24) in Hi.
    apply elem_of_seq in Hi. lia.
  - intros w. exact (Cleanup.script_globbed w).
Qed.

(** X15 on the configured range, in a store without the input folder of
    actor 1. *)
Lemma main_needs_every_input_folder_witness :
  let w := {| fs := Sample.csv_store; trace := @nil (@event nat nat nat) |} in
  ∃ e w1,
    main_tasks the_config w = (Raise e, w1) ∧
    main Sample.read_feat Sample.plot_face Sample.get_figure Sample.savefig
      Sample.imread Sample.get_writer Sample.append_data Sample.close
      (λ _ _ fs, fs) (λ _ _ _, ret tt) the_config w = (Raise e, w1).
Proof.
  intros w.
  apply (main_needs_every_input_folder Sample.read_feat Sample.plot_face
           Sample.get_figure Sample.savefig Sample.imread Sample.get_writer
           Sample.append_data Sample.close (λ _ _ fs, fs) (λ _ _ _, ret tt)
           the_config w 1).
  - vm_compute. left.
  - reflexivity.
  - vm_compute. repeat constructor.
Defined.
